(** * spoof.py: the in-memory limit order book and the live-exchange stub

    A shallow embedding of [src/spoof.py], in two parts.

    - The first part takes Python [float]s ([price], [size], [filled],
      timestamps) as exact rationals [Q], with numeric equality [Qeq]
      ([==]).  It is used for the properties that do not turn on rounding,
      infinities or NaN: the shape of the queues, the order of equal prices,
      cancelling, the top of book, the live stub and the scenarios, whose
      numbers binary64 computes exactly as well.
    - Module [F64] embeds [SimExchange] and the spoofing cycle again with
      [price], [size], [filled] and timestamps as binary64 floats
      ([PrimFloat.float]): [+], [-], [*] and [/] round to nearest, and
      [<], [<=], [==] are those of IEEE 754, false on NaN.  It is used for
      the properties that turn on the arithmetic: the fills, the exit of the
      matching loop, the order of the prices and the prices of the spoofing
      cycle.

    In both parts:
    - Every [Order] is a heap object.  The heap is the list of all [Order]
      objects allocated so far; a reference is an index into it.  The two
      deques of the book hold references, so an update made through the
      local variables [buy], [sell] or [o] is seen through the queue.
    - [time.time()] is an oracle [clock]: its [n]-th call returns [clock n].
    - The [while] loop of [_match] is run with explicit fuel; running out of
      fuel is the outcome [Diverge]. *)

From Stdlib Require Import QArith Qminmax Lqa Lia String Ascii Floats.
From stdpp Require Import base list sorting.

Set Warnings "-inexact-float".

Local Open Scope Q_scope.

(** ** Exceptions and outcomes *)

Inductive ExnClass := RuntimeError | NotImplementedError | ValueError.

Record Exn := mkExn { exn_class : ExnClass; exn_msg : string }.

Inductive outcome (A : Type) : Type :=
| Ok (a : A)
| Raise (e : Exn)
| Diverge.

Arguments Ok {A} a.
Arguments Raise {A} e.
Arguments Diverge {A}.

(** Sequencing: [x ← m; k] runs [k] on the value of [m]; an exception or
    divergence of [m] is the result. *)
#[global] Instance outcome_bind : MBind outcome := fun A B k m =>
  match m with
  | Ok a => k a
  | Raise e => Raise e
  | Diverge => Diverge
  end.

(** ** Common data structures *)

Inductive Side := BUY | SELL.

(** [Literal["open", "filled", "cancelled"]] *)
Inductive Status := st_open | st_filled | st_cancelled.

Record Order := mkOrder {
  id : string;
  side : Side;
  price : Q;
  size : Q;
  filled : Q;
  status : Status;
  ts : Q
}.

(** A trade is the dict [{"price": px, "size": qty, "ts": time.time()}]. *)
Record Trade := mkTrade { tr_price : Q; tr_size : Q; tr_ts : Q }.

(** The dict [{"bid": bid, "ask": ask}] returned by [get_top]. *)
Record Top := mkTop { bid : Q; ask : Q }.

Definition Side_eqb (a b : Side) : bool :=
  match a, b with
  | BUY, BUY | SELL, SELL => true
  | _, _ => false
  end.

Definition Status_eqb (a b : Status) : bool :=
  match a, b with
  | st_open, st_open | st_filled, st_filled | st_cancelled, st_cancelled => true
  | _, _ => false
  end.

(** [p1 < p2] on floats. *)
Definition Qlt_bool (p1 p2 : Q) : bool := negb (Qle_bool p2 p1).

(** The [__eq__] that [@dataclass] generates: the tuples of all fields are
    compared, floats numerically. *)
Definition Order_eq (a b : Order) : bool :=
  String.eqb (id a) (id b) && Side_eqb (side a) (side b)
  && Qeq_bool (price a) (price b) && Qeq_bool (size a) (size b)
  && Qeq_bool (filled a) (filled b) && Status_eqb (status a) (status b)
  && Qeq_bool (ts a) (ts b).

(** ** The heap of [Order] objects *)

Definition ref := nat.

(** What a reference to no object reads as; no reference held by a book
    built through the interface is of this kind ([book_wf] below). *)
Definition dangling : Order :=
  mkOrder EmptyString BUY 0 0 0 st_cancelled 0.

Definition deref (h : list Order) (r : ref) : Order := default dangling (h !! r).

(** [o.filled += qty] *)
Definition add_filled (h : list Order) (r : ref) (qty : Q) : list Order :=
  let o := deref h r in
  <[r := mkOrder (id o) (side o) (price o) (size o) (filled o + qty) (status o) (ts o)]> h.

(** [o.status = st] *)
Definition set_status (h : list Order) (r : ref) (st : Status) : list Order :=
  let o := deref h r in
  <[r := mkOrder (id o) (side o) (price o) (size o) (filled o) st (ts o)]> h.

(** ** 1) Simulation exchange *)

(** [buys] and [sells] are [self.book[Side.BUY]] and [self.book[Side.SELL]],
    head first; [trades] is [self.trades], oldest first.  [heap] and [now]
    are the part of the interpreter state the exchange works on: the [Order]
    objects and the number of [time.time()] calls made so far. *)
Record SimExchange := mkSim {
  heap : list Order;
  buys : list ref;
  sells : list ref;
  trades : list Trade;
  now : nat
}.

Definition book (ex : SimExchange) (s : Side) : list ref :=
  match s with BUY => buys ex | SELL => sells ex end.

Definition set_book (ex : SimExchange) (s : Side) (q : list ref) : SimExchange :=
  match s with
  | BUY => mkSim (heap ex) q (sells ex) (trades ex) (now ex)
  | SELL => mkSim (heap ex) (buys ex) q (trades ex) (now ex)
  end.

Definition set_heap (ex : SimExchange) (h : list Order) : SimExchange :=
  mkSim h (buys ex) (sells ex) (trades ex) (now ex).

(** [SimExchange.__init__] *)
Definition SimExchange_init : SimExchange := mkSim [] [] [] [] 0.

(** [SimExchange.connect] only logs. *)
Definition connect (ex : SimExchange) : outcome (unit * SimExchange) := Ok (tt, ex).

(** [SimExchange.get_top] *)
Definition get_top (ex : SimExchange) (_symbol : string) : outcome (Top * SimExchange) :=
  let bid := match buys ex with
             | r :: _ => price (deref (heap ex) r)
             | [] => 99999 # 2
             end in
  let ask := match sells ex with
             | r :: _ => price (deref (heap ex) r)
             | [] => 100001 # 2
             end in
  Ok (mkTop bid ask, ex).

(** The comparison [_insert] picks for the side of the new order. *)
Definition cmp (s : Side) (p1 p2 : Q) : bool :=
  match s with
  | BUY => Qlt_bool p2 p1
  | SELL => Qlt_bool p1 p2
  end.

(** The [while] loop of [_insert]: the index reached when scanning [q] from
    its head for as long as [cmp(q[idx].price, order.price)] holds. *)
Fixpoint insert_idx (h : list Order) (s : Side) (q : list ref) (p : Q) : nat :=
  match q with
  | [] => 0%nat
  | r :: q' => if cmp s (price (deref h r)) p then S (insert_idx h s q' p) else 0%nat
  end.

(** [q.insert(idx, x)] for [idx <= len(q)]. *)
Definition deque_insert (q : list ref) (idx : nat) (x : ref) : list ref :=
  take idx q ++ x :: drop idx q.

(** [SimExchange._insert], on the reference of the new order. *)
Definition _insert (ex : SimExchange) (r : ref) : SimExchange :=
  let order := deref (heap ex) r in
  let q := book ex (side order) in
  let idx := insert_idx (heap ex) (side order) q (price order) in
  set_book ex (side order) (deque_insert q idx r).

(** [q.remove(value)]: drops the first element that is [value] or equals it;
    [ValueError] when there is none. *)
Fixpoint deque_remove (h : list Order) (q : list ref) (r : ref) : outcome (list ref) :=
  match q with
  | [] => Raise (mkExn ValueError "deque.remove(x): x not in deque")
  | x :: q' =>
      if Nat.eqb x r || Order_eq (deref h x) (deref h r) then Ok q'
      else q'' ← deque_remove h q' r; Ok (x :: q'')
  end.

(** The inner [for o in list(q)] of [cancel] with its test: the first order
    of the snapshot with this id and status ["open"]. *)
Definition find_open (h : list Order) (q : list ref) (order_id : string) : option ref :=
  List.find (fun r => String.eqb (id (deref h r)) order_id
                      && Status_eqb (status (deref h r)) st_open) q.

(** One round of the outer loop of [cancel], for the queue of side [s]:
    [None] when the inner loop ends without a [return]. *)
Definition cancel_in (ex : SimExchange) (s : Side) (order_id : string)
  : option (outcome (unit * SimExchange)) :=
  match find_open (heap ex) (book ex s) order_id with
  | Some r =>
      let h' := set_status (heap ex) r st_cancelled in
      Some (q' ← deque_remove h' (book ex s) r;
            Ok (tt, set_book (set_heap ex h') s q'))
  | None => None
  end.

(** [SimExchange.cancel]; [self.book.values()] yields the BUY queue, then
    the SELL queue. *)
Definition cancel (ex : SimExchange) (order_id : string) : outcome (unit * SimExchange) :=
  match cancel_in ex BUY order_id with
  | Some res => res
  | None =>
      match cancel_in ex SELL order_id with
      | Some res => res
      | None => Ok (tt, ex)
      end
  end.

(** ** 2) Live exchange stub *)

(** Python's exception hierarchy on the classes used here:
    [NotImplementedError] derives from [RuntimeError]. *)
Definition subclass (c d : ExnClass) : bool :=
  match c, d with
  | RuntimeError, RuntimeError
  | NotImplementedError, NotImplementedError
  | NotImplementedError, RuntimeError
  | ValueError, ValueError => true
  | _, _ => false
  end.

(** Whether a handler [except d] takes the exception [e]. *)
Definition caught_by (d : ExnClass) (e : Exn) : bool := subclass (exn_class e) d.

Module Live.

Record LiveExchange := mk { key : string; secret : string; paper : bool }.

(** [LiveExchange.__init__(api_key, api_secret, paper=True)]; [None] is the
    call that leaves [paper] out. *)
Definition init (api_key api_secret : string) (paper : option bool) : LiveExchange :=
  mk api_key api_secret (default true paper).

(** The log calls of the paper branches are not modelled. *)
Definition connect (ex : LiveExchange) : outcome unit :=
  if paper ex then Ok tt
  else Raise (mkExn RuntimeError
    "Live trading disabled in this stub. Enable paper mode or implement real API calls at your own risk.").

(** (The hyphens of this message are U+2011 in the source.) *)
Definition get_top (ex : LiveExchange) (symbol : string) : outcome Top :=
  Raise (mkExn NotImplementedError "Fill with venue top-of-book request").

Definition place_limit (ex : LiveExchange)
    (symbol : string) (sd : Side) (p sz : Q) (cid : string) : outcome string :=
  if paper ex then Ok cid
  else Raise (mkExn RuntimeError "Live order placement not implemented").

Definition cancel (ex : LiveExchange) (order_id : string) : outcome unit :=
  if paper ex then Ok tt
  else Raise (mkExn RuntimeError "Live cancel not implemented").

End Live.

(** ** Runner *)

(** The object [run_strategy] binds to [ex]. *)
Inductive Exchange :=
| ExSim (ex : SimExchange)
| ExLive (ex : Live.LiveExchange).

(** [ex.connect()] by dynamic dispatch. *)
Definition Exchange_connect (ex : Exchange) : outcome unit :=
  match ex with
  | ExSim e => x ← connect e; Ok tt
  | ExLive e => Live.connect e
  end.

(** [str.lower] on ASCII letters. *)
Definition lower_ascii (c : ascii) : ascii :=
  let n := nat_of_ascii c in
  if (65 <=? n)%nat && (n <=? 90)%nat then ascii_of_nat (n + 32) else c.

Fixpoint lower (s : string) : string :=
  match s with
  | EmptyString => EmptyString
  | String c s' => String (lower_ascii c) (lower s')
  end.

(** [os.getenv(k, d)] over the environment [env]. *)
Definition getenv (env : string -> option string) (k d : string) : string :=
  default d (env k).

(** [run_strategy] up to the [async with]: the exchange is built and
    connected.  [Ok ex] is the point where the trading loop is entered, on
    [ex]; an exception of [connect] leaves [run_strategy] before it. *)
Definition run_strategy (env : string -> option string) (mode : string) : outcome Exchange :=
  let ex :=
    if String.eqb mode "sim" then ExSim SimExchange_init
    else ExLive (Live.init (getenv env "EX_KEY" EmptyString)
                   (getenv env "EX_SECRET" EmptyString)
                   (Some (String.eqb (lower (getenv env "EX_PAPER" "true")) "true"))) in
  _ ← Exchange_connect ex; Ok ex.

(** ** Specification vocabulary, clock-free part *)

(** [size - filled] *)
Definition remaining (o : Order) : Q := size o - filled o.

(** The fields that no statement of the program assigns after creation. *)
Definition same_static (o o' : Order) : Prop :=
  id o = id o' /\ side o = side o' /\ price o = price o' /\
  size o = size o' /\ ts o = ts o'.

(** Price priority on a side: [p1] is at least as good as [p2]. *)
Definition better_eq (s : Side) (p1 p2 : Q) : Prop :=
  match s with
  | BUY => p2 <= p1
  | SELL => p1 <= p2
  end.

Definition prices (h : list Order) (q : list ref) : list Q :=
  (fun r => price (deref h r)) <$> q.

(** A queue in price priority, best first. *)
Definition sorted (h : list Order) (s : Side) (q : list ref) : Prop :=
  StronglySorted (better_eq s) (prices h q).

(** Every reference of the queue is to an allocated order of side [s]. *)
Definition tagged (h : list Order) (s : Side) (q : list ref) : Prop :=
  Forall (fun r => (r < length h)%nat /\ side (deref h r) = s) q.

Definition all_open (h : list Order) (q : list ref) : Prop :=
  Forall (fun r => status (deref h r) = st_open) q.

(** Every reference of the queue is to an allocated order. *)
Definition allocated (h : list Order) (q : list ref) : Prop :=
  Forall (fun r => (r < length h)%nat) q.

(** The book as a Python state: the queues hold references to allocated
    orders, and no order is in both queues. *)
Definition refs_wf (ex : SimExchange) : Prop :=
  allocated (heap ex) (buys ex) /\ allocated (heap ex) (sells ex) /\
  (forall r, r ∈ buys ex -> r ∈ sells ex -> False).

(** A cross: both queues are non-empty and the head BUY price is greater
    than or equal to the head SELL price. *)
Definition crossed (ex : SimExchange) : Prop :=
  match buys ex, sells ex with
  | rb :: _, rs :: _ => price (deref (heap ex) rs) <= price (deref (heap ex) rb)
  | _, _ => False
  end.

(** What holds of the queue of side [s]: its references are distinct and
    to allocated, open orders of that side, in price priority. *)
Record queue_wf (h : list Order) (s : Side) (q : list ref) : Prop := mk_queue_wf {
  qw_tagged : tagged h s q;
  qw_nodup : NoDup q;
  qw_open : all_open h q;
  qw_sorted : sorted h s q
}.

(** What holds of the book between any two calls, and between any two
    iterations of the matching loop. *)
Definition book_wf (ex : SimExchange) : Prop :=
  queue_wf (heap ex) BUY (buys ex) /\ queue_wf (heap ex) SELL (sells ex).


(** The orders of the two queues that carry the id [order_id]. *)
Definition resting_with_id (ex : SimExchange) (order_id : string) : list ref :=
  List.filter (fun r => String.eqb (id (deref (heap ex) r)) order_id)
    (buys ex ++ sells ex).

(** The test of [cancel] on the order behind [r]. *)
Definition open_with_id (h : list Order) (order_id : string) (r : ref) : Prop :=
  id (deref h r) = order_id /\ status (deref h r) = st_open.

(** No order with this id and status ["open"] is in a queue. *)
Definition no_open_with_id (ex : SimExchange) (order_id : string) : Prop :=
  find_open (heap ex) (buys ex) order_id = None /\
  find_open (heap ex) (sells ex) order_id = None.

(** Every order with status ["open"] is in the queue of its side. *)
Definition open_rests (ex : SimExchange) : Prop :=
  forall r, (r < length (heap ex))%nat ->
    status (deref (heap ex) r) = st_open ->
    r ∈ book ex (side (deref (heap ex) r)).

(** ** The simulation exchange on binary64 floats *)

(** The same program with [float] read as IEEE 754 binary64, the floats of
    Python: [+], [-] and [/] round to nearest, [<] and [>=] are false when
    an operand is NaN.  The claims that depend on rounding, on infinities
    or on NaN are stated on this embedding. *)
Module F64.

Local Open Scope float_scope.

Record Order := mkOrder {
  id : string;
  side : Side;
  price : float;
  size : float;
  filled : float;
  status : Status;
  ts : float
}.

(** The dict [{"price": px, "size": qty, "ts": time.time()}]. *)
Record Trade := mkTrade { tr_price : float; tr_size : float; tr_ts : float }.

(** The dict [{"bid": bid, "ask": ask}]. *)
Record Top := mkTop { bid : float; ask : float }.

(** [min(a, b)] on two floats: [b] when [b < a], else [a]. *)
Definition fmin (a b : float) : float := if b <? a then b else a.

(** The conversion of the [int] [z] to a float, for [0 <= z < 2^63]. *)
Definition of_int (z : Z) : float := of_uint63 (Uint63.of_Z z).

(** The [__eq__] that [@dataclass] generates: the tuples of all fields are
    compared.  Floats are compared with [==]; the comparison of tuples also
    takes two fields that are one object as equal, which differs from [==]
    only on a NaN shared by two orders that agree on every other field. *)
Definition Order_eq (a b : Order) : bool :=
  String.eqb (id a) (id b) && Side_eqb (side a) (side b)
  && (price a =? price b) && (size a =? size b)
  && (filled a =? filled b) && Status_eqb (status a) (status b)
  && (ts a =? ts b).

(** *** The heap of [Order] objects *)

Definition dangling : Order :=
  mkOrder EmptyString BUY 0 0 0 st_cancelled 0.

Definition deref (h : list Order) (r : ref) : Order := default dangling (h !! r).

(** [o.filled += qty] *)
Definition add_filled (h : list Order) (r : ref) (qty : float) : list Order :=
  let o := deref h r in
  <[r := mkOrder (id o) (side o) (price o) (size o) (filled o + qty) (status o) (ts o)]> h.

(** [o.status = st] *)
Definition set_status (h : list Order) (r : ref) (st : Status) : list Order :=
  let o := deref h r in
  <[r := mkOrder (id o) (side o) (price o) (size o) (filled o) st (ts o)]> h.

(** *** [SimExchange] *)

Record SimExchange := mkSim {
  heap : list Order;
  buys : list ref;
  sells : list ref;
  trades : list Trade;
  now : nat
}.

Definition book (ex : SimExchange) (s : Side) : list ref :=
  match s with BUY => buys ex | SELL => sells ex end.

Definition set_book (ex : SimExchange) (s : Side) (q : list ref) : SimExchange :=
  match s with
  | BUY => mkSim (heap ex) q (sells ex) (trades ex) (now ex)
  | SELL => mkSim (heap ex) (buys ex) q (trades ex) (now ex)
  end.

Definition set_heap (ex : SimExchange) (h : list Order) : SimExchange :=
  mkSim h (buys ex) (sells ex) (trades ex) (now ex).

(** [SimExchange.__init__] *)
Definition SimExchange_init : SimExchange := mkSim [] [] [] [] 0.

(** [SimExchange.get_top] *)
Definition get_top (ex : SimExchange) (_symbol : string) : outcome (Top * SimExchange) :=
  let bid := match buys ex with
             | r :: _ => price (deref (heap ex) r)
             | [] => 49999.5
             end in
  let ask := match sells ex with
             | r :: _ => price (deref (heap ex) r)
             | [] => 50000.5
             end in
  Ok (mkTop bid ask, ex).

(** The comparison [_insert] picks for the side of the new order:
    [p1 > p2] for a buy, [p1 < p2] for a sell. *)
Definition cmp (s : Side) (p1 p2 : float) : bool :=
  match s with
  | BUY => p2 <? p1
  | SELL => p1 <? p2
  end.

(** The [while] loop of [_insert]. *)
Fixpoint insert_idx (h : list Order) (s : Side) (q : list ref) (p : float) : nat :=
  match q with
  | [] => 0%nat
  | r :: q' => if cmp s (price (deref h r)) p then S (insert_idx h s q' p) else 0%nat
  end.

(** [SimExchange._insert], on the reference of the new order. *)
Definition _insert (ex : SimExchange) (r : ref) : SimExchange :=
  let order := deref (heap ex) r in
  let q := book ex (side order) in
  let idx := insert_idx (heap ex) (side order) q (price order) in
  set_book ex (side order) (deque_insert q idx r).

(** [q.remove(value)] *)
Fixpoint deque_remove (h : list Order) (q : list ref) (r : ref) : outcome (list ref) :=
  match q with
  | [] => Raise (mkExn ValueError "deque.remove(x): x not in deque")
  | x :: q' =>
      if Nat.eqb x r || Order_eq (deref h x) (deref h r) then Ok q'
      else q'' ← deque_remove h q' r; Ok (x :: q'')
  end.

(** The inner loop of [cancel] with its test. *)
Definition find_open (h : list Order) (q : list ref) (order_id : string) : option ref :=
  List.find (fun r => String.eqb (id (deref h r)) order_id
                      && Status_eqb (status (deref h r)) st_open) q.

(** One round of the outer loop of [cancel], for the queue of side [s]. *)
Definition cancel_in (ex : SimExchange) (s : Side) (order_id : string)
  : option (outcome (unit * SimExchange)) :=
  match find_open (heap ex) (book ex s) order_id with
  | Some r =>
      let h' := set_status (heap ex) r st_cancelled in
      Some (q' ← deque_remove h' (book ex s) r;
            Ok (tt, set_book (set_heap ex h') s q'))
  | None => None
  end.

(** [SimExchange.cancel] *)
Definition cancel (ex : SimExchange) (order_id : string) : outcome (unit * SimExchange) :=
  match cancel_in ex BUY order_id with
  | Some res => res
  | None =>
      match cancel_in ex SELL order_id with
      | Some res => res
      | None => Ok (tt, ex)
      end
  end.

(** *** Specification vocabulary *)

(** [size - filled], as [_match] computes it. *)
Definition remaining (o : Order) : float := size o - filled o.

(** The fields that no statement of the program assigns after creation. *)
Definition same_static (o o' : Order) : Prop :=
  id o = id o' /\ side o = side o' /\ price o = price o' /\
  size o = size o' /\ ts o = ts o'.

(** Price priority on a side: [p1] is at least as good as [p2]. *)
Definition better_eq (s : Side) (p1 p2 : float) : Prop :=
  match s with
  | BUY => (p2 <=? p1) = true
  | SELL => (p1 <=? p2) = true
  end.

(** A queue entry strictly ahead of the price [p] on side [s]: the test
    that lets the scan of [_insert] go on. *)
Definition strictly_better (s : Side) (p0 p : float) : Prop :=
  match s with
  | BUY => (p <? p0) = true
  | SELL => (p0 <? p) = true
  end.

Definition prices (h : list Order) (q : list ref) : list float :=
  (fun r => price (deref h r)) <$> q.

(** A queue in price priority, best first. *)
Definition sorted (h : list Order) (s : Side) (q : list ref) : Prop :=
  StronglySorted (better_eq s) (prices h q).

Definition tagged (h : list Order) (s : Side) (q : list ref) : Prop :=
  Forall (fun r => (r < length h)%nat /\ side (deref h r) = s) q.

Definition all_open (h : list Order) (q : list ref) : Prop :=
  Forall (fun r => status (deref h r) = st_open) q.

Definition allocated (h : list Order) (q : list ref) : Prop :=
  Forall (fun r => (r < length h)%nat) q.

(** What holds of the queue of side [s] whatever the floats: its
    references are distinct and to allocated, open orders of that side. *)
Record queue_wf (h : list Order) (s : Side) (q : list ref) : Prop := mk_queue_wf {
  qw_tagged : tagged h s q;
  qw_nodup : NoDup q;
  qw_open : all_open h q
}.

Definition book_wf (ex : SimExchange) : Prop :=
  queue_wf (heap ex) BUY (buys ex) /\ queue_wf (heap ex) SELL (sells ex).

(** No order was created with a NaN price. *)
Definition number_prices (h : list Order) : Prop :=
  Forall (fun o => is_nan (price o) = false) h.

(** What holds of the book when no price is NaN: on top of [book_wf],
    both queues are in price priority. *)
Definition book_sorted (ex : SimExchange) : Prop :=
  book_wf ex /\ number_prices (heap ex) /\
  sorted (heap ex) BUY (buys ex) /\ sorted (heap ex) SELL (sells ex).

(** A cross: both queues are non-empty and the head BUY price is greater
    than or equal to the head SELL price. *)
Definition crossed (ex : SimExchange) : Prop :=
  match buys ex, sells ex with
  | rb :: _, rs :: _ => (price (deref (heap ex) rs) <=? price (deref (heap ex) rb)) = true
  | _, _ => False
  end.

(** The condition on which the loop of [_match] is left: a queue is empty,
    or the head BUY price is below the head SELL price. *)
Definition quiescent (ex : SimExchange) : Prop :=
  match buys ex, sells ex with
  | rb :: _, rs :: _ => (price (deref (heap ex) rb) <? price (deref (heap ex) rs)) = true
  | _, _ => True
  end.

(** The sum of [filled] over the orders and the sum of the sizes in the
    trade log, added in binary64 from the left, starting at 0. *)
Definition sum_filled (h : list Order) : float :=
  foldl (fun acc o => acc + filled o) 0 h.

Definition sum_trades (l : list Trade) : float :=
  foldl (fun acc t => acc + tr_size t) 0 l.

(** The test of [cancel] on the order behind [r]. *)
Definition open_with_id (h : list Order) (order_id : string) (r : ref) : Prop :=
  id (deref h r) = order_id /\ status (deref h r) = st_open.

Definition no_open_with_id (ex : SimExchange) (order_id : string) : Prop :=
  find_open (heap ex) (buys ex) order_id = None /\
  find_open (heap ex) (sells ex) order_id = None.

(** The ids of the orders of a queue, head first. *)
Definition ids (h : list Order) (q : list ref) : list string :=
  (fun r => id (deref h r)) <$> q.

(** A book without trades whose BUY orders are all priced under [B] and
    whose SELL orders are all priced [B]. *)
Definition layered (B : float) (ex : SimExchange) : Prop :=
  book_wf ex /\ trades ex = [] /\
  Forall (fun r => (price (deref (heap ex) r) <? B) = true) (buys ex) /\
  Forall (fun r => price (deref (heap ex) r) = B) (sells ex).

Section Clock.

(** [clock n] is what the [n]-th call of [time.time()] returns. *)
Variable clock : nat -> float.

(** [Order(id=cid, side=side, price=price, size=size)] *)
Definition new_Order (ex : SimExchange) (cid : string) (sd : Side) (p sz : float)
  : ref * SimExchange :=
  (length (heap ex),
   mkSim (heap ex ++ [mkOrder cid sd p sz 0 st_open (clock (now ex))])
         (buys ex) (sells ex) (trades ex) (S (now ex))).

(** The body of the [while] loop of [_match] from [qty = ...] on, for the
    heads [rb] and [rs] of the two queues. *)
Definition match_body (ex : SimExchange) (rb rs : ref) : SimExchange :=
  let h := heap ex in
  let qty := fmin (size (deref h rb) - filled (deref h rb))
                  (size (deref h rs) - filled (deref h rs)) in
  let px := (price (deref h rb) + price (deref h rs)) / 2 in
  let tr := trades ex ++ [mkTrade px qty (clock (now ex))] in
  let h1 := add_filled h rb qty in
  let h2 := add_filled h1 rs qty in
  let '(h3, bq) :=
    if size (deref h2 rb) <=? filled (deref h2 rb)
    then (set_status h2 rb st_filled, tail (buys ex))
    else (h2, buys ex) in
  let '(h4, sq) :=
    if size (deref h3 rs) <=? filled (deref h3 rs)
    then (set_status h3 rs st_filled, tail (sells ex))
    else (h3, sells ex) in
  mkSim h4 bq sq tr (S (now ex)).

(** One test of the loop of [_match]: [None] when the loop is left (a queue
    is empty, or [break]), else the state after the body. *)
Definition match_iter (ex : SimExchange) : option SimExchange :=
  match buys ex, sells ex with
  | rb :: _, rs :: _ =>
      if price (deref (heap ex) rb) <? price (deref (heap ex) rs)
      then None
      else Some (match_body ex rb rs)
  | _, _ => None
  end.

(** [SimExchange._match], with fuel. *)
Fixpoint _match (fuel : nat) (ex : SimExchange) : outcome SimExchange :=
  match match_iter ex with
  | None => Ok ex
  | Some ex' =>
      match fuel with
      | O => Diverge
      | S n => _match n ex'
      end
  end.

(** [SimExchange.place_limit] *)
Definition place_limit (fuel : nat) (ex : SimExchange)
    (symbol : string) (sd : Side) (p sz : float) (cid : string)
  : outcome (string * SimExchange) :=
  let '(order, ex1) := new_Order ex cid sd p sz in
  let ex2 := _insert ex1 order in
  ex3 ← _match fuel ex2;
  Ok (id (deref (heap ex3) order), ex3).

(** A call of the interface, and its run on the book. *)
Inductive Call :=
| CallPlace (symbol : string) (sd : Side) (p sz : float) (cid : string)
| CallCancel (order_id : string).

Definition run (fuel : nat) (ex : SimExchange) (c : Call) : outcome SimExchange :=
  match c with
  | CallPlace symbol sd p sz cid =>
      res ← place_limit fuel ex symbol sd p sz cid; Ok (snd res)
  | CallCancel order_id =>
      res ← cancel ex order_id; Ok (snd res)
  end.

(** A sequence of calls, each with fuel [fuel]. *)
Fixpoint run_calls (fuel : nat) (ex : SimExchange) (cs : list Call) : outcome SimExchange :=
  match cs with
  | [] => Ok ex
  | c :: cs' => ex' ← run fuel ex c; run_calls fuel ex' cs'
  end.

(** The calls allowed by a condition [P] on the price and size of the
    orders placed. *)
Definition call_ok (P : float -> float -> Prop) (c : Call) : Prop :=
  match c with
  | CallPlace _ _ p sz _ => P p sz
  | CallCancel _ => True
  end.

(** The states of the book between two calls, from the empty book, when
    every order placed satisfies [P]. *)
Inductive reachable_by (P : float -> float -> Prop) : SimExchange -> Prop :=
| reach_init : reachable_by P SimExchange_init
| reach_call ex c fuel ex' :
    reachable_by P ex -> call_ok P c -> run fuel ex c = Ok ex' ->
    reachable_by P ex'.

Definition any_order (p sz : float) : Prop := True.

(** The price is a number: any float but NaN. *)
Definition number_price (p sz : float) : Prop := is_nan p = false.

Definition reachable : SimExchange -> Prop := reachable_by any_order.


(** *** The spoofing cycle on a [SimExchange] *)

(** [asyncio.gather] on [ex.cancel(oid) for oid in spoof_ids], with [ex]
    bound to a [SimExchange]: [cancel] has no [await], so each task runs to
    its end before the next. *)
Fixpoint gather_cancel (ex : SimExchange) (ids : list string)
  : outcome (unit * SimExchange) :=
  match ids with
  | [] => Ok (tt, ex)
  | order_id :: rest => res ← cancel ex order_id; gather_cancel res.2 rest
  end.

Section Uuid.

(** [uuid4_hex n] is what the [n]-th call of [uuid.uuid4().hex] returns. *)
Variable uuid4_hex : nat -> string.

(** The [for i in range(layers)] loop of [spoof_cycle], with [n] rounds
    left from round [i]. *)
Fixpoint spoof_layers (fuel : nat) (symbol : string)
    (top_bid price_offset layer_size : float) (n i : nat)
    (st : SimExchange * nat) (spoof_ids : list string)
  : outcome (list string * (SimExchange * nat)) :=
  match n with
  | O => Ok (spoof_ids, st)
  | S n' =>
      let px := top_bid - price_offset * of_int (Z.of_nat i + 1) in
      let cid := ("sp_bid_" ++ substring 0 8 (uuid4_hex st.2))%string in
      res ← place_limit fuel st.1 symbol BUY px layer_size cid;
      spoof_layers fuel symbol top_bid price_offset layer_size n' (S i)
        (res.2, S st.2) (spoof_ids ++ [cid])
  end.

(** [spoof_cycle] with [ex] bound to a [SimExchange].  The two
    [asyncio.sleep] only pass time: [SimExchange] has no [await] of its own
    and no other task works on the book, so they are left out, for delays
    that [asyncio.sleep] takes and that come to an end. *)
Definition spoof_cycle (fuel : nat) (st : SimExchange * nat) (symbol : string)
    (layers : Z) (layer_size price_offset hold exec_delay : float)
  : outcome (unit * (SimExchange * nat)) :=
  top ← get_top st.1 symbol;
  let top_bid := bid top.1 in
  res ← spoof_layers fuel symbol top_bid price_offset layer_size
          (Z.to_nat layers) 0 (top.2, st.2) [];
  let spoof_ids := res.1 in
  let real_cid := ("real_" ++ substring 0 8 (uuid4_hex res.2.2))%string in
  placed ← place_limit fuel res.2.1 symbol SELL top_bid 0.01 real_cid;
  done ← gather_cancel placed.2 spoof_ids;
  Ok (tt, (done.2, S res.2.2)).

(** The loop of [run_strategy] in sim mode, for the [n] rounds that find
    the flag unset; an exception of the cycle goes to the log [errors]. *)
Fixpoint run_strategy_loop (n fuel : nat) (st : SimExchange * nat) (symbol : string)
    (layers : Z) (layer_size price_offset hold exec_delay : float) (errors : list Exn)
  : outcome (list Exn * (SimExchange * nat)) :=
  match n with
  | O => Ok (errors, st)
  | S n' =>
      match spoof_cycle fuel st symbol layers layer_size price_offset hold exec_delay with
      | Ok res =>
          run_strategy_loop n' fuel res.2 symbol layers layer_size price_offset
            hold exec_delay errors
      | Raise e =>
          run_strategy_loop n' fuel st symbol layers layer_size price_offset
            hold exec_delay (errors ++ [e])
      | Diverge => Diverge
      end
  end.

End Uuid.

End Clock.

End F64.

Section Clock.

(** [clock n] is what the [n]-th call of [time.time()] returns. *)
Variable clock : nat -> Q.

(** [Order(id=cid, side=side, price=price, size=size)]: a new object, with
    [filled], [status] and [ts] from their defaults. *)
Definition new_Order (ex : SimExchange) (cid : string) (sd : Side) (p sz : Q)
  : ref * SimExchange :=
  (length (heap ex),
   mkSim (heap ex ++ [mkOrder cid sd p sz 0 st_open (clock (now ex))])
         (buys ex) (sells ex) (trades ex) (S (now ex))).

(** The body of the [while] loop of [_match] from [qty = ...] on, for the
    heads [rb] and [rs] of the two queues. *)
Definition match_body (ex : SimExchange) (rb rs : ref) : SimExchange :=
  let h := heap ex in
  let qty := Qmin (size (deref h rb) - filled (deref h rb))
                  (size (deref h rs) - filled (deref h rs)) in
  let px := (price (deref h rb) + price (deref h rs)) / 2 in
  let tr := trades ex ++ [mkTrade px qty (clock (now ex))] in
  let h1 := add_filled h rb qty in
  let h2 := add_filled h1 rs qty in
  let '(h3, bq) :=
    if Qle_bool (size (deref h2 rb)) (filled (deref h2 rb))
    then (set_status h2 rb st_filled, tail (buys ex))
    else (h2, buys ex) in
  let '(h4, sq) :=
    if Qle_bool (size (deref h3 rs)) (filled (deref h3 rs))
    then (set_status h3 rs st_filled, tail (sells ex))
    else (h3, sells ex) in
  mkSim h4 bq sq tr (S (now ex)).

(** One test of the loop of [_match]: [None] when the loop is left (a queue
    is empty, or [break]), else the state after the body. *)
Definition match_iter (ex : SimExchange) : option SimExchange :=
  match buys ex, sells ex with
  | rb :: _, rs :: _ =>
      if Qlt_bool (price (deref (heap ex) rb)) (price (deref (heap ex) rs))
      then None
      else Some (match_body ex rb rs)
  | _, _ => None
  end.

(** [SimExchange._match] *)
Fixpoint _match (fuel : nat) (ex : SimExchange) : outcome SimExchange :=
  match match_iter ex with
  | None => Ok ex
  | Some ex' =>
      match fuel with
      | O => Diverge
      | S n => _match n ex'
      end
  end.

(** [SimExchange.place_limit] *)
Definition place_limit (fuel : nat) (ex : SimExchange)
    (symbol : string) (sd : Side) (p sz : Q) (cid : string)
  : outcome (string * SimExchange) :=
  let '(order, ex1) := new_Order ex cid sd p sz in
  let ex2 := _insert ex1 order in
  ex3 ← _match fuel ex2;
  Ok (id (deref (heap ex3) order), ex3).

(** A call of the interface, and its run on the book. *)
Inductive Call :=
| CallPlace (symbol : string) (sd : Side) (p sz : Q) (cid : string)
| CallCancel (order_id : string).

Definition run (fuel : nat) (ex : SimExchange) (c : Call) : outcome SimExchange :=
  match c with
  | CallPlace symbol sd p sz cid =>
      res ← place_limit fuel ex symbol sd p sz cid; Ok (snd res)
  | CallCancel order_id =>
      res ← cancel ex order_id; Ok (snd res)
  end.

(** ** Specification vocabulary *)

(** The calls allowed by a condition [P] on the price and size of the
    orders placed. *)
Definition call_ok (P : Q -> Q -> Prop) (c : Call) : Prop :=
  match c with
  | CallPlace _ _ p sz _ => P p sz
  | CallCancel _ => True
  end.

(** The states of the book between two calls, from the empty book, when
    every order placed satisfies [P]. *)
Inductive reachable_by (P : Q -> Q -> Prop) : SimExchange -> Prop :=
| reach_init : reachable_by P SimExchange_init
| reach_call ex c fuel ex' :
    reachable_by P ex -> call_ok P c -> run fuel ex c = Ok ex' ->
    reachable_by P ex'.

Definition any_order (p sz : Q) : Prop := True.

Definition reachable : SimExchange -> Prop := reachable_by any_order.

(** ** Spoofing scenario *)

(** The methods of the object bound to [ex], by dynamic dispatch. *)
Definition Exchange_get_top (ex : Exchange) (symbol : string)
  : outcome (Top * Exchange) :=
  match ex with
  | ExSim e => res ← get_top e symbol; Ok (res.1, ExSim res.2)
  | ExLive e => t ← Live.get_top e symbol; Ok (t, ExLive e)
  end.

Definition Exchange_place_limit (fuel : nat) (ex : Exchange)
    (symbol : string) (sd : Side) (p sz : Q) (cid : string)
  : outcome (string * Exchange) :=
  match ex with
  | ExSim e => res ← place_limit fuel e symbol sd p sz cid; Ok (res.1, ExSim res.2)
  | ExLive e => oid ← Live.place_limit e symbol sd p sz cid; Ok (oid, ExLive e)
  end.

Definition Exchange_cancel (ex : Exchange) (order_id : string)
  : outcome (unit * Exchange) :=
  match ex with
  | ExSim e => res ← cancel e order_id; Ok (tt, ExSim res.2)
  | ExLive e => x ← Live.cancel e order_id; Ok (tt, ExLive e)
  end.

(** [asyncio.gather] on [ex.cancel(oid) for oid in spoof_ids]: the tasks are
    started in the order of the ids and [cancel] has no [await], so each
    runs to its end before the next.  The first exception is the result of
    [gather]; only [LiveExchange.cancel] raises, and it has no state. *)
Fixpoint gather_cancel (ex : Exchange) (ids : list string) : outcome (unit * Exchange) :=
  match ids with
  | [] => Ok (tt, ex)
  | order_id :: rest => res ← Exchange_cancel ex order_id; gather_cancel res.2 rest
  end.

Section Uuid.

(** [uuid4_hex n] is what the [n]-th call of [uuid.uuid4().hex] returns. *)
Variable uuid4_hex : nat -> string.

(** The [for i in range(layers)] loop of [spoof_cycle], with [n] rounds
    left from round [i]; the state is the exchange and the number of
    [uuid4] calls made so far. *)
Fixpoint spoof_layers (fuel : nat) (symbol : string)
    (top_bid price_offset layer_size : Q) (n i : nat)
    (st : Exchange * nat) (spoof_ids : list string)
  : outcome (list string * (Exchange * nat)) :=
  match n with
  | O => Ok (spoof_ids, st)
  | S n' =>
      let px := top_bid - price_offset * inject_Z (Z.of_nat i + 1) in
      let cid := ("sp_bid_" ++ substring 0 8 (uuid4_hex st.2))%string in
      res ← Exchange_place_limit fuel st.1 symbol BUY px layer_size cid;
      spoof_layers fuel symbol top_bid price_offset layer_size n' (S i)
        (res.2, S st.2) (spoof_ids ++ [cid])
  end.

(** [spoof_cycle]; the log calls are left out, and the two
    [asyncio.sleep] only pass time: nothing else works on the exchange. *)
Definition spoof_cycle (fuel : nat) (st : Exchange * nat) (symbol : string)
    (layers : Z) (layer_size price_offset hold exec_delay : Q)
  : outcome (unit * (Exchange * nat)) :=
  top ← Exchange_get_top st.1 symbol;
  let top_bid := bid top.1 in
  res ← spoof_layers fuel symbol top_bid price_offset layer_size
          (Z.to_nat layers) 0 (top.2, st.2) [];
  let spoof_ids := res.1 in
  let real_cid := ("real_" ++ substring 0 8 (uuid4_hex res.2.2))%string in
  placed ← Exchange_place_limit fuel res.2.1 symbol SELL top_bid (1 # 100) real_cid;
  done ← gather_cancel placed.2 spoof_ids;
  Ok (tt, (done.2, S res.2.2)).

(** The [while not cancel_flag.is_set()] loop of [run_strategy], for the
    [n] rounds that find the flag unset.  [except Exception] takes every
    exception of the cycle, which goes to the log, here the list [errors].
    A cycle raises only in [LiveExchange.get_top], its first call, so the
    next round starts from the state before the cycle. *)
Fixpoint run_strategy_loop (n fuel : nat) (st : Exchange * nat) (symbol : string)
    (layers : Z) (layer_size price_offset hold exec_delay : Q) (errors : list Exn)
  : outcome (list Exn * (Exchange * nat)) :=
  match n with
  | O => Ok (errors, st)
  | S n' =>
      match spoof_cycle fuel st symbol layers layer_size price_offset hold exec_delay with
      | Ok res =>
          run_strategy_loop n' fuel res.2 symbol layers layer_size price_offset
            hold exec_delay errors
      | Raise e =>
          run_strategy_loop n' fuel st symbol layers layer_size price_offset
            hold exec_delay (errors ++ [e])
      | Diverge => Diverge
      end
  end.

End Uuid.

(** ** The heap *)

Lemma deref_lookup (h : list Order) r o : h !! r = Some o -> deref h r = o.
Proof. unfold deref. by intros ->. Qed.


Lemma deref_insert_eq (h : list Order) r o :
  (r < length h)%nat -> deref (<[r:=o]> h) r = o.
Proof. intros Hr. apply deref_lookup. by apply list_lookup_insert_eq. Qed.

Lemma deref_insert_ne (h : list Order) r r' o :
  r <> r' -> deref (<[r:=o]> h) r' = deref h r'.
Proof. intros Hne. unfold deref. by rewrite list_lookup_insert_ne. Qed.

Lemma deref_insert_ge (h : list Order) r r' o :
  (length h <= r)%nat -> deref (<[r:=o]> h) r' = deref h r'.
Proof. intros Hr. by rewrite list_insert_ge. Qed.

Lemma deref_app_l (h : list Order) o r :
  (r < length h)%nat -> deref (h ++ [o]) r = deref h r.
Proof. intros Hr. unfold deref. by rewrite lookup_app_l. Qed.

Lemma deref_app_new (h : list Order) o : deref (h ++ [o]) (length h) = o.
Proof. apply deref_lookup. by rewrite list_lookup_middle. Qed.

Lemma length_add_filled h r x : length (add_filled h r x) = length h.
Proof. apply length_insert. Qed.

Lemma length_set_status h r st : length (set_status h r st) = length h.
Proof. apply length_insert. Qed.

Lemma deref_add_filled_eq h r x :
  (r < length h)%nat ->
  deref (add_filled h r x) r =
  mkOrder (id (deref h r)) (side (deref h r)) (price (deref h r))
          (size (deref h r)) (filled (deref h r) + x) (status (deref h r))
          (ts (deref h r)).
Proof. intros Hr. unfold add_filled. by rewrite deref_insert_eq. Qed.

Lemma deref_add_filled_ne h r r' x :
  r <> r' -> deref (add_filled h r x) r' = deref h r'.
Proof. apply deref_insert_ne. Qed.

Lemma deref_set_status_eq h r st :
  (r < length h)%nat ->
  deref (set_status h r st) r =
  mkOrder (id (deref h r)) (side (deref h r)) (price (deref h r))
          (size (deref h r)) (filled (deref h r)) st (ts (deref h r)).
Proof. intros Hr. unfold set_status. by rewrite deref_insert_eq. Qed.

Lemma deref_set_status_ne h r r' st :
  r <> r' -> deref (set_status h r st) r' = deref h r'.
Proof. apply deref_insert_ne. Qed.

Lemma add_filled_static h r x r' :
  same_static (deref h r') (deref (add_filled h r x) r').
Proof.
  destruct (decide (r = r')) as [<-|Hne].
  - destruct (decide (r < length h)%nat) as [Hr|Hr].
    + by rewrite deref_add_filled_eq.
    + unfold add_filled. rewrite deref_insert_ge; [done | lia].
  - by rewrite deref_add_filled_ne.
Qed.

Lemma set_status_static h r st r' :
  same_static (deref h r') (deref (set_status h r st) r').
Proof.
  destruct (decide (r = r')) as [<-|Hne].
  - destruct (decide (r < length h)%nat) as [Hr|Hr].
    + by rewrite deref_set_status_eq.
    + unfold set_status. rewrite deref_insert_ge; [done | lia].
  - by rewrite deref_set_status_ne.
Qed.

(** ** One iteration of the matching loop *)

(** The quantity traded by the iteration on the heads [rb] and [rs]. *)
Lemma match_body_spec ex rb rs :
  rb <> rs -> (rb < length (heap ex))%nat -> (rs < length (heap ex))%nat ->
  let ob := deref (heap ex) rb in
  let os := deref (heap ex) rs in
  let qty := Qmin (remaining ob) (remaining os) in
  let fb := Qle_bool (size ob) (filled ob + qty) in
  let fs := Qle_bool (size os) (filled os + qty) in
  let ex' := match_body ex rb rs in
  length (heap ex') = length (heap ex) /\
  deref (heap ex') rb =
    mkOrder (id ob) (side ob) (price ob) (size ob) (filled ob + qty)
            (if fb then st_filled else status ob) (ts ob) /\
  deref (heap ex') rs =
    mkOrder (id os) (side os) (price os) (size os) (filled os + qty)
            (if fs then st_filled else status os) (ts os) /\
  (forall r, r <> rb -> r <> rs -> deref (heap ex') r = deref (heap ex) r) /\
  buys ex' = (if fb then tail (buys ex) else buys ex) /\
  sells ex' = (if fs then tail (sells ex) else sells ex) /\
  trades ex' =
    trades ex ++ [mkTrade ((price ob + price os) / 2) qty (clock (now ex))] /\
  now ex' = S (now ex).
Proof.
  intros Hne Hb Hs ob os qty fb fs ex'.
  subst ex'. unfold match_body.
  fold ob os. change (size ob - filled ob) with (remaining ob).
  change (size os - filled os) with (remaining os). fold qty.
  set (h1 := add_filled (heap ex) rb qty).
  set (h2 := add_filled h1 rs qty).
  assert (Hb2 : deref h2 rb =
    mkOrder (id ob) (side ob) (price ob) (size ob) (filled ob + qty)
            (status ob) (ts ob)).
  { subst h2 h1. rewrite deref_add_filled_ne by done.
    by rewrite deref_add_filled_eq. }
  assert (Hs2 : deref h2 rs =
    mkOrder (id os) (side os) (price os) (size os) (filled os + qty)
            (status os) (ts os)).
  { subst h2. rewrite deref_add_filled_eq by (subst h1; by rewrite length_add_filled).
    subst h1. by rewrite !deref_add_filled_ne by done. }
  assert (Hl2 : length h2 = length (heap ex)).
  { subst h2 h1. by rewrite !length_add_filled. }
  assert (Ho2 : forall r, r <> rb -> r <> rs -> deref h2 r = deref (heap ex) r).
  { intros r ? ?. subst h2 h1. by rewrite !deref_add_filled_ne by done. }
  rewrite Hb2. cbn [size filled]. fold fb.
  destruct fb.
  - rewrite deref_set_status_ne by done. rewrite Hs2. cbn [size filled]. fold fs.
    destruct fs; cbn [heap buys sells trades now].
    + rewrite !length_set_status, Hl2.
      rewrite deref_set_status_ne by done.
      rewrite deref_set_status_eq by lia. rewrite Hb2. cbn.
      rewrite deref_set_status_eq by (rewrite length_set_status; lia).
      rewrite deref_set_status_ne by done. rewrite Hs2. cbn.
      repeat split; try done.
      intros r ? ?. rewrite !deref_set_status_ne by done. by apply Ho2.
    + rewrite !length_set_status, Hl2.
      rewrite deref_set_status_eq by lia. rewrite Hb2. cbn.
      rewrite deref_set_status_ne by done. rewrite Hs2.
      repeat split; try done.
      intros r ? ?. rewrite !deref_set_status_ne by done. by apply Ho2.
  - rewrite Hs2. cbn [size filled]. fold fs.
    destruct fs; cbn [heap buys sells trades now].
    + rewrite !length_set_status, Hl2.
      rewrite deref_set_status_ne by done. rewrite Hb2.
      rewrite deref_set_status_eq by lia. rewrite Hs2. cbn.
      repeat split; try done.
      intros r ? ?. rewrite !deref_set_status_ne by done. by apply Ho2.
    + rewrite Hl2, Hb2, Hs2. repeat split; try done.
Qed.

Lemma same_static_trans o1 o2 o3 :
  same_static o1 o2 -> same_static o2 o3 -> same_static o1 o3.
Proof. unfold same_static. intros (?&?&?&?&?) (?&?&?&?&?). repeat split; congruence. Qed.

Lemma match_body_static ex rb rs r :
  same_static (deref (heap ex) r) (deref (heap (match_body ex rb rs)) r).
Proof.
  unfold match_body.
  repeat match goal with
  | |- context [if ?c then _ else _] => destruct c
  end; cbn [heap];
  repeat first
    [ apply add_filled_static
    | apply set_status_static
    | eapply same_static_trans; [| apply set_status_static]
    | eapply same_static_trans; [| apply add_filled_static] ].
Qed.

Lemma match_body_length ex rb rs :
  length (heap (match_body ex rb rs)) = length (heap ex).
Proof.
  unfold match_body.
  repeat match goal with
  | |- context [if ?c then _ else _] => destruct c
  end; cbn [heap];
  by rewrite ?length_set_status, ?length_add_filled.
Qed.

Lemma match_body_buys ex rb rs :
  buys (match_body ex rb rs) = buys ex \/ buys (match_body ex rb rs) = tail (buys ex).
Proof.
  unfold match_body.
  repeat match goal with
  | |- context [if ?c then _ else _] => destruct c
  end; cbn [buys]; auto.
Qed.

Lemma match_body_sells ex rb rs :
  sells (match_body ex rb rs) = sells ex \/ sells (match_body ex rb rs) = tail (sells ex).
Proof.
  unfold match_body.
  repeat match goal with
  | |- context [if ?c then _ else _] => destruct c
  end; cbn [sells]; auto.
Qed.

Lemma elem_of_tail (q : list ref) r : r ∈ tail q -> r ∈ q.
Proof. destruct q; [done|]. cbn. by right. Qed.

Lemma heads_distinct ex rb rs bq sq :
  refs_wf ex -> buys ex = rb :: bq -> sells ex = rs :: sq ->
  rb <> rs /\ (rb < length (heap ex))%nat /\ (rs < length (heap ex))%nat.
Proof.
  intros (Hb & Hs & Hd) Eb Es. rewrite Eb in Hb, Hd. rewrite Es in Hs, Hd.
  apply Forall_cons in Hb as [Hb _]. apply Forall_cons in Hs as [Hs _].
  repeat split; try done. intros ->. apply (Hd rs); by left.
Qed.

(** ** The matching loop *)

Lemma match_iter_Some ex ex' :
  match_iter ex = Some ex' ->
  exists rb rs bq sq,
    buys ex = rb :: bq /\ sells ex = rs :: sq /\
    price (deref (heap ex) rs) <= price (deref (heap ex) rb) /\
    ex' = match_body ex rb rs.
Proof.
  unfold match_iter. destruct (buys ex) as [|rb bq]; [done|].
  destruct (sells ex) as [|rs sq]; [done|].
  unfold Qlt_bool.
  destruct (Qle_bool (price (deref (heap ex) rs)) (price (deref (heap ex) rb))) eqn:E;
    [|done].
  intros [= <-]. exists rb, rs, bq, sq. apply Qle_bool_iff in E. done.
Qed.

Lemma match_iter_None ex : match_iter ex = None <-> ~ crossed ex.
Proof.
  unfold match_iter, crossed. destruct (buys ex) as [|rb bq]; [tauto|].
  destruct (sells ex) as [|rs sq]; [tauto|].
  unfold Qlt_bool.
  destruct (Qle_bool (price (deref (heap ex) rs)) (price (deref (heap ex) rb))) eqn:E.
  - apply Qle_bool_iff in E. cbn. split; [done | tauto].
  - cbn. split; [|done]. intros _ H. apply Qle_bool_iff in H. congruence.
Qed.

(** Whatever one iteration on a cross preserves, the loop preserves. *)
Lemma _match_preserves (I : SimExchange -> Prop) :
  (forall ex rb rs bq sq,
     I ex -> buys ex = rb :: bq -> sells ex = rs :: sq ->
     price (deref (heap ex) rs) <= price (deref (heap ex) rb) ->
     I (match_body ex rb rs)) ->
  forall fuel ex ex', I ex -> _match fuel ex = Ok ex' -> I ex'.
Proof.
  intros Hstep fuel. induction fuel as [|n IH]; intros ex ex' HI; cbn.
  - destruct (match_iter ex) eqn:E; [done|]. by intros [= <-].
  - destruct (match_iter ex) as [ex1|] eqn:E; [|by intros [= <-]].
    apply match_iter_Some in E as (rb & rs & bq & sq & Eb & Es & Hc & ->).
    apply IH. by eapply Hstep.
Qed.

(** The loop is left only on a book without a cross. *)
Lemma _match_quiescent fuel ex ex' : _match fuel ex = Ok ex' -> ~ crossed ex'.
Proof.
  revert ex. induction fuel as [|n IH]; intros ex; cbn.
  - destruct (match_iter ex) eqn:E; [done|]. intros [= <-]. by apply match_iter_None.
  - destruct (match_iter ex) as [ex1|] eqn:E; [apply IH|].
    intros [= <-]. by apply match_iter_None.
Qed.

(** ** Price priority *)

Lemma better_eq_trans s p1 p2 p3 :
  better_eq s p1 p2 -> better_eq s p2 p3 -> better_eq s p1 p3.
Proof. destruct s; cbn; intros; lra. Qed.

Lemma cmp_true s p0 p : cmp s p0 p = true -> better_eq s p0 p.
Proof.
  destruct s; cbn; unfold Qlt_bool; intros H; apply negb_true_iff in H.
  - destruct (Qlt_le_dec p p0) as [Hl|Hl]; [lra|]. apply Qle_bool_iff in Hl. congruence.
  - destruct (Qlt_le_dec p0 p) as [Hl|Hl]; [lra|]. apply Qle_bool_iff in Hl. congruence.
Qed.

Lemma cmp_false s p0 p : cmp s p0 p = false -> better_eq s p p0.
Proof.
  destruct s; cbn; unfold Qlt_bool; intros H; apply negb_false_iff in H;
    by apply Qle_bool_iff in H.
Qed.

Lemma prices_static h h' q :
  (forall r, r ∈ q -> same_static (deref h r) (deref h' r)) ->
  prices h' q = prices h q.
Proof.
  intros Hst. unfold prices. apply list_fmap_ext. intros i r Hi.
  destruct (Hst r) as (_ & _ & Hp & _); [by eapply list_elem_of_lookup_2|done].
Qed.

Lemma sorted_static h h' s q :
  (forall r, r ∈ q -> same_static (deref h r) (deref h' r)) ->
  sorted h s q -> sorted h' s q.
Proof. intros Hst. unfold sorted. by rewrite (prices_static h h'). Qed.

(** Dropping one element keeps a queue in price priority. *)
Lemma sorted_delete h s l1 r l2 : sorted h s (l1 ++ r :: l2) -> sorted h s (l1 ++ l2).
Proof.
  unfold sorted, prices. rewrite !fmap_app, fmap_cons, !StronglySorted_app.
  intros (H12 & H1 & H2). apply StronglySorted_cons in H2 as [_ H2].
  repeat split; try done. intros x1 x2 Hx1 Hx2. apply H12; [done|]. by right.
Qed.

(** The index found by the scan of [_insert] keeps the queue in price
    priority. *)
Lemma sorted_insert h s q p :
  StronglySorted (better_eq s) (prices h q) ->
  StronglySorted (better_eq s)
    (prices h (take (insert_idx h s q p) q) ++ p :: prices h (drop (insert_idx h s q p) q)).
Proof.
  induction q as [|r0 q IH]; cbn.
  - intros _. repeat constructor.
  - intros [Hr0 Hq]%StronglySorted_cons.
    destruct (cmp s (price (deref h r0)) p) eqn:E; cbn.
    + apply StronglySorted_cons. split; [|by apply IH].
      apply Forall_app. split; [|apply Forall_cons; split].
      * unfold prices. rewrite fmap_take. by apply Forall_take.
      * by apply cmp_true.
      * unfold prices. rewrite fmap_drop. by apply Forall_drop.
    + apply cmp_false in E.
      apply StronglySorted_cons. split.
      * apply Forall_cons. split; [done|].
        eapply Forall_impl; [exact Hr0|]. intros x Hx. cbn in Hx.
        by eapply better_eq_trans.
      * apply StronglySorted_cons. by split.
Qed.

(** The head of a queue in price priority has the best price of it. *)
Lemma sorted_head_best h s r q r' :
  sorted h s (r :: q) -> r' ∈ r :: q ->
  better_eq s (price (deref h r)) (price (deref h r')).
Proof.
  unfold sorted. cbn. intros [Hr _]%StronglySorted_cons Hin.
  apply elem_of_cons in Hin as [-> | Hin].
  - destruct s; cbn; apply Qle_refl.
  - rewrite Forall_forall in Hr. apply Hr. unfold prices.
    apply list_elem_of_fmap. by exists r'.
Qed.

(** ** Well-formed queues *)

Lemma tagged_lt h s q r : tagged h s q -> r ∈ q -> (r < length h)%nat.
Proof. intros H Hr. by destruct (proj1 (Forall_forall _ _) H r Hr). Qed.

Lemma tagged_side h s q r : tagged h s q -> r ∈ q -> side (deref h r) = s.
Proof. intros H Hr. by destruct (proj1 (Forall_forall _ _) H r Hr). Qed.

Lemma tagged_allocated h s q : tagged h s q -> allocated h q.
Proof. intros H. eapply Forall_impl; [exact H|]. by intros r [? _]. Qed.

Lemma book_wf_refs ex : book_wf ex -> refs_wf ex.
Proof.
  intros [[Hb _ _ _] [Hs _ _ _]]. split; [|split].
  - by eapply tagged_allocated.
  - by eapply tagged_allocated.
  - intros r H1 H2. pose proof (tagged_side _ _ _ _ Hb H1).
    pose proof (tagged_side _ _ _ _ Hs H2). congruence.
Qed.

Lemma book_wf_init : book_wf SimExchange_init.
Proof. split; split; cbn; constructor. Qed.

(** A change of the heap that keeps the created fields and leaves the
    orders of the queue open keeps the queue well-formed. *)
Lemma queue_wf_static h h' s q :
  (length h <= length h')%nat ->
  (forall r, r ∈ q -> same_static (deref h r) (deref h' r)) ->
  (forall r, r ∈ q -> status (deref h' r) = st_open) ->
  queue_wf h s q -> queue_wf h' s q.
Proof.
  intros Hl Hst Hop [Ht Hn Ho Hs]. split.
  - apply Forall_forall. intros r Hr. destruct (Hst r Hr) as (_ & Hside & _).
    split; [pose proof (tagged_lt _ _ _ _ Ht Hr); lia|].
    rewrite <- Hside. by eapply tagged_side.
  - done.
  - apply Forall_forall. auto.
  - by apply (sorted_static h).
Qed.

Lemma queue_wf_delete h s l1 r l2 :
  queue_wf h s (l1 ++ r :: l2) -> queue_wf h s (l1 ++ l2) /\ r ∉ l1 ++ l2.
Proof.
  clear clock.
  intros [Ht Hn Ho Hs].
  unfold tagged, all_open in Ht, Ho |- *.
  rewrite Forall_app, Forall_cons in Ht, Ho.
  apply NoDup_app in Hn as (Hn1 & Hn12 & Hn2).
  apply NoDup_cons in Hn2 as [Hr2 Hn2].
  split; [split|].
  - apply Forall_app. tauto.
  - apply NoDup_app. repeat split; try done.
    intros x Hx1 Hx2. apply (Hn12 x Hx1). by right.
  - apply Forall_app. tauto.
  - by eapply sorted_delete.
  - intros [H1|H2]%elem_of_app; [|done]. apply (Hn12 r H1). by left.
Qed.

Lemma queue_wf_tail h s r q : queue_wf h s (r :: q) -> queue_wf h s q /\ r ∉ q.
Proof. apply (queue_wf_delete h s [] r q). Qed.

(** Allocating an order leaves a queue well-formed. *)
Lemma queue_wf_alloc h o s q : queue_wf h s q -> queue_wf (h ++ [o]) s q.
Proof.
  intros Hq. pose proof (qw_tagged _ _ _ Hq) as Ht.
  apply (queue_wf_static h); [rewrite length_app; lia | | | done].
  - intros r Hr. rewrite deref_app_l by (by eapply tagged_lt). done.
  - intros r Hr. rewrite deref_app_l by (by eapply tagged_lt).
    by apply (proj1 (Forall_forall _ _) (qw_open _ _ _ Hq)).
Qed.

(** [_insert] of a new open order keeps its queue well-formed. *)
Lemma queue_wf_insert h o q :
  queue_wf h (side o) q -> status o = st_open ->
  queue_wf (h ++ [o]) (side o)
    (deque_insert q (insert_idx (h ++ [o]) (side o) q (price o)) (length h)).
Proof.
  intros Hq Hop.
  assert (Hfresh : length h ∉ q).
  { intros Hin. pose proof (tagged_lt _ _ _ _ (qw_tagged _ _ _ Hq) Hin). lia. }
  apply (queue_wf_alloc h o) in Hq. destruct Hq as [Ht Hn Ho Hs].
  set (h' := h ++ [o]) in *. set (idx := insert_idx h' (side o) q (price o)).
  assert (Hnew : deref h' (length h) = o) by apply deref_app_new.
  unfold deque_insert. split.
  - apply Forall_app. split; [by apply Forall_take|].
    apply Forall_cons. split; [|by apply Forall_drop].
    rewrite Hnew. split; [|done]. subst h'. rewrite length_app. cbn. lia.
  - rewrite <- Permutation_middle, take_drop. by apply NoDup_cons.
  - apply Forall_app. split; [by apply Forall_take|].
    apply Forall_cons. split; [|by apply Forall_drop]. by rewrite Hnew.
  - unfold sorted, prices. rewrite fmap_app, fmap_cons, Hnew.
    by apply sorted_insert.
Qed.

(** ** Placing: allocation and [_insert] *)

Lemma insert_new_eq ex cid sd p sz :
  let o := mkOrder cid sd p sz 0 st_open (clock (now ex)) in
  let h' := heap ex ++ [o] in
  _insert (new_Order ex cid sd p sz).2 (new_Order ex cid sd p sz).1 =
  set_book (mkSim h' (buys ex) (sells ex) (trades ex) (S (now ex))) sd
    (deque_insert (book ex sd) (insert_idx h' sd (book ex sd) p) (length (heap ex))).
Proof.
  intros o h'. unfold new_Order, _insert. cbn [fst snd heap].
  fold o. fold h'. subst h'. rewrite deref_app_new. by destruct sd.
Qed.

Lemma insert_new_book_wf ex cid sd p sz :
  book_wf ex ->
  book_wf (_insert (new_Order ex cid sd p sz).2 (new_Order ex cid sd p sz).1).
Proof.
  intros [Hb Hs]. rewrite insert_new_eq.
  set (o := mkOrder cid sd p sz 0 st_open (clock (now ex))).
  destruct sd; split; cbn [set_book heap buys sells book].
  - by apply (queue_wf_insert (heap ex) o (buys ex)).
  - by apply queue_wf_alloc.
  - by apply queue_wf_alloc.
  - by apply (queue_wf_insert (heap ex) o (sells ex)).
Qed.

(** ** One iteration keeps the book well-formed *)

Lemma match_body_book_wf ex rb rs bq sq :
  book_wf ex -> buys ex = rb :: bq -> sells ex = rs :: sq ->
  book_wf (match_body ex rb rs).
Proof.
  intros Hwf Eb Es.
  destruct (heads_distinct _ _ _ _ _ (book_wf_refs _ Hwf) Eb Es) as (Hne & Hb & Hs).
  destruct (match_body_spec ex rb rs Hne Hb Hs)
    as (Hlen & Hdb & Hds & Hoth & Hbq & Hsq & _).
  destruct Hwf as [Wb Ws].
  assert (Hrs_b : rs ∉ buys ex).
  { intros Hin. pose proof (tagged_side _ _ _ _ (qw_tagged _ _ _ Wb) Hin) as H1.
    assert (Hin' : rs ∈ sells ex) by (rewrite Es; by left).
    pose proof (tagged_side _ _ _ _ (qw_tagged _ _ _ Ws) Hin'). congruence. }
  assert (Hrb_s : rb ∉ sells ex).
  { intros Hin. pose proof (tagged_side _ _ _ _ (qw_tagged _ _ _ Ws) Hin) as H1.
    assert (Hin' : rb ∈ buys ex) by (rewrite Eb; by left).
    pose proof (tagged_side _ _ _ _ (qw_tagged _ _ _ Wb) Hin'). congruence. }
  assert (Hob : status (deref (heap ex) rb) = st_open).
  { apply (proj1 (Forall_forall _ _) (qw_open _ _ _ Wb)). rewrite Eb. by left. }
  assert (Hos : status (deref (heap ex) rs) = st_open).
  { apply (proj1 (Forall_forall _ _) (qw_open _ _ _ Ws)). rewrite Es. by left. }
  split.
  - rewrite Hbq.
    destruct (Qle_bool _ _) eqn:Efb.
    + rewrite Eb in Wb |- *. cbn [tail].
      apply queue_wf_tail in Wb as [Wb Hnin].
      apply (queue_wf_static (heap ex)); [lia | | | done].
      * intros r _. apply match_body_static.
      * intros r Hr. rewrite Hoth.
        -- by apply (proj1 (Forall_forall _ _) (qw_open _ _ _ Wb)).
        -- intros ->. done.
        -- intros ->. apply Hrs_b. rewrite Eb. by right.
    + apply (queue_wf_static (heap ex)); [lia | | | done].
      * intros r _. apply match_body_static.
      * intros r Hr. destruct (decide (r = rb)) as [->|Hrb].
        -- by rewrite Hdb.
        -- rewrite Hoth; [|done|by intros ->].
           by apply (proj1 (Forall_forall _ _) (qw_open _ _ _ Wb)).
  - rewrite Hsq.
    destruct (Qle_bool (size (deref (heap ex) rs)) _) eqn:Efs.
    + rewrite Es in Ws |- *. cbn [tail].
      apply queue_wf_tail in Ws as [Ws Hnin].
      apply (queue_wf_static (heap ex)); [lia | | | done].
      * intros r _. apply match_body_static.
      * intros r Hr. rewrite Hoth.
        -- by apply (proj1 (Forall_forall _ _) (qw_open _ _ _ Ws)).
        -- intros ->. apply Hrb_s. rewrite Es. by right.
        -- intros ->. done.
    + apply (queue_wf_static (heap ex)); [lia | | | done].
      * intros r _. apply match_body_static.
      * intros r Hr. destruct (decide (r = rs)) as [->|Hrs].
        -- by rewrite Hds.
        -- rewrite Hoth; [|by intros ->|done].
           by apply (proj1 (Forall_forall _ _) (qw_open _ _ _ Ws)).
Qed.

Lemma _match_book_wf fuel ex ex' : book_wf ex -> _match fuel ex = Ok ex' -> book_wf ex'.
Proof.
  apply (_match_preserves book_wf). intros. by eapply match_body_book_wf.
Qed.

(** ** Cancelling *)

Lemma Status_eqb_eq a b : Status_eqb a b = true <-> a = b.
Proof. destruct a, b; cbn; split; congruence. Qed.

Lemma Order_eq_true a b :
  Order_eq a b = true -> id a = id b /\ status a = status b.
Proof.
  unfold Order_eq. rewrite !andb_true_iff.
  intros ((((((Hid & _) & _) & _) & _) & Hst) & _).
  split; [by apply String.eqb_eq | by apply Status_eqb_eq].
Qed.

Lemma open_valid h r : status (deref h r) = st_open -> (r < length h)%nat.
Proof.
  unfold deref. destruct (h !! r) eqn:E; [|done].
  intros _. by eapply lookup_lt_Some.
Qed.

Lemma open_with_id_test h order_id r :
  String.eqb (id (deref h r)) order_id && Status_eqb (status (deref h r)) st_open = true
  <-> open_with_id h order_id r.
Proof. unfold open_with_id. by rewrite andb_true_iff, String.eqb_eq, Status_eqb_eq. Qed.

Lemma find_open_Some h q order_id r :
  find_open h q order_id = Some r ->
  exists l1 l2, q = l1 ++ r :: l2 /\ open_with_id h order_id r /\
                Forall (fun x => ~ open_with_id h order_id x) l1.
Proof.
  unfold find_open. induction q as [|x q IH]; cbn; [done|].
  destruct (String.eqb _ _ && _) eqn:E.
  - intros [= ->]. exists [], q. split; [done|].
    split; [by apply open_with_id_test | done].
  - intros (l1 & l2 & -> & Hr & Hl1)%IH. exists (x :: l1), l2.
    split; [done|]. split; [done|]. apply Forall_cons. split; [|done].
    intros H%open_with_id_test. congruence.
Qed.

Lemma find_open_None h q order_id :
  find_open h q order_id = None <-> Forall (fun x => ~ open_with_id h order_id x) q.
Proof.
  clear clock.
  unfold find_open. induction q as [|x q IH]; cbn; [by split|].
  rewrite Forall_cons. destruct (String.eqb _ _ && _) eqn:E.
  - apply open_with_id_test in E. split; [done | tauto].
  - rewrite IH. split; [|tauto]. intros H. split; [|done].
    intros H'%open_with_id_test. congruence.
Qed.

(** [q.remove(o)] drops the first occurrence of [o] when no order ahead of
    it equals it. *)
Lemma deque_remove_first h l1 r l2 :
  Forall (fun x => x <> r /\ Order_eq (deref h x) (deref h r) = false) l1 ->
  deque_remove h (l1 ++ r :: l2) r = Ok (l1 ++ l2).
Proof.
  induction l1 as [|x l1 IH]; cbn.
  - intros _. by rewrite Nat.eqb_refl.
  - intros [[Hx Heq] Hl1]%Forall_cons.
    apply Nat.eqb_neq in Hx. rewrite Hx, Heq. cbn. by rewrite IH.
Qed.

(** [q.remove(o)] raises nothing when [o] is in [q]. *)
Lemma deque_remove_total h q r : r ∈ q -> exists q', deque_remove h q r = Ok q'.
Proof.
  induction q as [|x q IH]; [by intros ?%elem_of_nil|].
  intros Hin. cbn. destruct (decide (x = r)) as [->|Hne].
  - rewrite Nat.eqb_refl. by eexists.
  - destruct (Nat.eqb x r || Order_eq _ _); [by eexists|].
    apply elem_of_cons in Hin as [->|Hin]; [done|].
    destruct (IH Hin) as [q' ->]. by eexists.
Qed.

Lemma heap_set_book ex s q : heap (set_book ex s q) = heap ex.
Proof. by destruct s. Qed.

(** The round of [cancel] on a queue whose first open order with the id is
    [r], when the orders ahead of [r] are other objects that are open or
    carry another id. *)
Lemma cancel_in_first ex s order_id l1 r l2 :
  book ex s = l1 ++ r :: l2 ->
  open_with_id (heap ex) order_id r ->
  Forall (fun x => ~ open_with_id (heap ex) order_id x) l1 ->
  Forall (fun x => x <> r /\
            (status (deref (heap ex) x) = st_open \/ id (deref (heap ex) x) <> order_id)) l1 ->
  cancel_in ex s order_id =
  Some (Ok (tt, set_book (set_heap ex (set_status (heap ex) r st_cancelled)) s (l1 ++ l2))).
Proof.
  intros Eq [Hid Hst] Hl1 Hl1'. unfold cancel_in.
  assert (find_open (heap ex) (book ex s) order_id = Some r) as ->.
  { rewrite Eq. unfold find_open. clear Hl1' Eq.
    induction l1 as [|x l1 IH]; cbn.
    - assert (open_with_id (heap ex) order_id r) as H%open_with_id_test by done.
      by rewrite H.
    - apply Forall_cons in Hl1 as [Hx Hl1].
      destruct (String.eqb _ _ && _) eqn:E; [by apply open_with_id_test in E|].
      by apply IH. }
  rewrite Eq. rewrite deque_remove_first; [done|].
  pose proof (open_valid _ _ Hst) as Hr.
  eapply Forall_impl; [exact Hl1'|]. intros x [Hx Hor]. split; [done|].
  rewrite deref_set_status_ne by done. rewrite deref_set_status_eq by done.
  destruct (Order_eq _ _) eqn:E; [|done].
  apply Order_eq_true in E as [E1 E2]. cbn in E1, E2.
  destruct Hor; congruence.
Qed.

Lemma cancel_in_None ex s order_id :
  find_open (heap ex) (book ex s) order_id = None -> cancel_in ex s order_id = None.
Proof. unfold cancel_in. by intros ->. Qed.

Lemma queue_wf_ahead h s l1 r l2 order_id :
  queue_wf h s (l1 ++ r :: l2) ->
  Forall (fun x => x <> r /\
            (status (deref h x) = st_open \/ id (deref h x) <> order_id)) l1.
Proof.
  intros [_ Hn Ho _]. apply Forall_forall. intros x Hx. split.
  - intros ->. apply NoDup_app in Hn as (_ & Hn & _). apply (Hn r Hx). by left.
  - left. apply (proj1 (Forall_forall _ _) Ho). apply elem_of_app. by left.
Qed.

(** What [cancel] does on a well-formed book. *)
Lemma cancel_wf_spec ex order_id :
  book_wf ex ->
  (no_open_with_id ex order_id /\ cancel ex order_id = Ok (tt, ex)) \/
  (exists s l1 r l2,
     book ex s = l1 ++ r :: l2 /\ open_with_id (heap ex) order_id r /\
     cancel ex order_id =
     Ok (tt, set_book (set_heap ex (set_status (heap ex) r st_cancelled)) s (l1 ++ l2))).
Proof.
  intros [Wb Ws]. unfold cancel.
  destruct (find_open (heap ex) (buys ex) order_id) as [r|] eqn:Eb.
  - right. apply find_open_Some in Eb as (l1 & l2 & Eq & Hr & Hl1).
    exists BUY, l1, r, l2. split; [done|]. split; [done|].
    rewrite (cancel_in_first ex BUY order_id l1 r l2); try done.
    apply (queue_wf_ahead _ BUY _ _ l2). by rewrite <- Eq.
  - rewrite (cancel_in_None ex BUY) by done.
    destruct (find_open (heap ex) (sells ex) order_id) as [r|] eqn:Es.
    + right. apply find_open_Some in Es as (l1 & l2 & Eq & Hr & Hl1).
      exists SELL, l1, r, l2. split; [done|]. split; [done|].
      rewrite (cancel_in_first ex SELL order_id l1 r l2); try done.
      apply (queue_wf_ahead _ SELL _ _ l2). by rewrite <- Eq.
    + rewrite (cancel_in_None ex SELL) by done. by left.
Qed.

Lemma cancel_queue_wf h s l1 r l2 :
  queue_wf h s (l1 ++ r :: l2) ->
  queue_wf (set_status h r st_cancelled) s (l1 ++ l2).
Proof.
  intros Hq. pose proof (qw_open _ _ _ Hq) as Ho.
  apply queue_wf_delete in Hq as [Hq Hnin].
  apply (queue_wf_static h); [by rewrite length_set_status | | | done].
  - intros x _. apply set_status_static.
  - intros x Hx. rewrite deref_set_status_ne by (by intros ->).
    apply (proj1 (Forall_forall _ _) Ho).
    apply elem_of_app in Hx as [Hx|Hx]; apply elem_of_app; [by left|right; by right].
Qed.

Lemma cancel_other_queue_wf h s s' q r :
  queue_wf h s' q -> side (deref h r) = s -> s <> s' ->
  queue_wf (set_status h r st_cancelled) s' q.
Proof.
  intros Hq Hside Hne.
  apply (queue_wf_static h); [by rewrite length_set_status | | | done].
  - intros x _. apply set_status_static.
  - intros x Hx. rewrite deref_set_status_ne.
    + by apply (proj1 (Forall_forall _ _) (qw_open _ _ _ Hq)).
    + intros ->. pose proof (tagged_side _ _ _ _ (qw_tagged _ _ _ Hq) Hx). congruence.
Qed.

Lemma cancel_book_wf ex order_id ex' :
  book_wf ex -> cancel ex order_id = Ok (tt, ex') -> book_wf ex'.
Proof.
  intros Hwf Hc.
  destruct (cancel_wf_spec ex order_id Hwf) as [[_ E] | (s & l1 & r & l2 & Eq & _ & E)];
    rewrite E in Hc; injection Hc as <-; [done|].
  destruct Hwf as [Wb Ws].
  assert (Hside : side (deref (heap ex) r) = s).
  { destruct s; cbn in Eq.
    - apply (tagged_side _ _ _ _ (qw_tagged _ _ _ Wb)). rewrite Eq.
      apply elem_of_app. right. by left.
    - apply (tagged_side _ _ _ _ (qw_tagged _ _ _ Ws)). rewrite Eq.
      apply elem_of_app. right. by left. }
  destruct s; cbn in Eq; split; cbn [set_book set_heap heap buys sells].
  - apply cancel_queue_wf. by rewrite <- Eq.
  - by apply (cancel_other_queue_wf _ BUY).
  - by apply (cancel_other_queue_wf _ SELL).
  - apply cancel_queue_wf. by rewrite <- Eq.
Qed.

(** ** No cross between calls *)

Lemma head_after_delete h s l1 r l2 x q' :
  sorted h s (l1 ++ r :: l2) -> l1 ++ l2 = x :: q' ->
  exists y q, l1 ++ r :: l2 = y :: q /\
              better_eq s (price (deref h y)) (price (deref h x)).
Proof.
  intros Hs Eq. destruct l1 as [|y l1]; cbn in Hs, Eq |- *.
  - subst l2. exists r, (x :: q'). split; [done|].
    apply (sorted_head_best h s r (x :: q')); [done|]. right. by left.
  - injection Eq as -> Eq. exists x, (l1 ++ r :: l2). split; [done|].
    destruct s; cbn; apply Qle_refl.
Qed.

Lemma cancel_not_crossed ex order_id ex' :
  book_wf ex -> ~ crossed ex -> cancel ex order_id = Ok (tt, ex') -> ~ crossed ex'.
Proof.
  clear clock.
  intros Hwf Hnc Hc.
  destruct (cancel_wf_spec ex order_id Hwf) as [[_ E] | (s & l1 & r & l2 & Eq & _ & E)];
    rewrite E in Hc; injection Hc as <-; [done|].
  destruct Hwf as [Wb Ws].
  assert (Hp : forall x, price (deref (set_status (heap ex) r st_cancelled) x)
                         = price (deref (heap ex) x)).
  { intros x. by destruct (set_status_static (heap ex) r st_cancelled x) as (_ & _ & -> & _). }
  unfold crossed in Hnc |- *.
  destruct s; cbn in Eq; cbn [set_book set_heap heap buys sells].
  - destruct (l1 ++ l2) as [|x q'] eqn:Eq'; [tauto|].
    destruct (sells ex) as [|rs sq]; [tauto|].
    rewrite !Hp. pose proof (qw_sorted _ _ _ Wb) as Hs. rewrite Eq in Hs.
    destruct (head_after_delete _ _ _ _ _ _ _ Hs Eq') as (y & q & Ey & Hy).
    rewrite Eq, Ey in Hnc. cbn in Hy. intros Hx. apply Hnc. lra.
  - destruct (buys ex) as [|rb bq]; [tauto|].
    destruct (l1 ++ l2) as [|x q'] eqn:Eq'; [tauto|].
    rewrite !Hp. pose proof (qw_sorted _ _ _ Ws) as Hs. rewrite Eq in Hs.
    destruct (head_after_delete _ _ _ _ _ _ _ Hs Eq') as (y & q & Ey & Hy).
    rewrite Eq, Ey in Hnc. cbn in Hy. intros Hx. apply Hnc. lra.
Qed.

(** ** Reachable books *)

Lemma run_place_inv fuel ex symbol sd p sz cid ex' :
  run fuel ex (CallPlace symbol sd p sz cid) = Ok ex' ->
  _match fuel (_insert (new_Order ex cid sd p sz).2 (new_Order ex cid sd p sz).1) = Ok ex'.
Proof.
  cbn. unfold place_limit. cbn.
  destruct (_match fuel _) as [ex3| |]; cbn; congruence.
Qed.

Lemma run_cancel_inv fuel ex order_id ex' :
  run fuel ex (CallCancel order_id) = Ok ex' -> cancel ex order_id = Ok (tt, ex').
Proof.
  cbn. destruct (cancel ex order_id) as [[[] ex1]| |]; cbn; congruence.
Qed.

Lemma run_book_wf fuel ex c ex' :
  book_wf ex -> ~ crossed ex -> run fuel ex c = Ok ex' ->
  book_wf ex' /\ ~ crossed ex'.
Proof.
  intros Hwf Hnc Hrun. destruct c as [symbol sd p sz cid | order_id].
  - apply run_place_inv in Hrun. split.
    + eapply _match_book_wf; [|exact Hrun]. by apply insert_new_book_wf.
    + by eapply _match_quiescent.
  - apply run_cancel_inv in Hrun. split.
    + by eapply cancel_book_wf.
    + by eapply cancel_not_crossed.
Qed.

Lemma reachable_book_wf P ex : reachable_by P ex -> book_wf ex /\ ~ crossed ex.
Proof.
  induction 1 as [|ex c fuel ex' _ [IH1 IH2] _ Hrun].
  - split; [apply book_wf_init | cbn; tauto].
  - by eapply run_book_wf.
Qed.

Lemma place_limit_eq fuel ex symbol sd p sz cid :
  place_limit fuel ex symbol sd p sz cid =
  ex3 ← _match fuel (_insert (new_Order ex cid sd p sz).2 (new_Order ex cid sd p sz).1);
  Ok (id (deref (heap ex3) (length (heap ex))), ex3).
Proof. reflexivity. Qed.

(** ** Fill state of the orders *)






(** An order that is filled or cancelled is not touched again. *)
Lemma match_body_frozen ex rb rs bq sq r :
  book_wf ex -> buys ex = rb :: bq -> sells ex = rs :: sq ->
  status (deref (heap ex) r) <> st_open ->
  deref (heap (match_body ex rb rs)) r = deref (heap ex) r.
Proof.
  intros Hwf Eb Es Hst.
  destruct (heads_distinct _ _ _ _ _ (book_wf_refs _ Hwf) Eb Es) as (Hne & Hb & Hs).
  destruct (match_body_spec ex rb rs Hne Hb Hs) as (_ & _ & _ & Hoth & _).
  destruct Hwf as [Wb Ws]. apply Hoth.
  - intros ->. apply Hst.
    apply (proj1 (Forall_forall _ _) (qw_open _ _ _ Wb)). rewrite Eb. by left.
  - intros ->. apply Hst.
    apply (proj1 (Forall_forall _ _) (qw_open _ _ _ Ws)). rewrite Es. by left.
Qed.

Lemma run_frozen fuel ex c ex' r :
  book_wf ex -> run fuel ex c = Ok ex' ->
  (r < length (heap ex))%nat -> status (deref (heap ex) r) <> st_open ->
  deref (heap ex') r = deref (heap ex) r.
Proof.
  intros Hwf Hrun Hr Hst. destruct c as [symbol sd p sz cid | order_id].
  - apply run_place_inv in Hrun.
    pose proof (insert_new_book_wf ex cid sd p sz Hwf) as Hwf2.
    set (ex2 := _insert (new_Order ex cid sd p sz).2 (new_Order ex cid sd p sz).1) in *.
    assert (H2 : deref (heap ex2) r = deref (heap ex) r).
    { subst ex2. rewrite insert_new_eq, heap_set_book. cbn [heap].
      by rewrite deref_app_l. }
    apply (_match_preserves
             (fun e => book_wf e /\ deref (heap e) r = deref (heap ex) r))
      with (ex' := ex') in Hrun; [tauto| |done].
    intros e rb rs bq sq [He1 He2] Eb Es _. split.
    + by eapply match_body_book_wf.
    + rewrite <- He2. eapply match_body_frozen; try done. by rewrite He2.
  - apply run_cancel_inv in Hrun.
    destruct (cancel_wf_spec ex order_id Hwf)
      as [[_ E] | (s & l1 & r' & l2 & _ & [_ Hr'] & E)];
      rewrite E in Hrun; injection Hrun as <-; [done|].
    rewrite heap_set_book. cbn [set_heap heap].
    rewrite deref_set_status_ne; [done|]. intros ->. done.
Qed.

(** ** Cancelling on any book *)

Lemma cancel_total ex order_id : exists ex', cancel ex order_id = Ok (tt, ex').
Proof.
  unfold cancel, cancel_in.
  destruct (find_open (heap ex) (book ex BUY) order_id) as [r|] eqn:Eb.
  - apply find_open_Some in Eb as (l1 & l2 & Eq & _).
    destruct (deque_remove_total (set_status (heap ex) r st_cancelled) (book ex BUY) r)
      as [q' ->]; [|by eexists].
    rewrite Eq. apply elem_of_app. right. by left.
  - destruct (find_open (heap ex) (book ex SELL) order_id) as [r|] eqn:Es; [|by eexists].
    apply find_open_Some in Es as (l1 & l2 & Eq & _).
    destruct (deque_remove_total (set_status (heap ex) r st_cancelled) (book ex SELL) r)
      as [q' ->]; [|by eexists].
    rewrite Eq. apply elem_of_app. right. by left.
Qed.

Lemma cancel_absent ex order_id :
  no_open_with_id ex order_id -> cancel ex order_id = Ok (tt, ex).
Proof.
  intros [Hb Hs]. unfold cancel.
  by rewrite (cancel_in_None ex BUY), (cancel_in_None ex SELL).
Qed.

Lemma filter_le1 (f : ref -> bool) a r b :
  (length (List.filter f (a ++ r :: b)) <= 1)%nat -> f r = true ->
  forall x, x ∈ a ++ b -> f x = false.
Proof.
  rewrite List.filter_app. cbn. intros Hle Hr. rewrite Hr in Hle.
  rewrite length_app in Hle. cbn in Hle.
  intros x Hx. destruct (f x) eqn:Ex; [|done]. exfalso.
  apply elem_of_app in Hx as [Hx|Hx]; apply list_elem_of_In in Hx.
  - assert (Hin : In x (List.filter f a)) by (apply List.filter_In; by split).
    destruct (List.filter f a); [done|]. cbn in Hle. lia.
  - assert (Hin : In x (List.filter f b)) by (apply List.filter_In; by split).
    destruct (List.filter f b); [done|]. cbn in Hle. lia.
Qed.

Lemma other_id_not_open h r st order_id x :
  String.eqb (id (deref h x)) order_id = false ->
  ~ open_with_id (set_status h r st) order_id x.
Proof.
  intros Hx [Hid _].
  destruct (set_status_static h r st x) as (Hsame & _).
  rewrite <- Hsame in Hid. apply String.eqb_eq in Hid. congruence.
Qed.

(** After a [cancel] on a book in which at most one resting order carries
    the id, no open order with that id is left in the book. *)
Lemma cancel_at_most_one ex order_id ex1 :
  (length (resting_with_id ex order_id) <= 1)%nat ->
  cancel ex order_id = Ok (tt, ex1) -> no_open_with_id ex1 order_id.
Proof.
  unfold resting_with_id. intros Hle. unfold cancel.
  set (f := fun r => String.eqb (id (deref (heap ex) r)) order_id) in Hle.
  destruct (find_open (heap ex) (buys ex) order_id) as [r|] eqn:Eb.
  - apply find_open_Some in Eb as (l1 & l2 & Eq & Hr & Hl1).
    assert (Hfr : f r = true) by (apply String.eqb_eq; apply Hr).
    rewrite Eq, <- app_assoc in Hle. cbn in Hle.
    pose proof (filter_le1 f _ _ _ Hle Hfr) as Hoth.
    rewrite (cancel_in_first ex BUY order_id l1 r l2 Eq Hr Hl1).
    + intros [= <-]. split; cbn; apply find_open_None, Forall_forall; intros x Hx;
        apply other_id_not_open, Hoth.
      * apply elem_of_app in Hx as [Hx|Hx]; apply elem_of_app; [by left|].
        right. apply elem_of_app. by left.
      * apply elem_of_app. right. apply elem_of_app. by right.
    + apply Forall_forall. intros x Hx.
      assert (Hfx : f x = false) by (apply Hoth, elem_of_app; by left).
      split; [intros ->; congruence|]. right. by apply String.eqb_neq.
  - rewrite (cancel_in_None ex BUY) by done.
    destruct (find_open (heap ex) (sells ex) order_id) as [r|] eqn:Es.
    + apply find_open_Some in Es as (l1 & l2 & Eq & Hr & Hl1).
      assert (Hfr : f r = true) by (apply String.eqb_eq; apply Hr).
      rewrite Eq, app_assoc in Hle.
      pose proof (filter_le1 f _ _ _ Hle Hfr) as Hoth.
      rewrite (cancel_in_first ex SELL order_id l1 r l2 Eq Hr Hl1).
      * intros [= <-]. split; cbn; apply find_open_None, Forall_forall; intros x Hx;
          apply other_id_not_open, Hoth.
        -- apply elem_of_app. left. apply elem_of_app. by left.
        -- apply elem_of_app in Hx as [Hx|Hx]; apply elem_of_app; [|by right].
           left. apply elem_of_app. by right.
      * apply Forall_forall. intros x Hx.
        assert (Hfx : f x = false).
        { apply Hoth, elem_of_app. left. apply elem_of_app. by right. }
        split; [intros ->; congruence|]. right. by apply String.eqb_neq.
    + rewrite (cancel_in_None ex SELL) by done. intros [= <-]. by split.
Qed.

(** ** Claims on the orders and the trade log *)

(** C6, as amended: [cancel] raises no error on any book; with an id that
    no open resting order carries it changes nothing; and when at most one
    resting order carries the id, a second [cancel] with the same id leaves
    the state of the first.  (With two resting orders of one id, the second
    call cancels the second order.) *)
Theorem cancel_idempotent ex order_id :
  exists ex1,
    cancel ex order_id = Ok (tt, ex1) /\
    (no_open_with_id ex order_id -> ex1 = ex) /\
    ((length (resting_with_id ex order_id) <= 1)%nat ->
     cancel ex1 order_id = Ok (tt, ex1)).
Proof.
  destruct (cancel_total ex order_id) as [ex1 H1]. exists ex1.
  split; [done|]. split.
  - intros Habs. rewrite (cancel_absent _ _ Habs) in H1. congruence.
  - intros Hle. apply cancel_absent. by eapply cancel_at_most_one.
Qed.

(** C9: [get_top] returns the price of the head order of the BUY queue as
    bid and of the SELL queue as ask, 49999.5 as bid when the BUY queue is
    empty and 50000.5 as ask when the SELL queue is empty, and leaves the
    state as it is. *)
Theorem get_top_spec ex symbol :
  exists t,
    get_top ex symbol = Ok (t, ex) /\
    (forall r q, buys ex = r :: q -> bid t = price (deref (heap ex) r)) /\
    (buys ex = [] -> bid t == 49999.5) /\
    (forall r q, sells ex = r :: q -> ask t = price (deref (heap ex) r)) /\
    (sells ex = [] -> ask t == 50000.5).
Proof.
  eexists. split; [reflexivity|]. cbn [bid ask].
  split; [by intros r q ->|]. split; [by intros ->|].
  split; [by intros r q ->|]. by intros ->.
Qed.

(** ** Scenarios *)

(** C5 (scenario C): on the empty book, BUY 101 size 2 as b1 and then SELL
    100 size 1 as s1 give exactly one trade, of price 100.5 and size 1;
    afterwards b1 is open with [filled = 1], alone in the BUY queue with 1
    remaining, and s1 is filled and in neither queue. *)
Theorem scenario_C symbol fuel :
  exists ex1 ex2,
    place_limit fuel SimExchange_init symbol BUY 101 2 "b1" = Ok ("b1"%string, ex1) /\
    place_limit (S fuel) ex1 symbol SELL 100 1 "s1" = Ok ("s1"%string, ex2) /\
    trades ex1 = [] /\
    (exists t, trades ex2 = [mkTrade (201 # 2) 1 t]) /\ 201 # 2 == 100.5 /\
    heap ex2 = [mkOrder "b1" BUY 101 2 1 st_open (clock 0);
                mkOrder "s1" SELL 100 1 1 st_filled (clock 1)] /\
    buys ex2 = [0%nat] /\ sells ex2 = [] /\
    remaining (deref (heap ex2) 0%nat) == 1.
Proof.
  eexists _, _. split; [by destruct fuel|].
  split; [by destruct fuel|]. cbn. repeat split; try done. by eexists.
Qed.

(** C1 at its failing input: after BUY 100 as a and then BUY 100 as b, the
    later order b is at the head of the BUY queue, ahead of the earlier,
    equal-priced order a. *)
Theorem insert_not_stable symbol fuel :
  exists ex1 ex2,
    place_limit fuel SimExchange_init symbol BUY 100 1 "a" = Ok ("a"%string, ex1) /\
    place_limit fuel ex1 symbol BUY 100 1 "b" = Ok ("b"%string, ex2) /\
    heap ex2 = [mkOrder "a" BUY 100 1 0 st_open (clock 0);
                mkOrder "b" BUY 100 1 0 st_open (clock 1)] /\
    buys ex2 = [1%nat; 0%nat].
Proof.
  eexists _, _. split; [by destruct fuel|]. split; [by destruct fuel|]. done.
Qed.

(** ** Further properties of the book *)

Lemma match_body_trades ex rb rs :
  trades (match_body ex rb rs) =
  trades ex ++
  [mkTrade ((price (deref (heap ex) rb) + price (deref (heap ex) rs)) / 2)
     (Qmin (remaining (deref (heap ex) rb)) (remaining (deref (heap ex) rs)))
     (clock (now ex))].
Proof.
  unfold match_body.
  repeat match goal with
  | |- context [if ?c then _ else _] => destruct c
  end; reflexivity.
Qed.

Lemma cancel_heap ex order_id ex' :
  cancel ex order_id = Ok (tt, ex') ->
  trades ex' = trades ex /\
  (ex' = ex \/ exists r, heap ex' = set_status (heap ex) r st_cancelled).
Proof.
  unfold cancel, cancel_in.
  assert (Htr : forall e s q, trades (set_book e s q) = trades e)
    by (by intros ? [] ?).
  destruct (find_open (heap ex) (book ex BUY) order_id) as [r|].
  - destruct (deque_remove _ _ _) as [q'| |]; cbn; [|done..].
    intros [= <-]. split; [done|]. right. by exists r.
  - destruct (find_open (heap ex) (book ex SELL) order_id) as [r|].
    + destruct (deque_remove _ _ _) as [q'| |]; cbn; [|done..].
      intros [= <-]. split; [done|]. right. by exists r.
    + intros [= <-]. split; [done|]. by left.
Qed.

Lemma same_static_refl o : same_static o o.
Proof. by repeat split. Qed.

(** X3: a call never changes the id, side, price, size or timestamp of an
    order; [place_limit] creates exactly one order and [cancel] none. *)
Theorem created_fields_immutable fuel ex c ex' :
  run fuel ex c = Ok ex' ->
  (forall r, (r < length (heap ex))%nat ->
     same_static (deref (heap ex) r) (deref (heap ex') r)) /\
  length (heap ex') =
    match c with
    | CallPlace _ _ _ _ _ => S (length (heap ex))
    | CallCancel _ => length (heap ex)
    end.
Proof.
  intros Hrun. destruct c as [symbol sd p sz cid | order_id].
  - apply run_place_inv in Hrun.
    set (ex2 := _insert (new_Order ex cid sd p sz).2 (new_Order ex cid sd p sz).1) in *.
    assert (H2 : heap ex2 = heap ex ++ [mkOrder cid sd p sz 0 st_open (clock (now ex))]).
    { subst ex2. by rewrite insert_new_eq, heap_set_book. }
    apply (_match_preserves
             (fun e => length (heap e) = length (heap ex2) /\
                       forall r, same_static (deref (heap ex2) r) (deref (heap e) r)))
      with (ex' := ex') in Hrun.
    + destruct Hrun as [Hl Hs]. split.
      * intros r Hlt. specialize (Hs r). rewrite H2, deref_app_l in Hs by done. done.
      * rewrite Hl, H2, length_app. cbn. lia.
    + intros e rb rs bq sq [Hl Hs] _ _ _. split.
      * by rewrite match_body_length.
      * intros r. eapply same_static_trans; [apply Hs | apply match_body_static].
    + split; [done|]. intros r. apply same_static_refl.
  - apply run_cancel_inv in Hrun.
    apply cancel_heap in Hrun as [_ [-> | [r0 ->]]].
    + split; [|done]. intros r _. apply same_static_refl.
    + split; [|by rewrite length_set_status]. intros r _. apply set_status_static.
Qed.

(** X4: the trade log only grows at its end: a call keeps every trade
    logged before it, in place, and [cancel] logs nothing. *)
Theorem trade_log_append_only fuel ex c ex' :
  run fuel ex c = Ok ex' ->
  exists new,
    trades ex' = trades ex ++ new /\
    (forall order_id, c = CallCancel order_id -> new = []).
Proof.
  intros Hrun. destruct c as [symbol sd p sz cid | order_id].
  - apply run_place_inv in Hrun.
    apply (_match_preserves (fun e => exists new, trades e = trades ex ++ new))
      with (ex' := ex') in Hrun.
    + destruct Hrun as [new Hn]. exists new. by split.
    + intros e rb rs bq sq [new Hn] _ _ _. exists (new ++
        [mkTrade ((price (deref (heap e) rb) + price (deref (heap e) rs)) / 2)
           (Qmin (remaining (deref (heap e) rb)) (remaining (deref (heap e) rs)))
           (clock (now e))]).
      by rewrite match_body_trades, Hn, app_assoc.
    + exists []. rewrite insert_new_eq. rewrite app_nil_r. by destruct sd.
  - apply run_cancel_inv in Hrun. apply cancel_heap in Hrun as [Htr _].
    exists []. by rewrite app_nil_r.
Qed.

Lemma elem_of_deque_insert (q : list ref) idx x y :
  y ∈ deque_insert q idx x <-> y = x \/ y ∈ q.
Proof.
  clear clock. unfold deque_insert.
  rewrite <- (take_drop idx q) at 3.
  rewrite !elem_of_app, elem_of_cons. tauto.
Qed.

Lemma insert_new_open_rests ex cid sd p sz :
  book_wf ex -> open_rests ex ->
  open_rests (_insert (new_Order ex cid sd p sz).2 (new_Order ex cid sd p sz).1).
Proof.
  intros Hwf Hop. rewrite insert_new_eq.
  set (o := mkOrder cid sd p sz 0 st_open (clock (now ex))).
  intros r. rewrite heap_set_book. cbn [heap]. rewrite length_app. cbn [length].
  intros Hr Hst. destruct (decide (r = length (heap ex))) as [->|Hne].
  - rewrite deref_app_new. cbn [side].
    destruct sd; cbn [set_book book buys sells]; apply elem_of_deque_insert; by left.
  - assert (Hlt : (r < length (heap ex))%nat) by lia.
    rewrite deref_app_l in Hst |- * by done.
    specialize (Hop r Hlt Hst).
    destruct sd, (side (deref (heap ex) r)); cbn [set_book book buys sells] in Hop |- *;
      try done; apply elem_of_deque_insert; by right.
Qed.

Lemma match_body_open_rests ex rb rs bq sq :
  book_wf ex -> buys ex = rb :: bq -> sells ex = rs :: sq ->
  open_rests ex -> open_rests (match_body ex rb rs).
Proof.
  intros Hwf Eb Es Hop.
  destruct (heads_distinct _ _ _ _ _ (book_wf_refs _ Hwf) Eb Es) as (Hne & Hb & Hs).
  destruct (match_body_spec ex rb rs Hne Hb Hs)
    as (Hlen & Hdb & Hds & Hoth & Hbq & Hsq & _).
  destruct Hwf as [Wb Ws].
  assert (Hsb : side (deref (heap ex) rb) = BUY).
  { apply (tagged_side _ _ _ _ (qw_tagged _ _ _ Wb)). rewrite Eb. by left. }
  assert (Hss : side (deref (heap ex) rs) = SELL).
  { apply (tagged_side _ _ _ _ (qw_tagged _ _ _ Ws)). rewrite Es. by left. }
  intros r Hr Hst. rewrite Hlen in Hr.
  destruct (decide (r = rb)) as [->|Hrb]; [|destruct (decide (r = rs)) as [->|Hrs]].
  - rewrite Hdb in Hst |- *. cbn [status side] in Hst |- *. rewrite Hsb.
    cbn [book]. rewrite Hbq.
    destruct (Qle_bool (size (deref (heap ex) rb)) _); [done|].
    rewrite Eb. by left.
  - rewrite Hds in Hst |- *. cbn [status side] in Hst |- *. rewrite Hss.
    cbn [book]. rewrite Hsq.
    destruct (Qle_bool (size (deref (heap ex) rs)) _); [done|].
    rewrite Es. by left.
  - rewrite Hoth in Hst |- * by done. specialize (Hop r Hr Hst).
    destruct (side (deref (heap ex) r)); cbn [book] in Hop |- *.
    + rewrite Hbq. destruct (Qle_bool (size (deref (heap ex) rb)) _); [|done].
      rewrite Eb in Hop |- *. cbn [tail].
      by apply elem_of_cons in Hop as [->|Hop].
    + rewrite Hsq. destruct (Qle_bool (size (deref (heap ex) rs)) _); [|done].
      rewrite Es in Hop |- *. cbn [tail].
      by apply elem_of_cons in Hop as [->|Hop].
Qed.

Lemma cancel_open_rests ex order_id ex' :
  book_wf ex -> open_rests ex -> cancel ex order_id = Ok (tt, ex') -> open_rests ex'.
Proof.
  intros Hwf Hop Hc.
  destruct (cancel_wf_spec ex order_id Hwf) as [[_ E] | (s & l1 & r0 & l2 & Eq & [_ Hr0] & E)];
    rewrite E in Hc; injection Hc as <-; [done|].
  pose proof (open_valid _ _ Hr0) as Hv.
  intros r. rewrite heap_set_book. cbn [set_heap heap]. rewrite length_set_status.
  intros Hr Hst. destruct (decide (r = r0)) as [->|Hne].
  - rewrite deref_set_status_eq in Hst by done. done.
  - rewrite deref_set_status_ne in Hst |- * by done.
    specialize (Hop r Hr Hst).
    destruct s, (side (deref (heap ex) r));
      cbn [set_book set_heap book buys sells] in Eq, Hop |- *; try done;
      rewrite Eq in Hop; apply elem_of_app in Hop as [Hop|Hop]; apply elem_of_app;
      try (by left); right; by apply elem_of_cons in Hop as [->|Hop].
Qed.

Lemma reachable_open_rests P ex : reachable_by P ex -> open_rests ex.
Proof.
  induction 1 as [|ex c fuel ex' Hr IH _ Hrun].
  - intros r Hr. cbn in Hr. lia.
  - destruct (reachable_book_wf _ _ Hr) as [Hwf _].
    destruct c as [symbol sd p sz cid | order_id].
    + apply run_place_inv in Hrun.
      apply (_match_preserves (fun e => book_wf e /\ open_rests e))
        with (ex' := ex') in Hrun; [by destruct Hrun| |].
      * intros e rb rs bq sq [He1 He2] Eb Es _. split.
        -- by eapply match_body_book_wf.
        -- by eapply match_body_open_rests.
      * split; [by apply insert_new_book_wf | by apply insert_new_open_rests].
    + apply run_cancel_inv in Hrun. by eapply cancel_open_rests.
Qed.

(** X6: between any two calls the resting orders are exactly the open
    ones: an order is in a queue if and only if its status is ["open"], it
    is then in the queue of its own side, and no order is in a queue
    twice. *)
Theorem resting_iff_open ex :
  reachable ex ->
  (forall r, (r < length (heap ex))%nat ->
     status (deref (heap ex) r) = st_open <-> r ∈ buys ex \/ r ∈ sells ex) /\
  (forall r, r ∈ buys ex ->
     (r < length (heap ex))%nat /\ side (deref (heap ex) r) = BUY) /\
  (forall r, r ∈ sells ex ->
     (r < length (heap ex))%nat /\ side (deref (heap ex) r) = SELL) /\
  NoDup (buys ex) /\ NoDup (sells ex).
Proof.
  intros Hr. destruct (reachable_book_wf _ _ Hr) as [[Wb Ws] _].
  pose proof (reachable_open_rests _ _ Hr) as Hop.
  split; [|split; [|split; [|split]]].
  - intros r Hlt. split.
    + intros Hst. specialize (Hop r Hlt Hst).
      destruct (side (deref (heap ex) r)); cbn in Hop; auto.
    + intros [Hin|Hin].
      * by apply (proj1 (Forall_forall _ _) (qw_open _ _ _ Wb)).
      * by apply (proj1 (Forall_forall _ _) (qw_open _ _ _ Ws)).
  - intros r Hin. by apply (proj1 (Forall_forall _ _) (qw_tagged _ _ _ Wb)).
  - intros r Hin. by apply (proj1 (Forall_forall _ _) (qw_tagged _ _ _ Ws)).
  - apply Wb.
  - apply Ws.
Qed.







Lemma deque_insert_head (q : list ref) idx x y q' :
  deque_insert q idx x = y :: q' -> y = x \/ exists q0, q = y :: q0.
Proof.
  unfold deque_insert. destruct idx as [|idx]; cbn.
  - intros [= <- _]. by left.
  - destruct q as [|z q]; cbn.
    + intros [= <- _]. by left.
    + intros [= <- _]. right. by eexists.
Qed.

(** X10: on a book between two calls, [cancel] either finds no open order
    with the id and changes nothing, or takes the first such order, of the
    BUY queue before the SELL queue: that order becomes ["cancelled"] with
    its [filled] as it is and leaves its queue, the other orders keep their
    place and their state, and the trade log is unchanged. *)
Theorem cancel_effect ex order_id :
  reachable ex ->
  (no_open_with_id ex order_id /\ cancel ex order_id = Ok (tt, ex)) \/
  (exists s l1 r l2 ex',
     cancel ex order_id = Ok (tt, ex') /\
     book ex s = l1 ++ r :: l2 /\
     open_with_id (heap ex) order_id r /\
     Forall (fun x => ~ open_with_id (heap ex) order_id x) l1 /\
     (s = SELL -> Forall (fun x => ~ open_with_id (heap ex) order_id x) (buys ex)) /\
     book ex' s = l1 ++ l2 /\
     (forall s', s' <> s -> book ex' s' = book ex s') /\
     (r ∉ buys ex') /\ (r ∉ sells ex') /\
     deref (heap ex') r =
       mkOrder (id (deref (heap ex) r)) (side (deref (heap ex) r))
               (price (deref (heap ex) r)) (size (deref (heap ex) r))
               (filled (deref (heap ex) r)) st_cancelled (ts (deref (heap ex) r)) /\
     (forall x, x <> r -> deref (heap ex') x = deref (heap ex) x) /\
     length (heap ex') = length (heap ex) /\
     trades ex' = trades ex).
Proof.
  intros Hr. destruct (reachable_book_wf _ _ Hr) as [[Wb Ws] _].
  assert (Hfin : forall s l1 r l2,
    queue_wf (heap ex) s (book ex s) ->
    (forall x, x ∈ book ex s -> forall s', s' <> s -> x ∉ book ex s') ->
    book ex s = l1 ++ r :: l2 ->
    open_with_id (heap ex) order_id r ->
    Forall (fun x => ~ open_with_id (heap ex) order_id x) l1 ->
    let ex' := set_book (set_heap ex (set_status (heap ex) r st_cancelled)) s (l1 ++ l2) in
    cancel_in ex s order_id = Some (Ok (tt, ex')) /\
    book ex' s = l1 ++ l2 /\
    (forall s', s' <> s -> book ex' s' = book ex s') /\
    (r ∉ buys ex') /\ (r ∉ sells ex') /\
    deref (heap ex') r =
       mkOrder (id (deref (heap ex) r)) (side (deref (heap ex) r))
               (price (deref (heap ex) r)) (size (deref (heap ex) r))
               (filled (deref (heap ex) r)) st_cancelled (ts (deref (heap ex) r)) /\
    (forall x, x <> r -> deref (heap ex') x = deref (heap ex) x) /\
    length (heap ex') = length (heap ex) /\
    trades ex' = trades ex).
  { intros s l1 r l2 Wq Hdis Eq Hop Hl1 ex'.
    pose proof (open_valid _ _ (proj2 Hop)) as Hv.
    assert (Hin : r ∈ book ex s) by (rewrite Eq; apply elem_of_app; right; by left).
    rewrite Eq in Wq. pose proof (queue_wf_delete _ _ _ _ _ Wq) as [_ Hnin].
    split.
    { apply cancel_in_first; try done. by apply (queue_wf_ahead _ s _ _ l2). }
    subst ex'. rewrite heap_set_book. cbn [set_heap heap].
    destruct s; cbn [set_book set_heap book buys sells trades];
      (split; [done|]); (split; [by intros []|]).
    - split; [done|]. split; [by apply (Hdis r Hin SELL)|].
      split; [by apply deref_set_status_eq|].
      split; [intros x Hx; by apply deref_set_status_ne|].
      split; [apply length_set_status | done].
    - split; [by apply (Hdis r Hin BUY)|]. split; [done|].
      split; [by apply deref_set_status_eq|].
      split; [intros x Hx; by apply deref_set_status_ne|].
      split; [apply length_set_status | done]. }
  assert (Hdis : forall s x, x ∈ book ex s -> forall s', s' <> s -> x ∉ book ex s').
  { intros s x Hx s' Hne Hx'.
    assert (Hs : side (deref (heap ex) x) = s)
      by (destruct s; [eapply tagged_side, Hx; apply Wb | eapply tagged_side, Hx; apply Ws]).
    assert (Hs' : side (deref (heap ex) x) = s')
      by (destruct s'; [eapply tagged_side, Hx'; apply Wb | eapply tagged_side, Hx'; apply Ws]).
    congruence. }
  unfold cancel.
  destruct (find_open (heap ex) (buys ex) order_id) as [r|] eqn:Eb.
  - right. apply find_open_Some in Eb as (l1 & l2 & Eq & Hop & Hl1).
    destruct (Hfin BUY l1 r l2 Wb (Hdis BUY) Eq Hop Hl1) as (E & H).
    exists BUY, l1, r, l2. eexists. rewrite E.
    split; [done|]. split; [done|]. split; [done|]. split; [done|].
    split; [done|]. exact H.
  - rewrite (cancel_in_None ex BUY) by done.
    destruct (find_open (heap ex) (sells ex) order_id) as [r|] eqn:Es.
    + right. apply find_open_Some in Es as (l1 & l2 & Eq & Hop & Hl1).
      destruct (Hfin SELL l1 r l2 Ws (Hdis SELL) Eq Hop Hl1) as (E & H).
      exists SELL, l1, r, l2. eexists. rewrite E.
      split; [done|]. split; [done|]. split; [done|]. split; [done|].
      split; [intros _; by apply find_open_None|]. exact H.
    + rewrite (cancel_in_None ex SELL) by done. left. by split.
Qed.

(** ** The spoofing cycle on the live stub *)

Section Cycle.

Variable uuid4_hex : nat -> string.

(** X13: on a [LiveExchange] every cycle raises [NotImplementedError] in
    [get_top], its first call, before any order is placed or cancelled; the
    loop takes the exception and goes on, so [n] rounds log [n] such errors
    and leave the exchange as it was, in paper mode or not. *)
Theorem live_cycles_always_fail n fuel l u symbol layers layer_size price_offset
    hold exec_delay errors :
  spoof_cycle uuid4_hex fuel (ExLive l, u) symbol layers layer_size price_offset
    hold exec_delay
  = Raise (mkExn NotImplementedError "Fill with venue top-of-book request") /\
  run_strategy_loop uuid4_hex n fuel (ExLive l, u) symbol layers layer_size
    price_offset hold exec_delay errors
  = Ok (errors ++ replicate n (mkExn NotImplementedError "Fill with venue top-of-book request"),
        (ExLive l, u)).
Proof.
  split; [reflexivity|]. revert errors. induction n as [|n IH]; intros errors.
  - cbn. by rewrite app_nil_r.
  - cbn [run_strategy_loop]. change (spoof_cycle _ _ _ _ _ _ _ _ _) with
      (@Raise (unit * (Exchange * nat))
         (mkExn NotImplementedError "Fill with venue top-of-book request")).
    cbn iota. rewrite IH, <- app_assoc. reflexivity.
Qed.

End Cycle.

End Clock.

(** ** Order on binary64 floats *)

(** The comparisons of [SpecFloat], by cases on the two or three floats. *)
Ltac sf_cmp :=
  repeat match goal with
  | x : spec_float |- _ => destruct x as [[]|[]| |[] ? ?]
  end;
  cbn -[Z.compare Pos.compare_cont] in *;
  try congruence;
  repeat match goal with
  | H : context [Pos.compare_cont Eq ?a ?b] |- _ =>
      change (Pos.compare_cont Eq a b) with (Pos.compare a b) in H
  | |- context [Pos.compare_cont Eq ?a ?b] =>
      change (Pos.compare_cont Eq a b) with (Pos.compare a b)
  end;
  repeat match goal with
  | H : context [(?a ?= ?b)%Z] |- _ => destruct (Z.compare_spec a b)
  | |- context [(?a ?= ?b)%Z] => destruct (Z.compare_spec a b)
  | H : context [(?a ?= ?b)%positive] |- _ => destruct (Pos.compare_spec a b)
  | |- context [(?a ?= ?b)%positive] => destruct (Pos.compare_spec a b)
  end; cbn in *; try congruence; try lia.

Lemma SFeqb_refl x : SFeqb x x = true <-> x <> S754_nan.
Proof. unfold SFeqb. split; intros H; sf_cmp. Qed.

Lemma SFleb_refl x : x <> S754_nan -> SFleb x x = true.
Proof. unfold SFleb. intros H. sf_cmp. Qed.

Lemma SFleb_trans x y z : SFleb x y = true -> SFleb y z = true -> SFleb x z = true.
Proof. unfold SFleb. intros H1 H2. sf_cmp. Qed.

Lemma SFltb_leb x y : SFltb x y = true -> SFleb x y = true.
Proof. unfold SFltb, SFleb. intros H. sf_cmp. Qed.

Lemma SFltb_not_leb x y : SFltb x y = true -> SFleb y x = false.
Proof. unfold SFltb, SFleb. intros H. sf_cmp. Qed.

Lemma SFltb_total x y :
  x <> S754_nan -> y <> S754_nan -> SFltb x y = false -> SFleb y x = true.
Proof. unfold SFltb, SFleb. intros Hx Hy H. sf_cmp. Qed.

Lemma SFleb_ltb_trans x y z : SFleb x y = true -> SFltb y z = true -> SFltb x z = true.
Proof. unfold SFltb, SFleb. intros H1 H2. sf_cmp. Qed.

Lemma SFltb_leb_trans x y z : SFltb x y = true -> SFleb y z = true -> SFltb x z = true.
Proof. unfold SFltb, SFleb. intros H1 H2. sf_cmp. Qed.

Lemma SFleb_nan x y : SFleb x y = true -> x <> S754_nan /\ y <> S754_nan.
Proof. unfold SFleb. intros H. split; intros ->; sf_cmp. Qed.

Section FloatOrder.

Local Open Scope float_scope.

Lemma is_nan_false x : is_nan x = false <-> Prim2SF x <> S754_nan.
Proof.
  unfold is_nan. rewrite FloatAxioms.eqb_spec.
  destruct (SFeqb_refl (Prim2SF x)) as [H1 H2]. split.
  - intros H%negb_false_iff. auto.
  - intros H. apply negb_false_iff. auto.
Qed.

Lemma leb_refl x : is_nan x = false -> (x <=? x) = true.
Proof. rewrite FloatAxioms.leb_spec. intros H%is_nan_false. by apply SFleb_refl. Qed.

Lemma leb_trans x y z : (x <=? y) = true -> (y <=? z) = true -> (x <=? z) = true.
Proof. rewrite !FloatAxioms.leb_spec. apply SFleb_trans. Qed.

Lemma ltb_leb x y : (x <? y) = true -> (x <=? y) = true.
Proof. rewrite FloatAxioms.ltb_spec, FloatAxioms.leb_spec. apply SFltb_leb. Qed.

Lemma ltb_not_leb x y : (x <? y) = true -> (y <=? x) = false.
Proof. rewrite FloatAxioms.ltb_spec, FloatAxioms.leb_spec. apply SFltb_not_leb. Qed.

(** Floats other than NaN are totally ordered. *)
Lemma ltb_total x y :
  is_nan x = false -> is_nan y = false -> (x <? y) = false -> (y <=? x) = true.
Proof.
  rewrite FloatAxioms.ltb_spec, FloatAxioms.leb_spec.
  intros Hx%is_nan_false Hy%is_nan_false. by apply SFltb_total.
Qed.

Lemma leb_ltb_trans x y z : (x <=? y) = true -> (y <? z) = true -> (x <? z) = true.
Proof. rewrite !FloatAxioms.ltb_spec, FloatAxioms.leb_spec. apply SFleb_ltb_trans. Qed.

Lemma ltb_leb_trans x y z : (x <? y) = true -> (y <=? z) = true -> (x <? z) = true.
Proof. rewrite !FloatAxioms.ltb_spec, FloatAxioms.leb_spec. apply SFltb_leb_trans. Qed.

(** A comparison that holds has no NaN operand. *)
Lemma leb_is_nan x y : (x <=? y) = true -> is_nan x = false /\ is_nan y = false.
Proof.
  rewrite FloatAxioms.leb_spec. intros [H1 H2]%SFleb_nan. split; by apply is_nan_false.
Qed.

End FloatOrder.

(** ** The book on binary64 floats *)

Section Binary64.

Import F64.

Local Open Scope float_scope.

Variable clock : nat -> float.

(** *** The heap *)

Lemma f64_deref_lookup (h : list Order) r o : h !! r = Some o -> deref h r = o.
Proof. unfold deref. by intros ->. Qed.

Lemma f64_deref_valid (h : list Order) r :
  (r < length h)%nat -> h !! r = Some (deref h r).
Proof.
  intros Hr. destruct (lookup_lt_is_Some_2 h r Hr) as [o Ho].
  by rewrite (f64_deref_lookup _ _ _ Ho).
Qed.

Lemma f64_deref_insert_eq (h : list Order) r o :
  (r < length h)%nat -> deref (<[r:=o]> h) r = o.
Proof. intros Hr. apply f64_deref_lookup. by apply list_lookup_insert_eq. Qed.

Lemma f64_deref_insert_ne (h : list Order) r r' o :
  r <> r' -> deref (<[r:=o]> h) r' = deref h r'.
Proof. intros Hne. unfold deref. by rewrite list_lookup_insert_ne. Qed.

Lemma f64_deref_insert_ge (h : list Order) r r' o :
  (length h <= r)%nat -> deref (<[r:=o]> h) r' = deref h r'.
Proof. intros Hr. by rewrite list_insert_ge. Qed.

Lemma f64_deref_app_l (h : list Order) o r :
  (r < length h)%nat -> deref (h ++ [o]) r = deref h r.
Proof. intros Hr. unfold deref. by rewrite lookup_app_l. Qed.

Lemma f64_deref_app_new (h : list Order) o : deref (h ++ [o]) (length h) = o.
Proof. apply f64_deref_lookup. by rewrite list_lookup_middle. Qed.

Lemma f64_deref_elem (h : list Order) r : (r < length h)%nat -> deref h r ∈ h.
Proof. intros Hr. eapply list_elem_of_lookup_2. by apply f64_deref_valid. Qed.

Lemma f64_length_add_filled h r x : length (add_filled h r x) = length h.
Proof. apply length_insert. Qed.

Lemma f64_length_set_status h r st : length (set_status h r st) = length h.
Proof. apply length_insert. Qed.

Lemma f64_deref_add_filled_eq h r x :
  (r < length h)%nat ->
  deref (add_filled h r x) r =
  mkOrder (id (deref h r)) (side (deref h r)) (price (deref h r))
          (size (deref h r)) (filled (deref h r) + x) (status (deref h r))
          (ts (deref h r)).
Proof. intros Hr. unfold add_filled. by rewrite f64_deref_insert_eq. Qed.

Lemma f64_deref_add_filled_ne h r r' x :
  r <> r' -> deref (add_filled h r x) r' = deref h r'.
Proof. apply f64_deref_insert_ne. Qed.

Lemma f64_deref_set_status_eq h r st :
  (r < length h)%nat ->
  deref (set_status h r st) r =
  mkOrder (id (deref h r)) (side (deref h r)) (price (deref h r))
          (size (deref h r)) (filled (deref h r)) st (ts (deref h r)).
Proof. intros Hr. unfold set_status. by rewrite f64_deref_insert_eq. Qed.

Lemma f64_deref_set_status_ne h r r' st :
  r <> r' -> deref (set_status h r st) r' = deref h r'.
Proof. apply f64_deref_insert_ne. Qed.

Lemma f64_same_static_refl o : same_static o o.
Proof. by repeat split. Qed.

Lemma f64_same_static_trans o1 o2 o3 :
  same_static o1 o2 -> same_static o2 o3 -> same_static o1 o3.
Proof. unfold same_static. intros (?&?&?&?&?) (?&?&?&?&?). repeat split; congruence. Qed.

Lemma f64_add_filled_static h r x r' :
  same_static (deref h r') (deref (add_filled h r x) r').
Proof.
  destruct (decide (r = r')) as [<-|Hne].
  - destruct (decide (r < length h)%nat) as [Hr|Hr].
    + by rewrite f64_deref_add_filled_eq.
    + unfold add_filled. rewrite f64_deref_insert_ge; [done | lia].
  - by rewrite f64_deref_add_filled_ne.
Qed.

Lemma f64_set_status_static h r st r' :
  same_static (deref h r') (deref (set_status h r st) r').
Proof.
  destruct (decide (r = r')) as [<-|Hne].
  - destruct (decide (r < length h)%nat) as [Hr|Hr].
    + by rewrite f64_deref_set_status_eq.
    + unfold set_status. rewrite f64_deref_insert_ge; [done | lia].
  - by rewrite f64_deref_set_status_ne.
Qed.

(** *** One iteration of the matching loop *)

(** What the iteration on the heads [rb] and [rs] does: the quantity is
    the [min] of the two remaining sizes, it goes to the log once and is
    added to the [filled] of both heads; a head whose [filled] then reaches
    its [size] gets the status ["filled"] and leaves its queue. *)
Lemma f64_match_body_spec ex rb rs :
  rb <> rs -> (rb < length (heap ex))%nat -> (rs < length (heap ex))%nat ->
  let ob := deref (heap ex) rb in
  let os := deref (heap ex) rs in
  let qty := fmin (remaining ob) (remaining os) in
  let fb := size ob <=? filled ob + qty in
  let fs := size os <=? filled os + qty in
  let ex' := match_body clock ex rb rs in
  length (heap ex') = length (heap ex) /\
  deref (heap ex') rb =
    mkOrder (id ob) (side ob) (price ob) (size ob) (filled ob + qty)
            (if fb then st_filled else status ob) (ts ob) /\
  deref (heap ex') rs =
    mkOrder (id os) (side os) (price os) (size os) (filled os + qty)
            (if fs then st_filled else status os) (ts os) /\
  (forall r, r <> rb -> r <> rs -> deref (heap ex') r = deref (heap ex) r) /\
  buys ex' = (if fb then tail (buys ex) else buys ex) /\
  sells ex' = (if fs then tail (sells ex) else sells ex) /\
  trades ex' =
    trades ex ++ [mkTrade ((price ob + price os) / 2) qty (clock (now ex))] /\
  now ex' = S (now ex).
Proof.
  intros Hne Hb Hs ob os qty fb fs ex'.
  subst ex'. unfold match_body.
  fold ob os. change (size ob - filled ob) with (remaining ob).
  change (size os - filled os) with (remaining os). fold qty.
  set (h1 := add_filled (heap ex) rb qty).
  set (h2 := add_filled h1 rs qty).
  assert (Hb2 : deref h2 rb =
    mkOrder (id ob) (side ob) (price ob) (size ob) (filled ob + qty)
            (status ob) (ts ob)).
  { subst h2 h1. rewrite f64_deref_add_filled_ne by done.
    by rewrite f64_deref_add_filled_eq. }
  assert (Hs2 : deref h2 rs =
    mkOrder (id os) (side os) (price os) (size os) (filled os + qty)
            (status os) (ts os)).
  { subst h2. rewrite f64_deref_add_filled_eq
      by (subst h1; by rewrite f64_length_add_filled).
    subst h1. by rewrite !f64_deref_add_filled_ne by done. }
  assert (Hl2 : length h2 = length (heap ex)).
  { subst h2 h1. by rewrite !f64_length_add_filled. }
  assert (Ho2 : forall r, r <> rb -> r <> rs -> deref h2 r = deref (heap ex) r).
  { intros r ? ?. subst h2 h1. by rewrite !f64_deref_add_filled_ne by done. }
  rewrite Hb2. cbn [size filled]. fold fb.
  destruct fb.
  - rewrite f64_deref_set_status_ne by done. rewrite Hs2. cbn [size filled]. fold fs.
    destruct fs; cbn [heap buys sells trades now].
    + rewrite !f64_length_set_status, Hl2.
      rewrite f64_deref_set_status_ne by done.
      rewrite f64_deref_set_status_eq by lia. rewrite Hb2. cbn [id side price size filled status ts].
      rewrite f64_deref_set_status_eq by (rewrite f64_length_set_status; lia).
      rewrite f64_deref_set_status_ne by done. rewrite Hs2. cbn [id side price size filled status ts].
      repeat split; try done.
      intros r ? ?. rewrite !f64_deref_set_status_ne by done. by apply Ho2.
    + rewrite !f64_length_set_status, Hl2.
      rewrite f64_deref_set_status_eq by lia. rewrite Hb2. cbn [id side price size filled status ts].
      rewrite f64_deref_set_status_ne by done. rewrite Hs2.
      repeat split; try done.
      intros r ? ?. rewrite !f64_deref_set_status_ne by done. by apply Ho2.
  - rewrite Hs2. cbn [size filled]. fold fs.
    destruct fs; cbn [heap buys sells trades now].
    + rewrite !f64_length_set_status, Hl2.
      rewrite f64_deref_set_status_ne by done. rewrite Hb2.
      rewrite f64_deref_set_status_eq by lia. rewrite Hs2. cbn [id side price size filled status ts].
      repeat split; try done.
      intros r ? ?. rewrite !f64_deref_set_status_ne by done. by apply Ho2.
    + rewrite Hl2, Hb2, Hs2. repeat split; try done.
Qed.

Lemma f64_match_body_static ex rb rs r :
  same_static (deref (heap ex) r) (deref (heap (match_body clock ex rb rs)) r).
Proof.
  unfold match_body.
  repeat match goal with
  | |- context [if ?c then _ else _] => destruct c
  end; cbn [heap];
  repeat first
    [ apply f64_add_filled_static
    | apply f64_set_status_static
    | eapply f64_same_static_trans; [| apply f64_set_status_static]
    | eapply f64_same_static_trans; [| apply f64_add_filled_static] ].
Qed.

Lemma f64_match_body_length ex rb rs :
  length (heap (match_body clock ex rb rs)) = length (heap ex).
Proof.
  unfold match_body.
  repeat match goal with
  | |- context [if ?c then _ else _] => destruct c
  end; cbn [heap];
  by rewrite ?f64_length_set_status, ?f64_length_add_filled.
Qed.

Lemma f64_match_body_trades ex rb rs :
  trades (match_body clock ex rb rs) =
  trades ex ++
  [mkTrade ((price (deref (heap ex) rb) + price (deref (heap ex) rs)) / 2)
     (fmin (remaining (deref (heap ex) rb)) (remaining (deref (heap ex) rs)))
     (clock (now ex))].
Proof.
  unfold match_body.
  repeat match goal with
  | |- context [if ?c then _ else _] => destruct c
  end; reflexivity.
Qed.

(** *** The matching loop *)

Lemma f64_match_iter_Some ex ex' :
  match_iter clock ex = Some ex' ->
  exists rb rs bq sq,
    buys ex = rb :: bq /\ sells ex = rs :: sq /\
    (price (deref (heap ex) rb) <? price (deref (heap ex) rs)) = false /\
    ex' = match_body clock ex rb rs.
Proof.
  unfold match_iter. destruct (buys ex) as [|rb bq]; [done|].
  destruct (sells ex) as [|rs sq]; [done|].
  destruct (price (deref (heap ex) rb) <? price (deref (heap ex) rs)) eqn:E; [done|].
  intros [= <-]. by exists rb, rs, bq, sq.
Qed.

(** The loop is left exactly on a book that is [quiescent]. *)
Lemma f64_match_iter_None ex : match_iter clock ex = None <-> quiescent ex.
Proof.
  unfold match_iter, quiescent. destruct (buys ex) as [|rb bq]; [done|].
  destruct (sells ex) as [|rs sq]; [done|].
  by destruct (price (deref (heap ex) rb) <? price (deref (heap ex) rs)).
Qed.

(** A book that is quiescent has no cross. *)
Lemma f64_quiescent_not_crossed ex : quiescent ex -> ~ crossed ex.
Proof.
  unfold quiescent, crossed. destruct (buys ex) as [|rb bq]; [tauto|].
  destruct (sells ex) as [|rs sq]; [tauto|].
  intros H%ltb_not_leb. congruence.
Qed.

(** Whatever one iteration preserves, the loop preserves. *)
Lemma f64_match_preserves (I : SimExchange -> Prop) :
  (forall ex rb rs bq sq,
     I ex -> buys ex = rb :: bq -> sells ex = rs :: sq ->
     I (match_body clock ex rb rs)) ->
  forall fuel ex ex', I ex -> _match clock fuel ex = Ok ex' -> I ex'.
Proof.
  intros Hstep fuel. induction fuel as [|n IH]; intros ex ex' HI; cbn.
  - destruct (match_iter clock ex) eqn:E; [done|]. by intros [= <-].
  - destruct (match_iter clock ex) as [ex1|] eqn:E; [|by intros [= <-]].
    apply f64_match_iter_Some in E as (rb & rs & bq & sq & Eb & Es & _ & ->).
    apply IH. by eapply Hstep.
Qed.

(** The loop is left only on a quiescent book. *)
Lemma f64_match_quiescent fuel ex ex' : _match clock fuel ex = Ok ex' -> quiescent ex'.
Proof.
  revert ex. induction fuel as [|n IH]; intros ex; cbn.
  - destruct (match_iter clock ex) eqn:E; [done|]. intros [= <-].
    by apply f64_match_iter_None.
  - destruct (match_iter clock ex) as [ex1|] eqn:E; [apply IH|].
    intros [= <-]. by apply f64_match_iter_None.
Qed.

(** The loop raises nothing. *)
Lemma f64_match_outcome fuel ex :
  _match clock fuel ex = Diverge \/ exists ex', _match clock fuel ex = Ok ex'.
Proof.
  revert ex. induction fuel as [|n IH]; intros ex; cbn.
  - destruct (match_iter clock ex); [by left | right; by eexists].
  - destruct (match_iter clock ex); [apply IH | right; by eexists].
Qed.

(** *** Well-formed queues *)

Lemma f64_tagged_lt h s q r : tagged h s q -> r ∈ q -> (r < length h)%nat.
Proof. intros H Hr. by destruct (proj1 (Forall_forall _ _) H r Hr). Qed.

Lemma f64_tagged_side h s q r : tagged h s q -> r ∈ q -> side (deref h r) = s.
Proof. intros H Hr. by destruct (proj1 (Forall_forall _ _) H r Hr). Qed.

Lemma f64_open_in h s q r : queue_wf h s q -> r ∈ q -> status (deref h r) = st_open.
Proof. intros [_ _ Ho] Hr. by apply (proj1 (Forall_forall _ _) Ho). Qed.

Lemma f64_book_wf_init : book_wf SimExchange_init.
Proof. split; split; cbn; constructor. Qed.

Lemma f64_heads_distinct ex rb rs bq sq :
  book_wf ex -> buys ex = rb :: bq -> sells ex = rs :: sq ->
  rb <> rs /\ (rb < length (heap ex))%nat /\ (rs < length (heap ex))%nat /\
  side (deref (heap ex) rb) = BUY /\ side (deref (heap ex) rs) = SELL /\
  status (deref (heap ex) rb) = st_open /\ status (deref (heap ex) rs) = st_open.
Proof.
  intros [Wb Ws] Eb Es.
  assert (Hb : rb ∈ buys ex) by (rewrite Eb; by left).
  assert (Hs : rs ∈ sells ex) by (rewrite Es; by left).
  pose proof (f64_tagged_side _ _ _ _ (qw_tagged _ _ _ Wb) Hb) as Sb.
  pose proof (f64_tagged_side _ _ _ _ (qw_tagged _ _ _ Ws) Hs) as Ss.
  split; [intros ->; congruence|].
  split; [by eapply f64_tagged_lt, Hb; apply Wb|].
  split; [by eapply f64_tagged_lt, Hs; apply Ws|].
  split; [done|]. split; [done|].
  split; [by apply (f64_open_in _ _ _ _ Wb) | by apply (f64_open_in _ _ _ _ Ws)].
Qed.

(** A change of the heap that keeps the created fields and leaves the
    orders of the queue open keeps the queue well-formed. *)
Lemma f64_queue_wf_static h h' s q :
  (length h <= length h')%nat ->
  (forall r, r ∈ q -> same_static (deref h r) (deref h' r)) ->
  (forall r, r ∈ q -> status (deref h' r) = st_open) ->
  queue_wf h s q -> queue_wf h' s q.
Proof.
  intros Hl Hst Hop [Ht Hn Ho]. split.
  - apply Forall_forall. intros r Hr. destruct (Hst r Hr) as (_ & Hside & _).
    split; [pose proof (f64_tagged_lt _ _ _ _ Ht Hr); lia|].
    rewrite <- Hside. by eapply f64_tagged_side.
  - done.
  - apply Forall_forall. auto.
Qed.

Lemma f64_queue_wf_delete h s l1 r l2 :
  queue_wf h s (l1 ++ r :: l2) -> queue_wf h s (l1 ++ l2) /\ r ∉ l1 ++ l2.
Proof.
  clear clock.
  intros [Ht Hn Ho].
  unfold tagged, all_open in Ht, Ho |- *.
  rewrite Forall_app, Forall_cons in Ht, Ho.
  apply NoDup_app in Hn as (Hn1 & Hn12 & Hn2).
  apply NoDup_cons in Hn2 as [Hr2 Hn2].
  split; [split|].
  - apply Forall_app. tauto.
  - apply NoDup_app. repeat split; try done.
    intros x Hx1 Hx2. apply (Hn12 x Hx1). by right.
  - apply Forall_app. tauto.
  - intros [H1|H2]%elem_of_app; [|done]. apply (Hn12 r H1). by left.
Qed.

Lemma f64_queue_wf_tail h s r q : queue_wf h s (r :: q) -> queue_wf h s q /\ r ∉ q.
Proof. apply (f64_queue_wf_delete h s [] r q). Qed.

(** Allocating an order leaves a queue well-formed. *)
Lemma f64_queue_wf_alloc h o s q : queue_wf h s q -> queue_wf (h ++ [o]) s q.
Proof.
  intros Hq. pose proof (qw_tagged _ _ _ Hq) as Ht.
  apply (f64_queue_wf_static h); [rewrite length_app; lia | | | done].
  - intros r Hr. rewrite f64_deref_app_l by (by eapply f64_tagged_lt). done.
  - intros r Hr. rewrite f64_deref_app_l by (by eapply f64_tagged_lt).
    by apply (f64_open_in _ _ _ _ Hq).
Qed.

(** Inserting a new open order, at any index, keeps its queue
    well-formed. *)
Lemma f64_queue_wf_insert h o q idx :
  queue_wf h (side o) q -> status o = st_open ->
  queue_wf (h ++ [o]) (side o) (deque_insert q idx (length h)).
Proof.
  intros Hq Hop.
  assert (Hfresh : length h ∉ q).
  { intros Hin. pose proof (f64_tagged_lt _ _ _ _ (qw_tagged _ _ _ Hq) Hin). lia. }
  apply (f64_queue_wf_alloc h o) in Hq. destruct Hq as [Ht Hn Ho].
  set (h' := h ++ [o]) in *.
  assert (Hnew : deref h' (length h) = o) by apply f64_deref_app_new.
  unfold deque_insert. split.
  - apply Forall_app. split; [by apply Forall_take|].
    apply Forall_cons. split; [|by apply Forall_drop].
    rewrite Hnew. split; [|done]. subst h'. rewrite length_app. cbn. lia.
  - rewrite <- Permutation_middle, take_drop. by apply NoDup_cons.
  - apply Forall_app. split; [by apply Forall_take|].
    apply Forall_cons. split; [|by apply Forall_drop]. by rewrite Hnew.
Qed.

(** *** Placing: allocation and [_insert] *)

Lemma f64_insert_new_eq ex cid sd p sz :
  let o := mkOrder cid sd p sz 0 st_open (clock (now ex)) in
  let h' := heap ex ++ [o] in
  _insert (new_Order clock ex cid sd p sz).2 (new_Order clock ex cid sd p sz).1 =
  set_book (mkSim h' (buys ex) (sells ex) (trades ex) (S (now ex))) sd
    (deque_insert (book ex sd) (insert_idx h' sd (book ex sd) p) (length (heap ex))).
Proof.
  intros o h'. unfold new_Order, _insert. cbn [fst snd heap].
  fold o. fold h'. subst h'. rewrite f64_deref_app_new. by destruct sd.
Qed.

Lemma f64_heap_set_book ex s q : heap (set_book ex s q) = heap ex.
Proof. by destruct s. Qed.

Lemma f64_trades_set_book ex s q : trades (set_book ex s q) = trades ex.
Proof. by destruct s. Qed.

Lemma f64_insert_new_heap ex cid sd p sz :
  heap (_insert (new_Order clock ex cid sd p sz).2 (new_Order clock ex cid sd p sz).1)
  = heap ex ++ [mkOrder cid sd p sz 0 st_open (clock (now ex))].
Proof. by rewrite f64_insert_new_eq, f64_heap_set_book. Qed.

Lemma f64_insert_new_trades ex cid sd p sz :
  trades (_insert (new_Order clock ex cid sd p sz).2 (new_Order clock ex cid sd p sz).1)
  = trades ex.
Proof. by rewrite f64_insert_new_eq, f64_trades_set_book. Qed.

Lemma f64_insert_new_book_wf ex cid sd p sz :
  book_wf ex ->
  book_wf (_insert (new_Order clock ex cid sd p sz).2 (new_Order clock ex cid sd p sz).1).
Proof.
  intros [Hb Hs]. rewrite f64_insert_new_eq.
  set (o := mkOrder cid sd p sz 0 st_open (clock (now ex))).
  destruct sd; split; cbn [set_book heap buys sells book].
  - by apply (f64_queue_wf_insert (heap ex) o (buys ex)).
  - by apply f64_queue_wf_alloc.
  - by apply f64_queue_wf_alloc.
  - by apply (f64_queue_wf_insert (heap ex) o (sells ex)).
Qed.

(** *** One iteration keeps the book well-formed *)

Lemma f64_match_body_book_wf ex rb rs bq sq :
  book_wf ex -> buys ex = rb :: bq -> sells ex = rs :: sq ->
  book_wf (match_body clock ex rb rs).
Proof.
  intros Hwf Eb Es.
  destruct (f64_heads_distinct _ _ _ _ _ Hwf Eb Es)
    as (Hne & Hb & Hs & Sb & Ss & Hob & Hos).
  destruct (f64_match_body_spec ex rb rs Hne Hb Hs)
    as (Hlen & Hdb & Hds & Hoth & Hbq & Hsq & _).
  destruct Hwf as [Wb Ws].
  assert (Hrs_b : rs ∉ buys ex).
  { intros Hin. pose proof (f64_tagged_side _ _ _ _ (qw_tagged _ _ _ Wb) Hin). congruence. }
  assert (Hrb_s : rb ∉ sells ex).
  { intros Hin. pose proof (f64_tagged_side _ _ _ _ (qw_tagged _ _ _ Ws) Hin). congruence. }
  split.
  - rewrite Hbq.
    destruct (size (deref (heap ex) rb) <=? _) eqn:Efb.
    + rewrite Eb in Wb |- *. cbn [tail].
      apply f64_queue_wf_tail in Wb as [Wb Hnin].
      apply (f64_queue_wf_static (heap ex)); [lia | | | done].
      * intros r _. apply f64_match_body_static.
      * intros r Hr. rewrite Hoth.
        -- by apply (f64_open_in _ _ _ _ Wb).
        -- intros ->. done.
        -- intros ->. apply Hrs_b. rewrite Eb. by right.
    + apply (f64_queue_wf_static (heap ex)); [lia | | | done].
      * intros r _. apply f64_match_body_static.
      * intros r Hr. destruct (decide (r = rb)) as [->|Hrb].
        -- by rewrite Hdb.
        -- rewrite Hoth; [|done|by intros ->]. by apply (f64_open_in _ _ _ _ Wb).
  - rewrite Hsq.
    destruct (size (deref (heap ex) rs) <=? _) eqn:Efs.
    + rewrite Es in Ws |- *. cbn [tail].
      apply f64_queue_wf_tail in Ws as [Ws Hnin].
      apply (f64_queue_wf_static (heap ex)); [lia | | | done].
      * intros r _. apply f64_match_body_static.
      * intros r Hr. rewrite Hoth.
        -- by apply (f64_open_in _ _ _ _ Ws).
        -- intros ->. apply Hrb_s. rewrite Es. by right.
        -- intros ->. done.
    + apply (f64_queue_wf_static (heap ex)); [lia | | | done].
      * intros r _. apply f64_match_body_static.
      * intros r Hr. destruct (decide (r = rs)) as [->|Hrs].
        -- by rewrite Hds.
        -- rewrite Hoth; [|by intros ->|done]. by apply (f64_open_in _ _ _ _ Ws).
Qed.


(** *** Cancelling *)

Lemma f64_Order_eq_true a b :
  Order_eq a b = true -> id a = id b /\ status a = status b.
Proof.
  unfold Order_eq. rewrite !andb_true_iff.
  intros ((((((Hid & _) & _) & _) & _) & Hst) & _).
  split; [by apply String.eqb_eq | by apply Status_eqb_eq].
Qed.

Lemma f64_open_valid h r : status (deref h r) = st_open -> (r < length h)%nat.
Proof.
  unfold deref. destruct (h !! r) eqn:E; [|done].
  intros _. by eapply lookup_lt_Some.
Qed.

Lemma f64_open_with_id_test h order_id r :
  String.eqb (id (deref h r)) order_id && Status_eqb (status (deref h r)) st_open = true
  <-> open_with_id h order_id r.
Proof. unfold open_with_id. by rewrite andb_true_iff, String.eqb_eq, Status_eqb_eq. Qed.

Lemma f64_find_open_Some h q order_id r :
  find_open h q order_id = Some r ->
  exists l1 l2, q = l1 ++ r :: l2 /\ open_with_id h order_id r /\
                Forall (fun x => ~ open_with_id h order_id x) l1.
Proof.
  unfold find_open. induction q as [|x q IH]; cbn; [done|].
  destruct (String.eqb _ _ && _) eqn:E.
  - intros [= ->]. exists [], q. split; [done|].
    split; [by apply f64_open_with_id_test | done].
  - intros (l1 & l2 & -> & Hr & Hl1)%IH. exists (x :: l1), l2.
    split; [done|]. split; [done|]. apply Forall_cons. split; [|done].
    intros H%f64_open_with_id_test. congruence.
Qed.

Lemma f64_find_open_None h q order_id :
  find_open h q order_id = None <-> Forall (fun x => ~ open_with_id h order_id x) q.
Proof.
  clear clock.
  unfold find_open. induction q as [|x q IH]; cbn; [by split|].
  rewrite Forall_cons. destruct (String.eqb _ _ && _) eqn:E.
  - apply f64_open_with_id_test in E. split; [done | tauto].
  - rewrite IH. split; [|tauto]. intros H. split; [|done].
    intros H'%f64_open_with_id_test. congruence.
Qed.

Lemma f64_deque_remove_first h l1 r l2 :
  Forall (fun x => x <> r /\ Order_eq (deref h x) (deref h r) = false) l1 ->
  deque_remove h (l1 ++ r :: l2) r = Ok (l1 ++ l2).
Proof.
  induction l1 as [|x l1 IH]; cbn.
  - intros _. by rewrite Nat.eqb_refl.
  - intros [[Hx Heq] Hl1]%Forall_cons.
    apply Nat.eqb_neq in Hx. rewrite Hx, Heq. cbn. by rewrite IH.
Qed.

(** [q.remove(o)] raises nothing when [o] is in [q]. *)
Lemma f64_deque_remove_total h q r : r ∈ q -> exists q', deque_remove h q r = Ok q'.
Proof.
  induction q as [|x q IH]; [by intros ?%elem_of_nil|].
  intros Hin. cbn. destruct (decide (x = r)) as [->|Hne].
  - rewrite Nat.eqb_refl. by eexists.
  - destruct (Nat.eqb x r || Order_eq _ _); [by eexists|].
    apply elem_of_cons in Hin as [->|Hin]; [done|].
    destruct (IH Hin) as [q' ->]. by eexists.
Qed.

(** [cancel] raises nothing, on any book. *)
Lemma f64_cancel_total ex order_id : exists ex', cancel ex order_id = Ok (tt, ex').
Proof.
  unfold cancel, cancel_in.
  destruct (find_open (heap ex) (book ex BUY) order_id) as [r|] eqn:Eb.
  - apply f64_find_open_Some in Eb as (l1 & l2 & Eq & _).
    destruct (f64_deque_remove_total (set_status (heap ex) r st_cancelled) (book ex BUY) r)
      as [q' ->]; [|by eexists].
    rewrite Eq. apply elem_of_app. right. by left.
  - destruct (find_open (heap ex) (book ex SELL) order_id) as [r|] eqn:Es; [|by eexists].
    apply f64_find_open_Some in Es as (l1 & l2 & Eq & _).
    destruct (f64_deque_remove_total (set_status (heap ex) r st_cancelled) (book ex SELL) r)
      as [q' ->]; [|by eexists].
    rewrite Eq. apply elem_of_app. right. by left.
Qed.

Lemma f64_cancel_in_first ex s order_id l1 r l2 :
  book ex s = l1 ++ r :: l2 ->
  open_with_id (heap ex) order_id r ->
  Forall (fun x => ~ open_with_id (heap ex) order_id x) l1 ->
  Forall (fun x => x <> r /\ status (deref (heap ex) x) = st_open) l1 ->
  cancel_in ex s order_id =
  Some (Ok (tt, set_book (set_heap ex (set_status (heap ex) r st_cancelled)) s (l1 ++ l2))).
Proof.
  intros Eq [Hid Hst] Hl1 Hl1'. unfold cancel_in.
  assert (find_open (heap ex) (book ex s) order_id = Some r) as ->.
  { rewrite Eq. unfold find_open. clear Hl1' Eq.
    induction l1 as [|x l1 IH]; cbn.
    - assert (open_with_id (heap ex) order_id r) as H%f64_open_with_id_test by done.
      by rewrite H.
    - apply Forall_cons in Hl1 as [Hx Hl1].
      destruct (String.eqb _ _ && _) eqn:E; [by apply f64_open_with_id_test in E|].
      by apply IH. }
  rewrite Eq. rewrite f64_deque_remove_first; [done|].
  pose proof (f64_open_valid _ _ Hst) as Hr.
  eapply Forall_impl; [exact Hl1'|]. intros x [Hx Hor]. split; [done|].
  rewrite f64_deref_set_status_ne by done. rewrite f64_deref_set_status_eq by done.
  destruct (Order_eq _ _) eqn:E; [|done].
  apply f64_Order_eq_true in E as [E1 E2]. cbn in E1, E2. congruence.
Qed.

Lemma f64_cancel_in_None ex s order_id :
  find_open (heap ex) (book ex s) order_id = None -> cancel_in ex s order_id = None.
Proof. unfold cancel_in. by intros ->. Qed.

Lemma f64_queue_wf_ahead h s l1 r l2 :
  queue_wf h s (l1 ++ r :: l2) ->
  Forall (fun x => x <> r /\ status (deref h x) = st_open) l1.
Proof.
  intros [_ Hn Ho]. apply Forall_forall. intros x Hx. split.
  - intros ->. apply NoDup_app in Hn as (_ & Hn & _). apply (Hn r Hx). by left.
  - apply (proj1 (Forall_forall _ _) Ho). apply elem_of_app. by left.
Qed.

(** What [cancel] does on a well-formed book. *)
Lemma f64_cancel_wf_spec ex order_id :
  book_wf ex ->
  (no_open_with_id ex order_id /\ cancel ex order_id = Ok (tt, ex)) \/
  (exists s l1 r l2,
     book ex s = l1 ++ r :: l2 /\ open_with_id (heap ex) order_id r /\
     cancel ex order_id =
     Ok (tt, set_book (set_heap ex (set_status (heap ex) r st_cancelled)) s (l1 ++ l2))).
Proof.
  intros [Wb Ws]. unfold cancel.
  destruct (find_open (heap ex) (buys ex) order_id) as [r|] eqn:Eb.
  - right. apply f64_find_open_Some in Eb as (l1 & l2 & Eq & Hr & Hl1).
    exists BUY, l1, r, l2. split; [done|]. split; [done|].
    rewrite (f64_cancel_in_first ex BUY order_id l1 r l2); try done.
    apply (f64_queue_wf_ahead _ BUY _ _ l2). by rewrite <- Eq.
  - rewrite (f64_cancel_in_None ex BUY) by done.
    destruct (find_open (heap ex) (sells ex) order_id) as [r|] eqn:Es.
    + right. apply f64_find_open_Some in Es as (l1 & l2 & Eq & Hr & Hl1).
      exists SELL, l1, r, l2. split; [done|]. split; [done|].
      rewrite (f64_cancel_in_first ex SELL order_id l1 r l2); try done.
      apply (f64_queue_wf_ahead _ SELL _ _ l2). by rewrite <- Eq.
    + rewrite (f64_cancel_in_None ex SELL) by done. by left.
Qed.

Lemma f64_cancel_queue_wf h s l1 r l2 :
  queue_wf h s (l1 ++ r :: l2) ->
  queue_wf (set_status h r st_cancelled) s (l1 ++ l2).
Proof.
  intros Hq. pose proof (qw_open _ _ _ Hq) as Ho.
  apply f64_queue_wf_delete in Hq as [Hq Hnin].
  apply (f64_queue_wf_static h); [by rewrite f64_length_set_status | | | done].
  - intros x _. apply f64_set_status_static.
  - intros x Hx. rewrite f64_deref_set_status_ne by (by intros ->).
    apply (proj1 (Forall_forall _ _) Ho).
    apply elem_of_app in Hx as [Hx|Hx]; apply elem_of_app; [by left|right; by right].
Qed.

Lemma f64_cancel_other_queue_wf h s s' q r :
  queue_wf h s' q -> side (deref h r) = s -> s <> s' ->
  queue_wf (set_status h r st_cancelled) s' q.
Proof.
  intros Hq Hside Hne.
  apply (f64_queue_wf_static h); [by rewrite f64_length_set_status | | | done].
  - intros x _. apply f64_set_status_static.
  - intros x Hx. rewrite f64_deref_set_status_ne.
    + by apply (f64_open_in _ _ _ _ Hq).
    + intros ->. pose proof (f64_tagged_side _ _ _ _ (qw_tagged _ _ _ Hq) Hx). congruence.
Qed.

Lemma f64_cancel_book_wf ex order_id ex' :
  book_wf ex -> cancel ex order_id = Ok (tt, ex') -> book_wf ex'.
Proof.
  intros Hwf Hc.
  destruct (f64_cancel_wf_spec ex order_id Hwf)
    as [[_ E] | (s & l1 & r & l2 & Eq & _ & E)];
    rewrite E in Hc; injection Hc as <-; [done|].
  destruct Hwf as [Wb Ws].
  assert (Hside : side (deref (heap ex) r) = s).
  { destruct s; cbn in Eq.
    - apply (f64_tagged_side _ _ _ _ (qw_tagged _ _ _ Wb)). rewrite Eq.
      apply elem_of_app. right. by left.
    - apply (f64_tagged_side _ _ _ _ (qw_tagged _ _ _ Ws)). rewrite Eq.
      apply elem_of_app. right. by left. }
  destruct s; cbn in Eq; split; cbn [set_book set_heap heap buys sells].
  - apply f64_cancel_queue_wf. by rewrite <- Eq.
  - by apply (f64_cancel_other_queue_wf _ BUY).
  - by apply (f64_cancel_other_queue_wf _ SELL).
  - apply f64_cancel_queue_wf. by rewrite <- Eq.
Qed.

(** *** Reachable books *)

Lemma f64_place_limit_eq fuel ex symbol sd p sz cid :
  place_limit clock fuel ex symbol sd p sz cid =
  ex3 ← _match clock fuel
          (_insert (new_Order clock ex cid sd p sz).2 (new_Order clock ex cid sd p sz).1);
  Ok (id (deref (heap ex3) (length (heap ex))), ex3).
Proof. reflexivity. Qed.

Lemma f64_run_place_inv fuel ex symbol sd p sz cid ex' :
  run clock fuel ex (CallPlace symbol sd p sz cid) = Ok ex' ->
  _match clock fuel
    (_insert (new_Order clock ex cid sd p sz).2 (new_Order clock ex cid sd p sz).1) = Ok ex'.
Proof.
  cbn. unfold place_limit. cbn.
  destruct (_match clock fuel _) as [ex3| |]; cbn; congruence.
Qed.

Lemma f64_run_cancel_inv fuel ex order_id ex' :
  run clock fuel ex (CallCancel order_id) = Ok ex' -> cancel ex order_id = Ok (tt, ex').
Proof.
  cbn. destruct (cancel ex order_id) as [[[] ex1]| |]; cbn; congruence.
Qed.



Lemma f64_reachable_weaken (P : float -> float -> Prop) ex :
  reachable_by clock P ex -> reachable clock ex.
Proof.
  induction 1 as [|ex c fuel ex' _ IH Hok Hrun]; [apply reach_init|].
  eapply reach_call; [exact IH | | exact Hrun]. by destruct c.
Qed.


(** A run of calls is a path of reachable books. *)
Lemma f64_run_calls_reachable P fuel cs :
  forall ex ex',
    reachable_by clock P ex -> Forall (call_ok P) cs ->
    run_calls clock fuel ex cs = Ok ex' -> reachable_by clock P ex'.
Proof.
  induction cs as [|c cs IH]; intros ex ex' Hr Hok; cbn.
  - by intros [= <-].
  - apply Forall_cons in Hok as [Hc Hok].
    destruct (run clock fuel ex c) as [ex1| |] eqn:E; cbn; [|done..].
    apply IH; [|done]. by eapply reach_call.
Qed.

(** *** Price priority, when no price is NaN *)

Lemma f64_better_eq_refl s p : is_nan p = false -> better_eq s p p.
Proof. destruct s; cbn; apply leb_refl. Qed.

Lemma f64_better_eq_trans s p1 p2 p3 :
  better_eq s p1 p2 -> better_eq s p2 p3 -> better_eq s p1 p3.
Proof.
  destruct s; cbn; intros H1 H2.
  - by apply (leb_trans p3 p2 p1).
  - by apply (leb_trans p1 p2 p3).
Qed.

Lemma f64_cmp_strict s p0 p : cmp s p0 p = true <-> strictly_better s p0 p.
Proof. by destruct s. Qed.

Lemma f64_cmp_true s p0 p : cmp s p0 p = true -> better_eq s p0 p.
Proof. destruct s; cbn; apply ltb_leb. Qed.

Lemma f64_cmp_false s p0 p :
  is_nan p0 = false -> is_nan p = false -> cmp s p0 p = false -> better_eq s p p0.
Proof.
  destruct s; cbn; intros H0 Hp H.
  - by apply ltb_total.
  - by apply ltb_total.
Qed.

Lemma f64_number_in h r :
  number_prices h -> (r < length h)%nat -> is_nan (price (deref h r)) = false.
Proof.
  intros Hn Hr. apply (proj1 (Forall_forall _ _) Hn). by apply f64_deref_elem.
Qed.

Lemma f64_prices_static h h' q :
  (forall r, r ∈ q -> same_static (deref h r) (deref h' r)) ->
  prices h' q = prices h q.
Proof.
  intros Hst. unfold prices. apply list_fmap_ext. intros i r Hi.
  destruct (Hst r) as (_ & _ & Hp & _); [by eapply list_elem_of_lookup_2|done].
Qed.

Lemma f64_sorted_static h h' s q :
  (forall r, r ∈ q -> same_static (deref h r) (deref h' r)) ->
  sorted h s q -> sorted h' s q.
Proof. intros Hst. unfold sorted. by rewrite (f64_prices_static h h'). Qed.

(** Dropping one element keeps a queue in price priority. *)
Lemma f64_sorted_delete h s l1 r l2 :
  sorted h s (l1 ++ r :: l2) -> sorted h s (l1 ++ l2).
Proof.
  unfold sorted, prices. rewrite !fmap_app, fmap_cons, !StronglySorted_app.
  intros (H12 & H1 & H2). apply StronglySorted_cons in H2 as [_ H2].
  repeat split; try done. intros x1 x2 Hx1 Hx2. apply H12; [done|]. by right.
Qed.

(** The index found by the scan of [_insert] keeps a queue without NaN
    prices in price priority. *)
Lemma f64_sorted_insert h s q p :
  is_nan p = false ->
  Forall (fun r => is_nan (price (deref h r)) = false) q ->
  StronglySorted (better_eq s) (prices h q) ->
  StronglySorted (better_eq s)
    (prices h (take (insert_idx h s q p) q) ++ p :: prices h (drop (insert_idx h s q p) q)).
Proof.
  intros Hp. induction q as [|r0 q IH]; cbn.
  - intros _ _. repeat constructor.
  - intros [Hn0 Hn]%Forall_cons [Hr0 Hq]%StronglySorted_cons.
    destruct (cmp s (price (deref h r0)) p) eqn:E; cbn.
    + apply StronglySorted_cons. split; [|by apply IH].
      apply Forall_app. split; [|apply Forall_cons; split].
      * unfold prices. rewrite fmap_take. by apply Forall_take.
      * by apply f64_cmp_true.
      * unfold prices. rewrite fmap_drop. by apply Forall_drop.
    + apply f64_cmp_false in E; [|done..].
      apply StronglySorted_cons. split.
      * apply Forall_cons. split; [done|].
        eapply Forall_impl; [exact Hr0|]. intros x Hx. cbn in Hx.
        by eapply f64_better_eq_trans.
      * apply StronglySorted_cons. by split.
Qed.

(** The head of a queue in price priority has the best price of it. *)
Lemma f64_sorted_head_best h s r q r' :
  is_nan (price (deref h r)) = false ->
  sorted h s (r :: q) -> r' ∈ r :: q ->
  better_eq s (price (deref h r)) (price (deref h r')).
Proof.
  unfold sorted. cbn. intros Hn [Hr _]%StronglySorted_cons Hin.
  apply elem_of_cons in Hin as [-> | Hin].
  - by apply f64_better_eq_refl.
  - rewrite Forall_forall in Hr. apply Hr. unfold prices.
    apply list_elem_of_fmap. by exists r'.
Qed.

Lemma f64_book_sorted_init : book_sorted SimExchange_init.
Proof.
  split; [apply f64_book_wf_init|]. split; [constructor|].
  split; constructor.
Qed.

Lemma f64_queue_numbers h s q :
  number_prices h -> queue_wf h s q ->
  Forall (fun r => is_nan (price (deref h r)) = false) q.
Proof.
  intros Hn Hq. apply Forall_forall. intros r Hr.
  apply f64_number_in; [done|]. by eapply f64_tagged_lt, Hr; apply Hq.
Qed.

(** [_insert] of a new order whose price is a number keeps the queues in
    price priority. *)
Lemma f64_insert_new_book_sorted ex cid sd p sz :
  book_sorted ex -> is_nan p = false ->
  book_sorted (_insert (new_Order clock ex cid sd p sz).2 (new_Order clock ex cid sd p sz).1).
Proof.
  intros (Hwf & Hn & Sb & Ss) Hp.
  split; [by apply f64_insert_new_book_wf|].
  rewrite f64_insert_new_eq.
  set (o := mkOrder cid sd p sz 0 st_open (clock (now ex))).
  set (h' := heap ex ++ [o]).
  assert (Hn' : number_prices h').
  { apply Forall_app. split; [done|]. by apply Forall_singleton. }
  destruct Hwf as [Wb Ws].
  assert (Hst : forall s q, queue_wf (heap ex) s q ->
            forall r, r ∈ q -> same_static (deref (heap ex) r) (deref h' r)).
  { intros s q Wq r Hr. subst h'. rewrite f64_deref_app_l; [apply f64_same_static_refl|].
    by eapply f64_tagged_lt, Hr; apply Wq. }
  assert (Hins : forall s q, queue_wf (heap ex) s q -> sorted (heap ex) s q ->
            side o = s ->
            sorted h' s (deque_insert q (insert_idx h' s q p) (length (heap ex)))).
  { intros s q Wq Sq Hs.
    pose proof (f64_sorted_static _ h' _ _ (Hst s q Wq) Sq) as Sq'.
    pose proof (f64_queue_numbers h' s q Hn' (f64_queue_wf_alloc _ o _ _ Wq)) as Nq.
    unfold sorted, prices, deque_insert. rewrite fmap_app, fmap_cons.
    subst h'. rewrite f64_deref_app_new. by apply f64_sorted_insert. }
  rewrite f64_heap_set_book. cbn [heap]. fold h'. split; [done|].
  destruct sd; cbn [set_book buys sells book heap]; split.
  - by apply (Hins BUY).
  - by apply (f64_sorted_static (heap ex)), Ss; apply (Hst SELL).
  - by apply (f64_sorted_static (heap ex)), Sb; apply (Hst BUY).
  - by apply (Hins SELL).
Qed.

Lemma f64_number_prices_static h h' :
  length h' = length h ->
  (forall r, same_static (deref h r) (deref h' r)) ->
  number_prices h -> number_prices h'.
Proof.
  intros Hl Hst Hn. apply Forall_forall. intros o Ho.
  apply list_elem_of_lookup_1 in Ho as [r Hr].
  pose proof (lookup_lt_Some _ _ _ Hr) as Hlt.
  rewrite <- (f64_deref_lookup _ _ _ Hr).
  destruct (Hst r) as (_ & _ & <- & _). apply f64_number_in; [done | lia].
Qed.

Lemma f64_sorted_tail h s q : sorted h s q -> sorted h s (tail q).
Proof.
  destruct q as [|r q]; [done|]. cbn. apply (f64_sorted_delete h s [] r q).
Qed.

Lemma f64_match_body_book_sorted ex rb rs bq sq :
  book_sorted ex -> buys ex = rb :: bq -> sells ex = rs :: sq ->
  book_sorted (match_body clock ex rb rs).
Proof.
  intros (Hwf & Hn & Sb & Ss) Eb Es.
  split; [by eapply f64_match_body_book_wf|].
  split.
  { apply (f64_number_prices_static (heap ex)); [apply f64_match_body_length | | done].
    intros r. apply f64_match_body_static. }
  destruct (f64_heads_distinct _ _ _ _ _ Hwf Eb Es) as (Hne & Hb & Hs & _).
  destruct (f64_match_body_spec ex rb rs Hne Hb Hs) as (_ & _ & _ & _ & Hbq & Hsq & _).
  split.
  - apply (f64_sorted_static (heap ex)); [intros r _; apply f64_match_body_static|].
    rewrite Hbq. destruct (size (deref (heap ex) rb) <=? _); [by apply f64_sorted_tail | done].
  - apply (f64_sorted_static (heap ex)); [intros r _; apply f64_match_body_static|].
    rewrite Hsq. destruct (size (deref (heap ex) rs) <=? _); [by apply f64_sorted_tail | done].
Qed.

Lemma f64_cancel_book_sorted ex order_id ex' :
  book_sorted ex -> cancel ex order_id = Ok (tt, ex') -> book_sorted ex'.
Proof.
  intros (Hwf & Hn & Sb & Ss) Hc.
  split; [by eapply f64_cancel_book_wf|].
  destruct (f64_cancel_wf_spec ex order_id Hwf)
    as [[_ E] | (s & l1 & r & l2 & Eq & _ & E)];
    rewrite E in Hc; injection Hc as <-; [done|].
  rewrite f64_heap_set_book. cbn [set_heap heap]. split.
  { apply (f64_number_prices_static (heap ex)); [apply f64_length_set_status | | done].
    intros x. apply f64_set_status_static. }
  destruct s; cbn in Eq; cbn [set_book set_heap heap buys sells]; split;
    (apply (f64_sorted_static (heap ex)); [intros x _; apply f64_set_status_static|]);
    try done.
  - rewrite Eq in Sb. by eapply f64_sorted_delete.
  - rewrite Eq in Ss. by eapply f64_sorted_delete.
Qed.

(** *** No cross between calls *)

Lemma f64_head_after_delete h s l1 r l2 x q' :
  Forall (fun y => is_nan (price (deref h y)) = false) (l1 ++ r :: l2) ->
  sorted h s (l1 ++ r :: l2) -> l1 ++ l2 = x :: q' ->
  exists y q, l1 ++ r :: l2 = y :: q /\
              better_eq s (price (deref h y)) (price (deref h x)).
Proof.
  intros Hn Hs Eq. destruct l1 as [|y l1]; cbn in Hn, Hs, Eq |- *.
  - subst l2. exists r, (x :: q'). split; [done|].
    apply Forall_cons in Hn as [Hr _].
    apply (f64_sorted_head_best h s r (x :: q')); [done|done|]. right. by left.
  - injection Eq as -> Eq. exists x, (l1 ++ r :: l2). split; [done|].
    apply Forall_cons in Hn as [Hx _]. by apply f64_better_eq_refl.
Qed.

(** Removing an order from a queue in price priority cannot bring a
    cross. *)
Lemma f64_cancel_quiescent ex order_id ex' :
  book_sorted ex -> quiescent ex -> cancel ex order_id = Ok (tt, ex') -> quiescent ex'.
Proof.
  clear clock.
  intros (Hwf & Hn & Sb & Ss) Hq Hc.
  destruct (f64_cancel_wf_spec ex order_id Hwf)
    as [[_ E] | (s & l1 & r & l2 & Eq & _ & E)];
    rewrite E in Hc; injection Hc as <-; [done|].
  destruct Hwf as [Wb Ws].
  pose proof (f64_queue_numbers _ _ _ Hn Wb) as Nb.
  pose proof (f64_queue_numbers _ _ _ Hn Ws) as Ns.
  assert (Hp : forall x, price (deref (set_status (heap ex) r st_cancelled) x)
                         = price (deref (heap ex) x)).
  { intros x. by destruct (f64_set_status_static (heap ex) r st_cancelled x)
      as (_ & _ & -> & _). }
  unfold quiescent in Hq |- *.
  destruct s; cbn in Eq; cbn [set_book set_heap heap buys sells].
  - destruct (l1 ++ l2) as [|x q'] eqn:Eq'; [done|].
    destruct (sells ex) as [|rs sq]; [done|].
    rewrite !Hp. rewrite Eq in Sb, Nb.
    destruct (f64_head_after_delete _ _ _ _ _ _ _ Nb Sb Eq') as (y & q & Ey & Hy).
    rewrite Eq, Ey in Hq. cbn in Hy. by eapply leb_ltb_trans.
  - destruct (buys ex) as [|rb bq]; [done|].
    destruct (l1 ++ l2) as [|x q'] eqn:Eq'; [done|].
    rewrite !Hp. rewrite Eq in Ss, Ns.
    destruct (f64_head_after_delete _ _ _ _ _ _ _ Ns Ss Eq') as (y & q & Ey & Hy).
    rewrite Eq, Ey in Hq. cbn in Hy. by eapply ltb_leb_trans.
Qed.

Lemma f64_run_book_sorted fuel ex c ex' :
  book_sorted ex -> quiescent ex -> call_ok number_price c ->
  run clock fuel ex c = Ok ex' -> book_sorted ex' /\ quiescent ex'.
Proof.
  intros Hs Hq Hok Hrun. destruct c as [symbol sd p sz cid | order_id].
  - apply f64_run_place_inv in Hrun. split; [|by eapply f64_match_quiescent].
    revert Hrun. apply (f64_match_preserves book_sorted).
    + intros. by eapply f64_match_body_book_sorted.
    + by apply f64_insert_new_book_sorted.
  - apply f64_run_cancel_inv in Hrun. split.
    + by eapply f64_cancel_book_sorted.
    + by eapply f64_cancel_quiescent.
Qed.

(** When no order is placed with a NaN price, the book between two calls
    is in price priority and has no cross. *)
Lemma f64_reachable_book_sorted ex :
  reachable_by clock number_price ex -> book_sorted ex /\ quiescent ex.
Proof.
  induction 1 as [|ex c fuel ex' _ [IH1 IH2] Hok Hrun].
  - split; [apply f64_book_sorted_init | done].
  - by eapply f64_run_book_sorted.
Qed.

(** *** Placing an order that does not cross *)

(** [place_limit] on a book that is quiescent once the order is inserted:
    the loop of [_match] is left at its first test, whatever the fuel. *)
Lemma f64_place_limit_quiescent fuel ex symbol sd p sz cid :
  quiescent (_insert (new_Order clock ex cid sd p sz).2 (new_Order clock ex cid sd p sz).1) ->
  place_limit clock fuel ex symbol sd p sz cid =
  Ok (cid, _insert (new_Order clock ex cid sd p sz).2 (new_Order clock ex cid sd p sz).1).
Proof.
  intros Hnc%f64_match_iter_None. rewrite f64_place_limit_eq.
  assert (_match clock fuel
            (_insert (new_Order clock ex cid sd p sz).2 (new_Order clock ex cid sd p sz).1)
          = Ok (_insert (new_Order clock ex cid sd p sz).2 (new_Order clock ex cid sd p sz).1))
    as ->.
  { destruct fuel; cbn [_match]; by rewrite Hnc. }
  cbn -[_insert new_Order]. rewrite f64_insert_new_heap.
  by rewrite f64_deref_app_new.
Qed.

(** A placement that does not cross, on a well-formed quiescent book. *)
Lemma f64_passive_place fuel ex symbol sd p sz cid :
  book_wf ex -> quiescent ex ->
  match sd with
  | BUY => forall rs sq, sells ex = rs :: sq -> (p <? price (deref (heap ex) rs)) = true
  | SELL => forall rb bq, buys ex = rb :: bq -> (price (deref (heap ex) rb) <? p) = true
  end ->
  exists ex',
    ex' = _insert (new_Order clock ex cid sd p sz).2 (new_Order clock ex cid sd p sz).1 /\
    place_limit clock fuel ex symbol sd p sz cid = Ok (cid, ex') /\
    quiescent ex' /\
    trades ex' = trades ex /\
    heap ex' = heap ex ++ [mkOrder cid sd p sz 0 st_open (clock (now ex))] /\
    length (heap ex) ∈ book ex' sd /\
    match sd with
    | BUY => sells ex' = sells ex
    | SELL => buys ex' = buys ex
    end.
Proof.
  intros [Wb Ws] Hnc Hp.
  set (o := mkOrder cid sd p sz 0 st_open (clock (now ex))).
  set (h' := heap ex ++ [o]).
  assert (Hsb : forall x, x ∈ buys ex -> deref h' x = deref (heap ex) x).
  { intros x Hx. apply f64_deref_app_l. by eapply f64_tagged_lt, Hx; apply Wb. }
  assert (Hss : forall x, x ∈ sells ex -> deref h' x = deref (heap ex) x).
  { intros x Hx. apply f64_deref_app_l. by eapply f64_tagged_lt, Hx; apply Ws. }
  assert (Hq : quiescent
    (_insert (new_Order clock ex cid sd p sz).2 (new_Order clock ex cid sd p sz).1)).
  { rewrite f64_insert_new_eq. fold o h'. unfold quiescent in Hnc |- *.
    destruct sd; cbn [set_book heap buys sells book].
    + destruct (deque_insert (buys ex) _ _) as [|y q'] eqn:Ei; [done|].
      destruct (sells ex) as [|rs sq] eqn:Es; [done|].
      rewrite (Hss rs) by (by left). specialize (Hp rs sq eq_refl).
      apply deque_insert_head in Ei as [-> | [q0 Eb]].
      * subst h'. by rewrite f64_deref_app_new.
      * rewrite Eb in Hnc, Hsb. rewrite (Hsb y) by (by left). done.
    + destruct (buys ex) as [|rb bq] eqn:Eb; [done|].
      destruct (deque_insert (sells ex) _ _) as [|y q'] eqn:Ei; [done|].
      rewrite (Hsb rb) by (by left). specialize (Hp rb bq eq_refl).
      apply deque_insert_head in Ei as [-> | [q0 Es]].
      * subst h'. by rewrite f64_deref_app_new.
      * rewrite Es in Hnc, Hss. rewrite (Hss y) by (by left). done. }
  eexists. split; [reflexivity|]. split; [by apply f64_place_limit_quiescent|].
  split; [done|].
  rewrite f64_insert_new_eq. fold o h'.
  destruct sd; cbn [set_book heap buys sells book trades];
    (split; [done|]); (split; [done|]); (split; [|done]);
    apply elem_of_deque_insert; by left.
Qed.

(** *** The spoofing cycle on the simulated book *)

Lemma f64_layered_quiescent B ex : layered B ex -> quiescent ex.
Proof.
  intros (_ & _ & Hb & Hs). unfold quiescent.
  destruct (buys ex) as [|rb bq]; [done|]. destruct (sells ex) as [|rs sq]; [done|].
  apply Forall_cons in Hb as [Hb _]. apply Forall_cons in Hs as [Hs _].
  by rewrite Hs.
Qed.

Lemma f64_ids_alloc h o q : allocated h q -> ids (h ++ [o]) q = ids h q.
Proof.
  intros Ha. unfold ids. apply list_fmap_ext. intros i r Hi.
  rewrite f64_deref_app_l; [done|].
  apply (proj1 (Forall_forall _ _) Ha). by eapply list_elem_of_lookup_2.
Qed.

Lemma f64_ids_set_status h r st q : ids (set_status h r st) q = ids h q.
Proof.
  unfold ids. apply list_fmap_ext. intros i x _.
  by destruct (f64_set_status_static h r st x) as (<- & _).
Qed.

Lemma f64_tagged_allocated h s q : tagged h s q -> allocated h q.
Proof. intros H. eapply Forall_impl; [exact H|]. by intros r [? _]. Qed.

Lemma f64_layered_place_buy fuel B ex symbol px sz cid :
  layered B ex -> (px <? B) = true ->
  exists ex',
    place_limit clock fuel ex symbol BUY px sz cid = Ok (cid, ex') /\
    layered B ex' /\ sells ex' = sells ex /\
    ids (heap ex') (buys ex') ≡ₚ cid :: ids (heap ex) (buys ex).
Proof.
  intros Hl Hpx. pose proof (f64_layered_quiescent _ _ Hl) as Hnc.
  destruct Hl as (Hwf & Htr & Hb & Hs).
  destruct (f64_passive_place fuel ex symbol BUY px sz cid Hwf Hnc)
    as (ex' & -> & Hp & _ & Htr' & Hh & _ & Hsells).
  { intros rs sq E. rewrite E in Hs. apply Forall_cons in Hs as [-> _]. done. }
  eexists. split; [exact Hp|].
  pose proof (f64_insert_new_book_wf ex cid BUY px sz Hwf) as Hwf'.
  revert Hwf' Htr' Hh Hsells. rewrite f64_insert_new_eq.
  cbn [set_book heap buys sells trades].
  intros Hwf' Htr' _ _.
  set (o := mkOrder cid BUY px sz 0 st_open (clock (now ex))) in *.
  destruct Hwf as [Wb Ws].
  pose proof (f64_tagged_allocated _ _ _ (qw_tagged _ _ _ Wb)) as Ab.
  pose proof (f64_tagged_allocated _ _ _ (qw_tagged _ _ _ Ws)) as As.
  split; [|split; [done|]].
  - split; [done|]. split; [exact Htr|]. cbn [heap buys sells]. split.
    + apply Forall_forall. intros x [->|Hx]%elem_of_deque_insert.
      * by rewrite f64_deref_app_new.
      * rewrite f64_deref_app_l by (by apply (proj1 (Forall_forall _ _) Ab)).
        by apply (proj1 (Forall_forall _ _) Hb).
    + apply Forall_forall. intros x Hx.
      rewrite f64_deref_app_l by (by apply (proj1 (Forall_forall _ _) As)).
      by apply (proj1 (Forall_forall _ _) Hs).
  - rewrite <- (f64_ids_alloc _ o _ Ab).
    unfold deque_insert, ids. rewrite fmap_app, fmap_cons, f64_deref_app_new. cbn [id].
    rewrite <- Permutation_middle. apply Permutation_skip.
    by rewrite <- fmap_app, take_drop.
Qed.

Lemma f64_layered_place_sell fuel B ex symbol sz cid :
  layered B ex ->
  exists ex',
    place_limit clock fuel ex symbol SELL B sz cid = Ok (cid, ex') /\
    layered B ex' /\ length (sells ex') = S (length (sells ex)) /\
    ids (heap ex') (buys ex') = ids (heap ex) (buys ex).
Proof.
  intros Hl. pose proof (f64_layered_quiescent _ _ Hl) as Hnc.
  destruct Hl as (Hwf & Htr & Hb & Hs).
  destruct (f64_passive_place fuel ex symbol SELL B sz cid Hwf Hnc)
    as (ex' & -> & Hp & _ & Htr' & _).
  { intros rb bq E. rewrite E in Hb. by apply Forall_cons in Hb as [? _]. }
  eexists. split; [exact Hp|].
  pose proof (f64_insert_new_book_wf ex cid SELL B sz Hwf) as Hwf'.
  revert Hwf' Htr'. rewrite f64_insert_new_eq. cbn [set_book heap buys sells trades].
  intros Hwf' Htr'.
  set (o := mkOrder cid SELL B sz 0 st_open (clock (now ex))) in *.
  destruct Hwf as [Wb Ws].
  pose proof (f64_tagged_allocated _ _ _ (qw_tagged _ _ _ Wb)) as Ab.
  pose proof (f64_tagged_allocated _ _ _ (qw_tagged _ _ _ Ws)) as As.
  split; [|split].
  - split; [done|]. split; [exact Htr|]. cbn [heap buys sells]. split.
    + apply Forall_forall. intros x Hx.
      rewrite f64_deref_app_l by (by apply (proj1 (Forall_forall _ _) Ab)).
      by apply (proj1 (Forall_forall _ _) Hb).
    + apply Forall_forall. intros x [->|Hx]%elem_of_deque_insert.
      * by rewrite f64_deref_app_new.
      * rewrite f64_deref_app_l by (by apply (proj1 (Forall_forall _ _) As)).
        by apply (proj1 (Forall_forall _ _) Hs).
  - unfold deque_insert. rewrite length_app. cbn [length].
    rewrite length_take, length_drop. cbn [book]. lia.
  - by apply f64_ids_alloc.
Qed.

Lemma f64_cancel_resting_buy ex order_id :
  book_wf ex -> order_id ∈ ids (heap ex) (buys ex) ->
  exists l1 r l2,
    buys ex = l1 ++ r :: l2 /\ id (deref (heap ex) r) = order_id /\
    cancel ex order_id =
    Ok (tt, set_book (set_heap ex (set_status (heap ex) r st_cancelled)) BUY (l1 ++ l2)).
Proof.
  intros [Wb Ws] Hin. unfold cancel.
  destruct (find_open (heap ex) (buys ex) order_id) as [r|] eqn:Eb.
  - apply f64_find_open_Some in Eb as (l1 & l2 & Eq & Hop & Hl1).
    exists l1, r, l2. split; [done|]. split; [apply Hop|].
    rewrite (f64_cancel_in_first ex BUY order_id l1 r l2); try done.
    apply (f64_queue_wf_ahead _ BUY _ _ l2). by rewrite <- Eq.
  - exfalso. apply f64_find_open_None in Eb.
    apply list_elem_of_fmap in Hin as (x & Hid & Hx).
    apply (proj1 (Forall_forall _ _) Eb x Hx). split; [done|].
    by apply (f64_open_in _ _ _ _ Wb).
Qed.

Lemma f64_gather_cancel_sim B l :
  forall ex,
    layered B ex -> ids (heap ex) (buys ex) ≡ₚ l ->
    exists ex',
      gather_cancel ex l = Ok (tt, ex') /\
      layered B ex' /\ buys ex' = [] /\ length (sells ex') = length (sells ex).
Proof.
  induction l as [|order_id l IH]; intros ex Hl Hp.
  - exists ex. split; [done|]. split; [done|]. split; [|done].
    apply Permutation_nil_r in Hp. unfold ids in Hp. by apply fmap_nil_inv in Hp.
  - destruct Hl as (Hwf & Htr & Hb & Hs).
    assert (Hin : order_id ∈ ids (heap ex) (buys ex)) by (rewrite Hp; by left).
    destruct (f64_cancel_resting_buy ex order_id Hwf Hin) as (l1 & r & l2 & Eq & Hid & Hc).
    set (ex1 := set_book (set_heap ex (set_status (heap ex) r st_cancelled)) BUY (l1 ++ l2)) in *.
    assert (Hl1 : layered B ex1).
    { split; [by eapply f64_cancel_book_wf|]. split; [done|].
      assert (Hpr : forall x, price (deref (set_status (heap ex) r st_cancelled) x)
                               = price (deref (heap ex) x)).
      { intros x. by destruct (f64_set_status_static (heap ex) r st_cancelled x)
          as (_ & _ & -> & _). }
      cbn [ex1 set_book set_heap heap buys sells]. split.
      - rewrite Eq in Hb. apply Forall_app in Hb as [Hb1 Hb2].
        apply Forall_cons in Hb2 as [_ Hb2].
        apply Forall_app. split; (eapply Forall_impl; [eassumption|]);
          intros x Hx; by rewrite Hpr.
      - eapply Forall_impl; [exact Hs|]. intros x Hx. by rewrite Hpr. }
    assert (Hp1 : ids (heap ex1) (buys ex1) ≡ₚ l).
    { cbn [ex1 set_book set_heap heap buys]. rewrite f64_ids_set_status.
      rewrite Eq in Hp. unfold ids in Hp |- *.
      rewrite fmap_app, fmap_cons, Hid in Hp. rewrite fmap_app.
      symmetry. eapply Permutation_cons_app_inv. by symmetry. }
    destruct (IH ex1 Hl1 Hp1) as (ex' & Hg & Hl' & Hb' & Hs').
    exists ex'. cbn [gather_cancel]. rewrite Hc.
    cbn [mbind outcome_bind snd]. fold ex1. by rewrite Hg.
Qed.

Lemma f64_gather_cancel_outcome l :
  forall ex, exists ex', gather_cancel ex l = Ok (tt, ex').
Proof.
  induction l as [|order_id l IH]; intros ex; [by eexists|].
  cbn [gather_cancel].
  destruct (f64_cancel_total ex order_id) as [ex1 ->].
  cbn [mbind outcome_bind snd]. apply IH.
Qed.

Lemma f64_place_limit_outcome fuel ex symbol sd p sz cid :
  place_limit clock fuel ex symbol sd p sz cid = Diverge \/
  exists oid ex', place_limit clock fuel ex symbol sd p sz cid = Ok (oid, ex').
Proof.
  rewrite f64_place_limit_eq.
  destruct (f64_match_outcome fuel
              (_insert (new_Order clock ex cid sd p sz).2 (new_Order clock ex cid sd p sz).1))
    as [-> | [ex' ->]]; [by left|]. right. by eexists _, _.
Qed.

Section Cycle.

Variable uuid4_hex : nat -> string.

Lemma f64_spoof_layers_sim fuel symbol B price_offset layer_size n :
  forall i ex u acc,
    (forall j, (i <= j < i + n)%nat ->
       (B - price_offset * of_int (Z.of_nat j + 1) <? B) = true) ->
    layered B ex ->
    exists ex' new,
      spoof_layers clock uuid4_hex fuel symbol B price_offset layer_size n i (ex, u) acc
        = Ok (acc ++ new, (ex', (u + n)%nat)) /\
      layered B ex' /\ sells ex' = sells ex /\
      ids (heap ex') (buys ex') ≡ₚ new ++ ids (heap ex) (buys ex).
Proof.
  induction n as [|n IH]; intros i ex u acc Hoff Hl.
  - exists ex, []. cbn. rewrite app_nil_r, Nat.add_0_r. done.
  - cbn [spoof_layers fst snd].
    set (px := B - price_offset * of_int (Z.of_nat i + 1)).
    set (cid := ("sp_bid_" ++ substring 0 8 (uuid4_hex u))%string).
    assert (Hpx : (px <? B) = true) by (apply Hoff; lia).
    destruct (f64_layered_place_buy fuel B ex symbol px layer_size cid Hl Hpx)
      as (ex1 & Hp & Hl1 & Hs1 & Hi1).
    rewrite Hp. cbn [mbind outcome_bind fst snd].
    destruct (IH (S i) ex1 (S u) (acc ++ [cid])) as (ex' & new & Hr & Hl' & Hs' & Hi');
      [intros j Hj; apply Hoff; lia | done |].
    exists ex', (cid :: new). rewrite Hr. split.
    + rewrite <- app_assoc. cbn. do 3 f_equal. lia.
    + split; [done|]. split; [congruence|].
      rewrite Hi', Hi1. cbn. by rewrite Permutation_middle.
Qed.

Lemma f64_spoof_layers_outcome fuel symbol B price_offset layer_size n :
  forall i ex u acc,
    spoof_layers clock uuid4_hex fuel symbol B price_offset layer_size n i (ex, u) acc
      = Diverge \/
    exists l ex' u',
      spoof_layers clock uuid4_hex fuel symbol B price_offset layer_size n i (ex, u) acc
        = Ok (l, (ex', u')).
Proof.
  induction n as [|n IH]; intros i ex u acc.
  - right. by eexists _, _, _.
  - cbn [spoof_layers fst snd].
    destruct (f64_place_limit_outcome fuel ex symbol BUY
                (B - price_offset * of_int (Z.of_nat i + 1)) layer_size
                ("sp_bid_" ++ substring 0 8 (uuid4_hex u))%string)
      as [-> | (oid & ex' & ->)]; [by left|].
    cbn [mbind outcome_bind fst snd]. apply IH.
Qed.

Lemma f64_spoof_cycle_sim fuel ex u symbol layers layer_size price_offset hold exec_delay :
  (forall i, (i < Z.to_nat layers)%nat ->
     (49999.5 - price_offset * of_int (Z.of_nat i + 1) <? 49999.5) = true) ->
  layered 49999.5 ex -> buys ex = [] ->
  exists ex' u',
    spoof_cycle clock uuid4_hex fuel (ex, u) symbol layers layer_size price_offset
      hold exec_delay = Ok (tt, (ex', u')) /\
    layered 49999.5 ex' /\ buys ex' = [] /\
    length (sells ex') = S (length (sells ex)).
Proof.
  intros Hoff Hl Hb. unfold spoof_cycle. cbn [fst snd].
  unfold get_top.
  rewrite Hb. cbn [mbind outcome_bind fst snd bid].
  destruct (f64_spoof_layers_sim fuel symbol 49999.5 price_offset layer_size
              (Z.to_nat layers) 0%nat ex u [])
    as (ex1 & new & Hr & Hl1 & Hs1 & Hi1); [intros j Hj; apply Hoff; lia | done |].
  rewrite Hr. cbn [mbind outcome_bind fst snd app].
  rewrite Hb in Hi1. cbn in Hi1. rewrite app_nil_r in Hi1.
  destruct (f64_layered_place_sell fuel 49999.5 ex1 symbol 0.01
              ("real_" ++ substring 0 8 (uuid4_hex (u + Z.to_nat layers)%nat))%string Hl1)
    as (ex2 & Hp & Hl2 & Hs2 & Hi2).
  rewrite Hp. cbn [mbind outcome_bind fst snd].
  rewrite <- Hi2 in Hi1.
  destruct (f64_gather_cancel_sim 49999.5 new ex2 Hl2 Hi1) as (ex3 & Hg & Hl3 & Hb3 & Hs3).
  rewrite Hg. cbn [mbind outcome_bind fst snd].
  eexists _, _. split; [reflexivity|]. split; [done|]. split; [done|]. congruence.
Qed.

(** X12: started on the empty simulated book, when every spoof price
    [bid - price_offset * (i + 1)], as the floats compute it, is below the
    bid 49999.5, the strategy loop never trades, whatever the layer size and
    the ids drawn: the spoof bids are priced under 49999.5 and the sell of
    each cycle is priced 49999.5, so the matching loop is left at its first
    test.  After [n] rounds, with any fuel, no cycle has raised, the trade
    log and the BUY queue are empty, and the SELL queue holds the [n] sells,
    all at 49999.5.  (An offset so small that the subtraction rounds back to
    49999.5 is outside the hypothesis: its bids do trade.) *)
Theorem sim_cycles_never_trade n fuel symbol layers layer_size price_offset hold exec_delay :
  (layers < 2 ^ 63)%Z ->
  (forall i, (i < Z.to_nat layers)%nat ->
     (49999.5 - price_offset * of_int (Z.of_nat i + 1) <? 49999.5) = true) ->
  exists ex' u',
    run_strategy_loop clock uuid4_hex n fuel (SimExchange_init, 0%nat) symbol layers
      layer_size price_offset hold exec_delay [] = Ok ([], (ex', u')) /\
    trades ex' = [] /\ buys ex' = [] /\ length (sells ex') = n /\
    Forall (fun r => price (deref (heap ex') r) = 49999.5) (sells ex').
Proof.
  intros _ Hoff.
  assert (Hloop : forall n ex u,
    layered 49999.5 ex -> buys ex = [] ->
    exists ex' u',
      run_strategy_loop clock uuid4_hex n fuel (ex, u) symbol layers
        layer_size price_offset hold exec_delay [] = Ok ([], (ex', u')) /\
      layered 49999.5 ex' /\ buys ex' = [] /\
      length (sells ex') = (n + length (sells ex))%nat).
  { clear n. induction n as [|n IH]; intros ex u Hl Hb.
    - by exists ex, u.
    - destruct (f64_spoof_cycle_sim fuel ex u symbol layers layer_size price_offset
                  hold exec_delay Hoff Hl Hb) as (ex1 & u1 & Hc & Hl1 & Hb1 & Hs1).
      destruct (IH ex1 u1 Hl1 Hb1) as (ex' & u' & Hr & Hl' & Hb' & Hs').
      exists ex', u'. cbn [run_strategy_loop]. rewrite Hc. cbn [snd].
      split; [done|]. split; [done|]. split; [done|]. lia. }
  destruct (Hloop n SimExchange_init 0%nat) as (ex' & u' & Hr & Hl' & Hb' & Hs'); [|done|].
  { split; [apply f64_book_wf_init|]. by repeat split. }
  exists ex', u'. split; [done|]. destruct Hl' as (_ & Htr & _ & Hsp).
  split; [done|]. split; [done|]. split; [cbn in Hs'; lia | done].
Qed.

(** X16: on a [SimExchange], whatever its state and the parameters, no
    call of a spoof cycle raises an exception: [deque.remove] inside
    [cancel] always finds its order, and nothing else can raise.  The
    [except] branch of the strategy loop is never taken in sim mode. *)
Theorem sim_cycle_never_raises fuel ex u symbol layers layer_size price_offset
    hold exec_delay e :
  spoof_cycle clock uuid4_hex fuel (ex, u) symbol layers layer_size price_offset
    hold exec_delay <> Raise e.
Proof.
  unfold spoof_cycle. cbn [fst snd]. unfold get_top.
  cbn [mbind outcome_bind fst snd bid].
  destruct (f64_spoof_layers_outcome fuel symbol
              match buys ex with
              | [] => 49999.5
              | r :: _ => price (deref (heap ex) r)
              end price_offset layer_size (Z.to_nat layers) 0%nat ex u [])
    as [-> | (l & ex1 & u1 & ->)]; [done|].
  cbn [mbind outcome_bind fst snd].
  destruct (f64_place_limit_outcome fuel ex1 symbol SELL
              match buys ex with
              | [] => 49999.5
              | r :: _ => price (deref (heap ex) r)
              end 0.01 ("real_" ++ substring 0 8 (uuid4_hex u1))%string)
    as [-> | (oid & ex2 & ->)]; [done|].
  cbn [mbind outcome_bind fst snd].
  by destruct (f64_gather_cancel_outcome l ex2) as [ex3 ->].
Qed.

End Cycle.

(** *** Claims on the matching loop and the fills *)


(** C3, as amended: when no order is placed with a NaN price, the book
    between any two calls has no cross: it is never the case that both
    queues are non-empty and the head BUY price is greater than or equal to
    the head SELL price; the head BUY price is below the head SELL price.
    This holds after every [place_limit] and every [cancel] that completes,
    and [cancel] always completes.  Whatever the prices, a [place_limit]
    that returns has run the matching to quiescence and leaves no cross. *)
Theorem no_spurious_cross ex :
  reachable_by clock number_price ex ->
  quiescent ex /\ ~ crossed ex /\
  (forall fuel c ex',
     call_ok number_price c -> run clock fuel ex c = Ok ex' ->
     quiescent ex' /\ ~ crossed ex') /\
  (forall order_id,
     exists ex', cancel ex order_id = Ok (tt, ex') /\ quiescent ex' /\ ~ crossed ex') /\
  (forall fuel ex0 symbol sd p sz cid res,
     place_limit clock fuel ex0 symbol sd p sz cid = Ok res ->
     quiescent res.2 /\ ~ crossed res.2).
Proof.
  intros Hr. destruct (f64_reachable_book_sorted _ Hr) as [Hs Hq].
  split; [done|]. split; [by apply f64_quiescent_not_crossed|].
  split; [|split].
  - intros fuel c ex' Hok Hrun.
    destruct (f64_run_book_sorted fuel ex c ex' Hs Hq Hok Hrun) as [_ Hq'].
    split; [done | by apply f64_quiescent_not_crossed].
  - intros order_id. destruct (f64_cancel_total ex order_id) as [ex' Hc].
    exists ex'. split; [done|].
    pose proof (f64_cancel_quiescent _ _ _ Hs Hq Hc) as Hq'.
    split; [done | by apply f64_quiescent_not_crossed].
  - intros fuel ex0 symbol sd p sz cid res. rewrite f64_place_limit_eq.
    destruct (_match clock fuel _) as [ex3| |] eqn:E; cbn; [|done..].
    intros [= <-]. cbn [snd]. apply f64_match_quiescent in E.
    split; [done | by apply f64_quiescent_not_crossed].
Qed.

(** C4 at its failing input: BUY 0.9 as b, then SELL 0.3 and SELL 1.0, all
    at the price 100.  The second sell trades [0.9 - 0.3] against b, and
    [0.3 + (0.9 - 0.3)] rounds to 0.9000000000000001: b ends with the status
    ["filled"] and [filled > size], so [filled <= size] and
    [status = "filled" iff filled == size] both fail for it. *)
Theorem order_fill_overshoot symbol :
  exists ex,
    run_calls clock 1 SimExchange_init
      [CallPlace symbol BUY 100 0.9 "b"; CallPlace symbol SELL 100 0.3 "s1";
       CallPlace symbol SELL 100 1 "s2"] = Ok ex /\
    let b := deref (heap ex) 0%nat in
    id b = "b"%string /\ size b = 0.9 /\ filled b = 0.3 + (0.9 - 0.3) /\
    status b = st_filled /\
    (size b <? filled b) = true /\ (filled b <=? size b) = false /\
    (filled b =? size b) = false /\
    buys ex = [] /\ sells ex = [2%nat].
Proof. eexists. split; [reflexivity|]. cbn. by repeat split. Qed.

(** The loop on a BUY order of NaN size against a SELL order: every
    iteration trades NaN, leaves both [filled] NaN and removes no order. *)
Lemma f64_nan_size_step tb tsl tr n :
  match_iter clock
    (mkSim [mkOrder "b" BUY 100 nan nan st_open tb; mkOrder "s" SELL 100 1 nan st_open tsl]
           [0%nat] [1%nat] tr n)
  = Some
    (mkSim [mkOrder "b" BUY 100 nan nan st_open tb; mkOrder "s" SELL 100 1 nan st_open tsl]
           [0%nat] [1%nat] (tr ++ [mkTrade 100 nan (clock n)]) (S n)).
Proof. reflexivity. Qed.

Lemma f64_nan_size_loops fuel : forall tb tsl tr n,
  _match clock fuel
    (mkSim [mkOrder "b" BUY 100 nan nan st_open tb; mkOrder "s" SELL 100 1 nan st_open tsl]
           [0%nat] [1%nat] tr n)
  = Diverge.
Proof.
  induction fuel as [|fuel IH]; intros tb tsl tr n; cbn [_match];
    rewrite f64_nan_size_step; [done | apply IH].
Qed.

Lemma f64_nan_size_diverges symbol fuel :
  place_limit clock fuel
    (mkSim [mkOrder "b" BUY 100 nan 0 st_open (clock 0)] [0%nat] [] [] 1)
    symbol SELL 100 1 "s" = Diverge.
Proof.
  rewrite f64_place_limit_eq. set (X := _insert _ _).
  assert (E : match_iter clock X = Some
    (mkSim [mkOrder "b" BUY 100 nan nan st_open (clock 0);
            mkOrder "s" SELL 100 1 nan st_open (clock 1)]
           [0%nat] [1%nat] ([] ++ [mkTrade 100 nan (clock 2)]) 3)) by reflexivity.
  destruct fuel as [|fuel]; cbn [_match]; rewrite E; [done|].
  by rewrite f64_nan_size_loops.
Qed.

(** C10 at its failing inputs.  Rounding: after BUY 0.9 and SELL 0.2 at the
    price 100, the first iteration of the loop for SELL 1.0 trades
    [0.9 - 0.2], the minimum, against the buy order; [0.2 + (0.9 - 0.2)]
    rounds below 0.9, so the order that attains the minimum does not reach
    [filled == size], no order is removed and the number of resting orders
    does not decrease (the call returns after a second trade, of
    [0.9 - (0.2 + (0.9 - 0.2))]).  NaN: with a BUY order of NaN size resting,
    the loop of a crossing SELL never ends, whatever the fuel. *)
Theorem match_loop_stalls symbol :
  (exists ex ex1 ex2,
     run_calls clock 1 SimExchange_init
       [CallPlace symbol BUY 100 0.9 "b"; CallPlace symbol SELL 100 0.2 "s1"] = Ok ex /\
     let ex0 := _insert (new_Order clock ex "s2" SELL 100 1).2
                        (new_Order clock ex "s2" SELL 100 1).1 in
     buys ex0 = [0%nat] /\ sells ex0 = [2%nat] /\
     match_iter clock ex0 = Some ex1 /\
     buys ex1 = [0%nat] /\ sells ex1 = [2%nat] /\
     (exists px t, trades ex1 = trades ex0 ++ [mkTrade px (0.9 - 0.2) t]) /\
     filled (deref (heap ex1) 0%nat) = 0.2 + (0.9 - 0.2) /\
     (filled (deref (heap ex1) 0%nat) <? size (deref (heap ex1) 0%nat)) = true /\
     status (deref (heap ex1) 0%nat) = st_open /\
     status (deref (heap ex1) 2%nat) = st_open /\
     place_limit clock 1 ex symbol SELL 100 1 "s2" = Diverge /\
     place_limit clock 2 ex symbol SELL 100 1 "s2" = Ok ("s2"%string, ex2) /\
     (exists t1 t2 t3,
        trades ex2 = [mkTrade 100 0.2 t1; mkTrade 100 (0.9 - 0.2) t2;
                      mkTrade 100 (0.9 - (0.2 + (0.9 - 0.2))) t3])) /\
  (exists ex,
     run_calls clock 0 SimExchange_init [CallPlace symbol BUY 100 nan "b"] = Ok ex /\
     forall fuel, place_limit clock fuel ex symbol SELL 100 1 "s" = Diverge).
Proof.
  split.
  - eexists _, _, _. split; [reflexivity|]. cbn zeta.
    split; [reflexivity|]. split; [reflexivity|]. split; [reflexivity|].
    split; [reflexivity|]. split; [reflexivity|].
    split; [by eexists _, _|]. split; [reflexivity|]. split; [reflexivity|].
    split; [reflexivity|]. split; [reflexivity|]. split; [reflexivity|].
    split; [reflexivity|]. by eexists _, _, _.
  - exists (mkSim [mkOrder "b" BUY 100 nan 0 st_open (clock 0)] [0%nat] [] [] 1).
    split; [reflexivity|]. apply f64_nan_size_diverges.
Qed.

(** *** Further properties of the book *)

(** X1: when no order is placed with a NaN price, between any two calls
    both queues are in price priority: BUY by descending and SELL by
    ascending price, so the head of a queue has the best price of its
    side. *)
Theorem price_priority ex :
  reachable_by clock number_price ex ->
  sorted (heap ex) BUY (buys ex) /\ sorted (heap ex) SELL (sells ex) /\
  (forall r q r', buys ex = r :: q -> r' ∈ buys ex ->
     (price (deref (heap ex) r') <=? price (deref (heap ex) r)) = true) /\
  (forall r q r', sells ex = r :: q -> r' ∈ sells ex ->
     (price (deref (heap ex) r) <=? price (deref (heap ex) r')) = true).
Proof.
  intros Hr. destruct (f64_reachable_book_sorted _ Hr) as [([Wb Ws] & Hn & Sb & Ss) _].
  pose proof (f64_queue_numbers _ _ _ Hn Wb) as Nb.
  pose proof (f64_queue_numbers _ _ _ Hn Ws) as Ns.
  split; [done|]. split; [done|]. split.
  - intros r q r' E Hin. rewrite E in Sb, Hin, Nb. apply Forall_cons in Nb as [Nr _].
    apply (f64_sorted_head_best _ BUY _ _ _ Nr Sb Hin).
  - intros r q r' E Hin. rewrite E in Ss, Hin, Ns. apply Forall_cons in Ns as [Nr _].
    apply (f64_sorted_head_best _ SELL _ _ _ Nr Ss Hin).
Qed.

Lemma f64_insert_idx_ahead h s q p :
  Forall (fun x => strictly_better s (price (deref h x)) p)
         (take (insert_idx h s q p) q).
Proof.
  induction q as [|r0 q IH]; cbn; [constructor|].
  destruct (cmp s (price (deref h r0)) p) eqn:E; cbn; [|constructor].
  apply Forall_cons. split; [by apply f64_cmp_strict | done].
Qed.

Lemma f64_insert_idx_behind h s q p :
  is_nan p = false ->
  Forall (fun r => is_nan (price (deref h r)) = false) q ->
  sorted h s q ->
  Forall (fun x => better_eq s p (price (deref h x)))
         (drop (insert_idx h s q p) q).
Proof.
  intros Hp. unfold sorted, prices. induction q as [|r0 q IH]; [constructor|].
  rewrite fmap_cons. intros [Hn0 Hn]%Forall_cons [Hr0 Hq]%StronglySorted_cons.
  cbn [insert_idx].
  destruct (cmp s (price (deref h r0)) p) eqn:E; cbn [drop]; [by apply IH|].
  apply f64_cmp_false in E; [|done..]. apply Forall_cons. split; [done|].
  rewrite Forall_fmap in Hr0. eapply Forall_impl; [exact Hr0|].
  intros x Hx. cbn in Hx. by eapply f64_better_eq_trans.
Qed.

(** X2: when no order is placed with a NaN price, [_insert] puts a new
    order behind exactly the resting orders whose price is strictly better,
    keeping their order and that of the rest: every resting order of the
    same or a worse price ends up behind the new order. *)
Theorem insert_position ex cid sd p sz :
  reachable_by clock number_price ex -> is_nan p = false ->
  exists l1 l2,
    book ex sd = l1 ++ l2 /\
    book (_insert (new_Order clock ex cid sd p sz).2 (new_Order clock ex cid sd p sz).1) sd
      = l1 ++ length (heap ex) :: l2 /\
    Forall (fun x => strictly_better sd (price (deref (heap ex) x)) p) l1 /\
    Forall (fun x => better_eq sd p (price (deref (heap ex) x))) l2.
Proof.
  intros Hr Hp.
  destruct (f64_reachable_book_sorted _ Hr) as [([Wb Ws] & Hn & Sb & Ss) _].
  set (o := mkOrder cid sd p sz 0 st_open (clock (now ex))).
  set (h' := heap ex ++ [o]).
  assert (Wq : queue_wf (heap ex) sd (book ex sd)) by (by destruct sd).
  assert (Sq : sorted (heap ex) sd (book ex sd)) by (by destruct sd).
  assert (Hsame : forall x, x ∈ book ex sd -> deref h' x = deref (heap ex) x).
  { intros x Hx. apply f64_deref_app_l. by eapply f64_tagged_lt, Hx; apply Wq. }
  assert (Sq' : sorted h' sd (book ex sd)).
  { apply (f64_sorted_static (heap ex)); [|done].
    intros x Hx. rewrite Hsame by done. apply f64_same_static_refl. }
  assert (Nq' : Forall (fun r => is_nan (price (deref h' r)) = false) (book ex sd)).
  { apply Forall_forall. intros x Hx. rewrite Hsame by done.
    apply f64_number_in; [done|]. by eapply f64_tagged_lt, Hx; apply Wq. }
  exists (take (insert_idx h' sd (book ex sd) p) (book ex sd)),
         (drop (insert_idx h' sd (book ex sd) p) (book ex sd)).
  split; [by rewrite take_drop|]. split.
  { rewrite f64_insert_new_eq. fold o h'. by destruct sd. }
  split.
  - pose proof (f64_insert_idx_ahead h' sd (book ex sd) p) as H.
    apply Forall_forall. intros x Hx.
    rewrite <- Hsame by (eapply elem_of_sublist; [exact Hx | apply sublist_take]).
    by apply (proj1 (Forall_forall _ _) H).
  - pose proof (f64_insert_idx_behind h' sd (book ex sd) p Hp Nq' Sq') as H.
    apply Forall_forall. intros x Hx.
    rewrite <- Hsame by (eapply elem_of_sublist; [exact Hx | apply sublist_drop]).
    by apply (proj1 (Forall_forall _ _) H).
Qed.

(** X9: when no order was placed with a NaN price, an order priced short
    of the best opposite price, or placed while the opposite queue is empty,
    rests: [place_limit] returns at once whatever the fuel, logs no trade,
    touches no other order, and leaves the new order open and unfilled in
    the queue of its side. *)
Theorem passive_order_rests fuel ex symbol sd p sz cid :
  reachable_by clock number_price ex ->
  match sd with
  | BUY => forall rs sq, sells ex = rs :: sq -> (p <? price (deref (heap ex) rs)) = true
  | SELL => forall rb bq, buys ex = rb :: bq -> (price (deref (heap ex) rb) <? p) = true
  end ->
  exists ex',
    place_limit clock fuel ex symbol sd p sz cid = Ok (cid, ex') /\
    trades ex' = trades ex /\
    heap ex' = heap ex ++ [mkOrder cid sd p sz 0 st_open (clock (now ex))] /\
    length (heap ex) ∈ book ex' sd /\
    match sd with
    | BUY => sells ex' = sells ex
    | SELL => buys ex' = buys ex
    end.
Proof.
  intros Hr Hp. destruct (f64_reachable_book_sorted _ Hr) as [(Hwf & _) Hnc].
  destruct (f64_passive_place fuel ex symbol sd p sz cid Hwf Hnc Hp)
    as (ex' & _ & H1 & _ & H).
  by exists ex'.
Qed.

End Binary64.

(** ** Claims on the live stub *)

(** C7: the paper flag is true when the constructor is called without it,
    and when [EX_PAPER] is not set in the environment of [run_strategy];
    with the flag false [connect] raises, and [run_strategy] then raises
    before the trading loop: whenever the loop is entered on a live
    exchange, the exchange is in paper mode. *)
Theorem live_never_escalates (env : string -> option string) (mode : string) :
  (forall k s, Live.paper (Live.init k s None) = true) /\
  (forall ex, Live.paper ex = false ->
     exists msg, Live.connect ex = Raise (mkExn RuntimeError msg)) /\
  (forall ex, run_strategy env mode = Ok (ExLive ex) -> Live.paper ex = true) /\
  (env "EX_PAPER"%string = None -> mode <> "sim"%string ->
     exists k s, run_strategy env mode = Ok (ExLive (Live.mk k s true))) /\
  (mode <> "sim"%string ->
   String.eqb (lower (getenv env "EX_PAPER" "true")) "true" = false ->
     exists msg, run_strategy env mode = Raise (mkExn RuntimeError msg)).
Proof.
  split; [done|]. split.
  { intros [k s []] Hp; [done|]. by eexists. }
  unfold run_strategy, getenv.
  destruct (String.eqb mode "sim") eqn:Em.
  - apply String.eqb_eq in Em. split; [done|]. split; by intros.
  - split; [|split].
    + cbn. unfold Live.connect, Live.init. cbn.
      destruct (String.eqb (lower _) "true"); cbn; [|done]. by intros ex [= <-].
    + intros -> _. cbn. by eexists _, _.
    + intros _ ->. cbn. by eexists.
Qed.

(** C8 on the code: with the paper flag false, [place_limit] and [cancel]
    raise [RuntimeError], the class of the configuration error of
    [connect]; they differ from it by message only, and every handler that
    takes one takes the other.  [get_top] raises [NotImplementedError],
    whatever the flag. *)
Theorem live_errors_by_kind k s symbol sd p sz cid order_id :
  exists e_connect e_top e_place e_cancel,
    Live.connect (Live.mk k s false) = Raise e_connect /\
    (forall ex, Live.get_top ex symbol = Raise e_top) /\
    Live.place_limit (Live.mk k s false) symbol sd p sz cid = Raise e_place /\
    Live.cancel (Live.mk k s false) order_id = Raise e_cancel /\
    exn_class e_connect = RuntimeError /\
    exn_class e_top = NotImplementedError /\
    exn_class e_place = exn_class e_connect /\
    exn_class e_cancel = exn_class e_connect /\
    exn_msg e_place <> exn_msg e_connect /\
    exn_msg e_cancel <> exn_msg e_connect /\
    (forall d, caught_by d e_place = caught_by d e_connect) /\
    (forall d, caught_by d e_cancel = caught_by d e_connect).
Proof. eexists _, _, _, _. repeat split; done. Qed.

(** ** The claims at concrete books *)

Lemma live_never_escalates_witness :
  let env : string -> option string := fun _ => None in
  env "EX_PAPER"%string = None /\ "live"%string <> "sim"%string /\
  exists k s, run_strategy env "live" = Ok (ExLive (Live.mk k s true)).
Proof.
  intros env.
  assert (Hm : "live"%string <> "sim"%string) by discriminate.
  split; [reflexivity|]. split; [exact Hm|].
  exact (proj1 (proj2 (proj2 (proj2 (live_never_escalates env "live")))) eq_refl Hm).
Defined.

Lemma cancel_idempotent_witness :
  let ex := mkSim [mkOrder "b1" BUY 100 1 0 st_open 0] [0%nat] [] [] 1 in
  (length (resting_with_id ex "b1"%string) <= 1)%nat /\
  exists ex1, cancel ex "b1" = Ok (tt, ex1) /\ cancel ex1 "b1" = Ok (tt, ex1).
Proof.
  intros ex.
  assert (H : (length (resting_with_id ex "b1"%string) <= 1)%nat) by (vm_compute; constructor).
  split; [exact H|].
  destruct (cancel_idempotent ex "b1"%string) as (ex1 & H1 & _ & H3).
  exists ex1. split; [exact H1 | exact (H3 H)].
Defined.

(** C6 as stated fails when two resting orders carry one id: the first
    [cancel] takes the first of them, the second call takes the other. *)
Lemma cancel_idempotent_counterexample :
  let ex := mkSim [mkOrder "x" BUY 100 1 0 st_open 0;
                   mkOrder "x" BUY 99 1 0 st_open 0] [0%nat; 1%nat] [] [] 2 in
  let ex1 := mkSim [mkOrder "x" BUY 100 1 0 st_cancelled 0;
                    mkOrder "x" BUY 99 1 0 st_open 0] [1%nat] [] [] 2 in
  let ex2 := mkSim [mkOrder "x" BUY 100 1 0 st_cancelled 0;
                    mkOrder "x" BUY 99 1 0 st_cancelled 0] [] [] [] 2 in
  reachable (fun _ => 0) ex /\
  cancel ex "x" = Ok (tt, ex1) /\ cancel ex1 "x" = Ok (tt, ex2) /\ ex1 <> ex2.
Proof.
  intros ex ex1 ex2. split; [|split; [reflexivity|split; [reflexivity|discriminate]]].
  apply (reach_call _ _
    (mkSim [mkOrder "x" BUY 100 1 0 st_open 0] [0%nat] [] [] 1)
    (CallPlace "BTC/USDT" BUY 99 1 "x") 0%nat);
    [|exact I|reflexivity].
  apply (reach_call _ _ SimExchange_init (CallPlace "BTC/USDT" BUY 100 1 "x") 0%nat);
    [apply reach_init | exact I | reflexivity].
Qed.

Lemma get_top_spec_witness :
  let ex := mkSim [mkOrder "b1" BUY 100 1 0 st_open 0] [0%nat] [] [] 1 in
  buys ex = [0%nat] /\ sells ex = [] /\
  exists t, get_top ex "BTC/USDT" = Ok (t, ex) /\ bid t = 100 /\ ask t == 50000.5.
Proof.
  intros ex. split; [reflexivity|]. split; [reflexivity|].
  destruct (get_top_spec ex "BTC/USDT"%string) as (t & H1 & H2 & _ & _ & H5).
  exists t. split; [exact H1|].
  split; [exact (H2 0%nat [] eq_refl) | exact (H5 eq_refl)].
Defined.

(** ** The further properties at concrete books *)

Lemma created_fields_immutable_witness :
  let ex := mkSim [mkOrder "b1" BUY 101 2 0 st_open 0] [0%nat] [] [] 1 in
  let c := CallPlace "BTC/USDT" SELL 100 1 "s1" in
  let ex' := mkSim [mkOrder "b1" BUY 101 2 1 st_open 0;
                    mkOrder "s1" SELL 100 1 1 st_filled 0]
                   [0%nat] [] [mkTrade (201 # 2) 1 0] 3 in
  run (fun _ => 0) 1 ex c = Ok ex' /\
  same_static (deref (heap ex) 0%nat) (deref (heap ex') 0%nat) /\
  length (heap ex') = 2%nat.
Proof.
  intros ex c ex'.
  assert (H : run (fun _ => 0) 1 ex c = Ok ex') by reflexivity.
  split; [exact H|].
  destruct (created_fields_immutable (fun _ => 0) 1 ex c ex' H) as [H1 H2].
  split; [apply H1; repeat constructor | exact H2].
Defined.

Lemma trade_log_append_only_witness :
  let ex := mkSim [mkOrder "b1" BUY 101 2 0 st_open 0] [0%nat] [] [] 1 in
  let c := CallPlace "BTC/USDT" SELL 100 1 "s1" in
  let ex' := mkSim [mkOrder "b1" BUY 101 2 1 st_open 0;
                    mkOrder "s1" SELL 100 1 1 st_filled 0]
                   [0%nat] [] [mkTrade (201 # 2) 1 0] 3 in
  run (fun _ => 0) 1 ex c = Ok ex' /\
  exists new, trades ex' = trades ex ++ new.
Proof.
  intros ex c ex'.
  assert (H : run (fun _ => 0) 1 ex c = Ok ex') by reflexivity.
  split; [exact H|].
  destruct (trade_log_append_only (fun _ => 0) 1 ex c ex' H) as (new & Hn & _).
  exists new. exact Hn.
Defined.

Lemma resting_iff_open_witness :
  let ex := mkSim [mkOrder "b1" BUY 101 2 1 st_open 0;
                   mkOrder "s1" SELL 100 1 1 st_filled 0]
                  [0%nat] [] [mkTrade (201 # 2) 1 0] 3 in
  reachable (fun _ => 0) ex /\
  (status (deref (heap ex) 1%nat) = st_open <-> 1%nat ∈ buys ex \/ 1%nat ∈ sells ex).
Proof.
  intros ex.
  assert (H : reachable (fun _ => 0) ex).
  { apply (reach_call _ _
      (mkSim [mkOrder "b1" BUY 101 2 0 st_open 0] [0%nat] [] [] 1)
      (CallPlace "BTC/USDT" SELL 100 1 "s1") 1%nat);
      [|exact I|reflexivity].
    apply (reach_call _ _ SimExchange_init (CallPlace "BTC/USDT" BUY 101 2 "b1") 0%nat);
      [apply reach_init | exact I | reflexivity]. }
  split; [exact H|].
  apply (proj1 (resting_iff_open _ ex H) 1%nat). repeat constructor.
Defined.



Lemma cancel_effect_witness :
  let ex := mkSim [mkOrder "b1" BUY 100 1 0 st_open 0] [0%nat] [] [] 1 in
  reachable (fun _ => 0) ex /\
  exists ex', cancel ex "b1" = Ok (tt, ex') /\ trades ex' = trades ex.
Proof.
  intros ex.
  assert (H : reachable (fun _ => 0) ex).
  { apply (reach_call _ _ SimExchange_init (CallPlace "BTC/USDT" BUY 100 1 "b1") 0%nat);
      [apply reach_init | exact I | reflexivity]. }
  split; [exact H|].
  destruct (cancel_effect (fun _ => 0) ex "b1"%string H)
    as [[_ E] | (s & l1 & r & l2 & ex' & E & H')].
  - exists ex. split; [exact E | reflexivity].
  - exists ex'. split; [exact E|]. apply H'.
Defined.

(** X15: [run_strategy] in sim mode enters the loop on an empty simulated
    book whatever the environment; in any other mode it enters the loop if
    and only if [EX_PAPER], ["true"] when unset, reads ["true"] once
    lowercased, and raises otherwise: a value such as ["1"] or ["yes"]
    refuses to start. *)
Theorem run_strategy_modes (env : string -> option string) (mode : string) :
  (mode = "sim"%string -> run_strategy env mode = Ok (ExSim SimExchange_init)) /\
  (mode <> "sim"%string ->
     ((exists ex, run_strategy env mode = Ok ex) <->
      lower (getenv env "EX_PAPER" "true") = "true"%string) /\
     (forall ex, run_strategy env mode = Ok ex ->
        ex = ExLive (Live.mk (getenv env "EX_KEY" EmptyString)
                             (getenv env "EX_SECRET" EmptyString) true))).
Proof.
  unfold run_strategy. split.
  - intros ->. reflexivity.
  - intros Hm. apply String.eqb_neq in Hm. rewrite Hm.
    unfold Live.init. cbn [default].
    destruct (String.eqb (lower (getenv env "EX_PAPER" "true")) "true") eqn:E.
    + apply String.eqb_eq in E. split; [|by intros ex [= <-]].
      split; [done|]. intros _. by eexists.
    + apply String.eqb_neq in E. split; [|by intros ex].
      split; [by intros [ex H]|done].
Qed.

Lemma run_strategy_modes_witness :
  let env : string -> option string :=
    fun k => if String.eqb k "EX_PAPER" then Some "TRUE"%string else None in
  "live"%string <> "sim"%string /\
  lower (getenv env "EX_PAPER" "true") = "true"%string /\
  exists ex, run_strategy env "live" = Ok ex.
Proof.
  intros env.
  assert (Hm : "live"%string <> "sim"%string) by discriminate.
  assert (Hl : lower (getenv env "EX_PAPER" "true") = "true"%string) by reflexivity.
  split; [exact Hm|]. split; [exact Hl|].
  exact (proj2 (proj1 (proj2 (run_strategy_modes env "live") Hm)) Hl).
Defined.

(** ** The claims on floats at concrete books *)

Section Binary64Books.

Import F64.

Local Open Scope float_scope.



(** With rounding, the sum of [filled] is not twice the sum of the trade
    sizes either: after BUY 0.9, SELL 0.2 and SELL 1.0 at one price, the
    three trades sum to 0.9 and the [filled] to 1.8000000000000003. *)
Lemma f64_fill_sums_rounding :
  exists ex,
    run_calls (fun _ => 0) 2 SimExchange_init
      [CallPlace "BTC/USDT" BUY 100 0.9 "b"; CallPlace "BTC/USDT" SELL 100 0.2 "s1";
       CallPlace "BTC/USDT" SELL 100 1 "s2"] = Ok ex /\
    length (trades ex) = 3%nat /\
    sum_trades (trades ex) = 0.9 /\
    (2 * sum_trades (trades ex) <? sum_filled (heap ex)) = true.
Proof. eexists. split; [reflexivity|]. by repeat split. Qed.

Lemma no_spurious_cross_witness :
  let ex := mkSim [mkOrder "a" BUY 100 1 1 st_filled 0;
                   mkOrder "c" BUY 90 1 0 st_open 0;
                   mkOrder "s" SELL 100 1 1 st_filled 0;
                   mkOrder "t" SELL 95 1 0 st_open 0]
                  [1%nat] [3%nat] [mkTrade 100 1 0] 5 in
  run_calls (fun _ => 0) 1 SimExchange_init
    [CallPlace "BTC/USDT" BUY 100 1 "a"; CallPlace "BTC/USDT" BUY 90 1 "c";
     CallPlace "BTC/USDT" SELL 100 1 "s"; CallPlace "BTC/USDT" SELL 95 1 "t"] = Ok ex /\
  reachable_by (fun _ => 0) number_price ex /\
  buys ex = [1%nat] /\ sells ex = [3%nat] /\
  quiescent ex /\ ~ crossed ex /\
  exists ex', cancel ex "c" = Ok (tt, ex') /\ ~ crossed ex'.
Proof.
  intros ex.
  assert (Hrun : run_calls (fun _ => 0) 1 SimExchange_init
    [CallPlace "BTC/USDT" BUY 100 1 "a"; CallPlace "BTC/USDT" BUY 90 1 "c";
     CallPlace "BTC/USDT" SELL 100 1 "s"; CallPlace "BTC/USDT" SELL 95 1 "t"] = Ok ex)
    by reflexivity.
  assert (H : reachable_by (fun _ => 0) number_price ex).
  { eapply f64_run_calls_reachable; [apply reach_init | | exact Hrun].
    repeat constructor. }
  split; [exact Hrun|]. split; [exact H|]. split; [reflexivity|]. split; [reflexivity|].
  destruct (no_spurious_cross (fun _ => 0) ex H) as (Hq & Hnc & _ & Hc & _).
  split; [exact Hq|]. split; [exact Hnc|].
  destruct (Hc "c"%string) as (ex' & Hc1 & _ & Hc2).
  exists ex'. split; [exact Hc1 | exact Hc2].
Defined.

(** C3 as stated fails after a NaN price: BUY 100 as a, BUY NaN as n and
    BUY 90 as c give the queue [c, n, a], since every comparison with NaN
    is false; SELL 95 rests behind the head c; once c and n are cancelled
    the book holds the bid 100 against the ask 95. *)
Lemma no_spurious_cross_counterexample :
  let ex := mkSim [mkOrder "a" BUY 100 1 0 st_open 0;
                   mkOrder "n" BUY nan 1 0 st_cancelled 0;
                   mkOrder "c" BUY 90 1 0 st_cancelled 0;
                   mkOrder "s" SELL 95 1 0 st_open 0]
                  [0%nat] [3%nat] [] 4 in
  run_calls (fun _ => 0) 0 SimExchange_init
    [CallPlace "BTC/USDT" BUY 100 1 "a"; CallPlace "BTC/USDT" BUY nan 1 "n";
     CallPlace "BTC/USDT" BUY 90 1 "c"; CallPlace "BTC/USDT" SELL 95 1 "s";
     CallCancel "c"; CallCancel "n"] = Ok ex /\
  reachable (fun _ => 0) ex /\
  buys ex = [0%nat] /\ sells ex = [3%nat] /\
  price (deref (heap ex) 0%nat) = 100 /\ price (deref (heap ex) 3%nat) = 95 /\
  crossed ex.
Proof.
  intros ex.
  assert (H : run_calls (fun _ => 0) 0 SimExchange_init
    [CallPlace "BTC/USDT" BUY 100 1 "a"; CallPlace "BTC/USDT" BUY nan 1 "n";
     CallPlace "BTC/USDT" BUY 90 1 "c"; CallPlace "BTC/USDT" SELL 95 1 "s";
     CallCancel "c"; CallCancel "n"] = Ok ex) by reflexivity.
  split; [exact H|]. split; [|by repeat split].
  eapply f64_run_calls_reachable; [apply reach_init | | exact H].
  repeat constructor.
Qed.

(** ** The further properties on floats at concrete books *)

Lemma price_priority_witness :
  let ex := mkSim [mkOrder "a" BUY 100 1 0 st_open 0;
                   mkOrder "b" BUY 101 1 0 st_open 0;
                   mkOrder "c" BUY 100.5 1 0 st_open 0]
                  [1%nat; 2%nat; 0%nat] [] [] 3 in
  reachable_by (fun _ => 0) number_price ex /\
  (price (deref (heap ex) 0%nat) <=? price (deref (heap ex) 1%nat)) = true /\
  (price (deref (heap ex) 2%nat) <=? price (deref (heap ex) 1%nat)) = true.
Proof.
  intros ex.
  assert (H : reachable_by (fun _ => 0) number_price ex).
  { apply (f64_run_calls_reachable (fun _ => 0) number_price 0
             [CallPlace "BTC/USDT" BUY 100 1 "a"; CallPlace "BTC/USDT" BUY 101 1 "b";
              CallPlace "BTC/USDT" BUY 100.5 1 "c"] SimExchange_init);
      [apply reach_init | repeat constructor | reflexivity]. }
  split; [exact H|].
  pose proof (proj1 (proj2 (proj2 (price_priority _ ex H)))) as Hp.
  split.
  - apply (Hp 1%nat [2%nat; 0%nat] 0%nat); [reflexivity | right; right; left].
  - apply (Hp 1%nat [2%nat; 0%nat] 2%nat); [reflexivity | right; left].
Defined.

Lemma insert_position_witness :
  let ex := mkSim [mkOrder "a" BUY 100 1 0 st_open 0;
                   mkOrder "b" BUY 101 1 0 st_open 0] [1%nat; 0%nat] [] [] 2 in
  reachable_by (fun _ => 0) number_price ex /\ is_nan 100 = false /\
  exists l1 l2,
    book ex BUY = l1 ++ l2 /\
    book (_insert (new_Order (fun _ => 0) ex "c" BUY 100 1).2
                  (new_Order (fun _ => 0) ex "c" BUY 100 1).1) BUY
      = l1 ++ 2%nat :: l2 /\
    Forall (fun x => (100 <? price (deref (heap ex) x)) = true) l1 /\
    Forall (fun x => (price (deref (heap ex) x) <=? 100) = true) l2.
Proof.
  intros ex.
  assert (H : reachable_by (fun _ => 0) number_price ex).
  { apply (f64_run_calls_reachable (fun _ => 0) number_price 0
             [CallPlace "BTC/USDT" BUY 100 1 "a"; CallPlace "BTC/USDT" BUY 101 1 "b"]
             SimExchange_init);
      [apply reach_init | repeat constructor | reflexivity]. }
  assert (Hp : is_nan 100 = false) by reflexivity.
  split; [exact H|]. split; [exact Hp|].
  destruct (insert_position (fun _ => 0) ex "c"%string BUY 100 1 H Hp)
    as (l1 & l2 & H1 & H2 & H3 & H4).
  exists l1, l2. split; [exact H1|]. split; [exact H2|]. split; [exact H3 | exact H4].
Defined.

Lemma passive_order_rests_witness :
  let ex := mkSim [mkOrder "s1" SELL 101 1 0 st_open 0] [] [0%nat] [] 1 in
  reachable_by (fun _ => 0) number_price ex /\
  (forall rs sq, sells ex = rs :: sq -> (100 <? price (deref (heap ex) rs)) = true) /\
  exists ex',
    place_limit (fun _ => 0) 0 ex "BTC/USDT" BUY 100 1 "b1" = Ok ("b1"%string, ex') /\
    trades ex' = trades ex /\ sells ex' = sells ex.
Proof.
  intros ex.
  assert (H : reachable_by (fun _ => 0) number_price ex).
  { apply (reach_call _ _ SimExchange_init (CallPlace "BTC/USDT" SELL 101 1 "s1") 0%nat);
      [apply reach_init | reflexivity | reflexivity]. }
  assert (Hp : forall rs sq, sells ex = rs :: sq ->
                 (100 <? price (deref (heap ex) rs)) = true).
  { intros rs sq E. injection E as <- <-. reflexivity. }
  split; [exact H|]. split; [exact Hp|].
  destruct (passive_order_rests (fun _ => 0) 0 ex "BTC/USDT"%string BUY 100 1 "b1"%string H Hp)
    as (ex' & H1 & H2 & _ & _ & H5).
  exists ex'. split; [exact H1|]. split; [exact H2 | exact H5].
Defined.

Lemma sim_cycles_never_trade_witness :
  (3 < 2 ^ 63)%Z /\
  (forall i, (i < Z.to_nat 3)%nat ->
     (49999.5 - 0.5 * of_int (Z.of_nat i + 1) <? 49999.5) = true) /\
  exists ex' u',
    run_strategy_loop (fun _ => 0) (fun _ => "0123456789abcdef0123456789abcdef"%string)
      2 0 (SimExchange_init, 0%nat) "BTC/USDT" 3 5 0.5 0.2 0.05 []
    = Ok ([], (ex', u')) /\
    trades ex' = [] /\ buys ex' = [] /\ length (sells ex') = 2%nat.
Proof.
  assert (Hl : (3 < 2 ^ 63)%Z) by reflexivity.
  assert (Hoff : forall i, (i < Z.to_nat 3)%nat ->
     (49999.5 - 0.5 * of_int (Z.of_nat i + 1) <? 49999.5) = true).
  { intros [|[|[|i]]] Hi; [reflexivity..|]. cbn in Hi. lia. }
  split; [exact Hl|]. split; [exact Hoff|].
  destruct (sim_cycles_never_trade (fun _ => 0)
              (fun _ => "0123456789abcdef0123456789abcdef"%string)
              2 0 "BTC/USDT"%string 3 5 0.5 0.2 0.05 Hl Hoff)
    as (ex' & u' & H1 & H2 & H3 & H4 & _).
  exists ex', u'. split; [exact H1|]. split; [exact H2|]. split; [exact H3 | exact H4].
Defined.

(** An offset too small for the floats: [49999.5 - 1e-12 * 1] is 49999.5,
    the spoof bid sits at the bid, and the sell of the cycle trades with
    it. *)
Lemma f64_small_offset_trades :
  (49999.5 - 1e-12 * of_int 1 =? 49999.5) = true /\
  exists ex u,
    spoof_cycle (fun _ => 0) (fun _ => "0123456789abcdef0123456789abcdef"%string)
      1 (SimExchange_init, 0%nat) "BTC/USDT" 1 5 1e-12 0.2 0.05 = Ok (tt, (ex, u)) /\
    trades ex = [mkTrade 49999.5 0.01 0].
Proof. split; [reflexivity|]. eexists _, _. split; reflexivity. Qed.

End Binary64Books.
